(** * Supernote X note files: a shallow embedding of [src/parsing.ts]

    The development follows the TypeScript source function by function.
    Byte buffers are lists of bytes, JavaScript strings are lists of UTF-16
    code units, JavaScript objects are lists of own properties kept in the
    order in which [Object.entries] enumerates them, and every function that
    can throw returns an [outcome].  The source is an ECMAScript module, so
    its code is strict: an assignment that cannot be carried out throws.
    Every entry point (an exported function, the constructor) is taken to
    start in the standard environment of the runtime. *)

From Stdlib Require Import ZArith List Bool Lia.
From Stdlib Require Import Strings.String Strings.Ascii Strings.Byte.
Import ListNotations.

Local Open Scope Z_scope.
Local Open Scope list_scope.

(** ** Outcomes of a call *)

(** The errors that leave [parsing.ts].  [SignatureMismatch] is the
    [Error] thrown by [_parseSignature]; [RangeError] and [TypeError] are
    thrown by the runtime ([Buffer.readUIntLE], a call, a spread or an
    assignment on a value of the wrong kind). *)
Inductive abort : Type :=
| SignatureMismatch
| RangeError
| TypeError.

Inductive outcome (A : Type) : Type :=
| Ok (a : A)
| Abort (e : abort).

Arguments Ok {A} a.
Arguments Abort {A} e.

Definition bind {A B : Type} (m : outcome A) (k : A -> outcome B) : outcome B :=
  match m with
  | Ok a => k a
  | Abort e => Abort e
  end.

Declare Scope outcome_scope.
Delimit Scope outcome_scope with outcome.
Notation "x <- m ;; k" := (bind m (fun x => k))
  (at level 61, m at next level, right associativity) : outcome_scope.
Local Open Scope outcome_scope.

(** Monadic left fold: [Array.prototype.reduce] / [forEach] with a callback
    that may throw. *)
Fixpoint foldM {A B : Type} (f : B -> A -> outcome B) (l : list A) (acc : B)
  : outcome B :=
  match l with
  | [] => Ok acc
  | x :: l' => acc' <- f acc x ;; foldM f l' acc'
  end.

(** [Array.prototype.map] with a callback that may throw. *)
Fixpoint mapM {A B : Type} (f : A -> outcome B) (l : list A) : outcome (list B) :=
  match l with
  | [] => Ok []
  | x :: l' => y <- f x ;; ys <- mapM f l' ;; Ok (y :: ys)
  end.

(** ** Numbers, strings and buffers *)

(** A JavaScript number as the parser uses it: the result of [parseInt] is
    [NaN], an integer that a double holds exactly, or an infinity.  The two
    zeros are one number, as they are for [===]. *)
Inductive number : Type :=
| NaN
| Int (z : Z)
| Infinity (negative : bool).

(** A string is its sequence of UTF-16 code units. *)
Definition char : Type := Z.
Definition jsstring : Type := list char.

Definition code (c : ascii) : char := Z.of_N (N_of_ascii c).

Fixpoint lit (s : string) : jsstring :=
  match s with
  | EmptyString => []
  | String c s' => code c :: lit s'
  end.

Fixpoint str_eqb (s t : jsstring) : bool :=
  match s, t with
  | [], [] => true
  | c :: s', d :: t' => (c =? d) && str_eqb s' t'
  | _, _ => false
  end.

Definition buffer : Type := list byte.

Definition byte_val (b : byte) : Z := Z.of_N (Byte.to_N b).

Definition buf_length (b : buffer) : Z := Z.of_nat (List.length b).

(** Little-endian value of a run of bytes. *)
Fixpoint le_value (bs : list byte) : Z :=
  match bs with
  | [] => 0
  | b :: bs' => byte_val b + 256 * le_value bs'
  end.

(** [n + z] for an integer [z]. *)
Definition plus (n : number) (z : Z) : number :=
  match n with
  | NaN => NaN
  | Int a => Int (a + z)
  | Infinity negative => Infinity negative
  end.

(** [n === 0] *)
Definition is_zero (n : number) : bool :=
  match n with
  | Int 0 => true
  | _ => false
  end.

(** [buf.subarray(start, end)]: negative indices count from the end and both
    bounds are clamped to the buffer. *)
Definition clamp_index (len i : Z) : Z :=
  if i <? 0 then Z.max (len + i) 0 else Z.min i len.

(** The index a bound stands for: [NaN] counts as 0 and an infinity as the
    end it points to. *)
Definition clamp (len : Z) (n : number) : Z :=
  match n with
  | NaN => clamp_index len 0
  | Int i => clamp_index len i
  | Infinity negative => if negative then 0 else len
  end.

Definition subarray (b : buffer) (start stop : number) : buffer :=
  let s := clamp (buf_length b) start in
  let e := clamp (buf_length b) stop in
  firstn (Z.to_nat (e - s)) (skipn (Z.to_nat s) b).

(** The unsigned little-endian integer held by the [w] bytes at offset [a]. *)
Definition length_field (b : buffer) (a w : Z) : Z :=
  le_value (firstn (Z.to_nat w) (skipn (Z.to_nat a) b)).

(** [buf.readUIntLE(offset, byteLength)] of the Node runtime: the width must
    be between 1 and 6, the offset an integer with the whole field inside the
    buffer; anything else throws a [RangeError]. *)
Definition readUIntLE (b : buffer) (offset : number) (byteLength : Z) : outcome Z :=
  if (1 <=? byteLength) && (byteLength <=? 6) then
    match offset with
    | Int a =>
        if (0 <=? a) && (a + byteLength <=? buf_length b)
        then Ok (length_field b a byteLength)
        else Abort RangeError
    | NaN | Infinity _ => Abort RangeError
    end
  else Abort RangeError.

(** ** [getContentAtAddress] *)

Definition getContentAtAddress (b : buffer) (address : number) (byteLength : Z)
  : outcome (option buffer) :=
  if is_zero address then Ok None
  else
    blockLength <- readUIntLE b address byteLength ;;
    let content :=
      subarray b (plus address byteLength) (plus address (byteLength + blockLength)) in
    Ok (Some content).

(** ** [Buffer.prototype.toString]: UTF-8 decoding *)

(** The decoder of the runtime: well-formed sequences give their code point,
    every maximal ill-formed run gives U+FFFD, and the byte that ends such a
    run is read again as the start of a sequence. *)
Inductive decoder : Type :=
| Idle
| Pending (needed cp lower upper : Z).

Definition lead (v : Z) : list Z * decoder :=
  if v <=? 127 then ([v], Idle)
  else if (194 <=? v) && (v <=? 223) then ([], Pending 1 (Z.land v 31) 128 191)
  else if (224 <=? v) && (v <=? 239) then
    ([], Pending 2 (Z.land v 15) (if v =? 224 then 160 else 128)
                                 (if v =? 237 then 159 else 191))
  else if (240 <=? v) && (v <=? 244) then
    ([], Pending 3 (Z.land v 7) (if v =? 240 then 144 else 128)
                                (if v =? 244 then 143 else 191))
  else ([65533], Idle).

Fixpoint code_points (st : decoder) (bs : list byte) : list Z :=
  match bs with
  | [] =>
      match st with
      | Idle => []
      | Pending _ _ _ _ => [65533]
      end
  | b :: bs' =>
      let v := byte_val b in
      match st with
      | Idle =>
          let (out, st') := lead v in out ++ code_points st' bs'
      | Pending needed cp lower upper =>
          if (lower <=? v) && (v <=? upper) then
            let cp' := cp * 64 + Z.land v 63 in
            if needed =? 1 then cp' :: code_points Idle bs'
            else code_points (Pending (needed - 1) cp' 128 191) bs'
          else
            let (out, st') := lead v in
            65533 :: out ++ code_points st' bs'
      end
  end.

(** A code point as UTF-16 code units. *)
Definition utf16 (cp : Z) : jsstring :=
  if cp <? 65536 then [cp]
  else [55296 + Z.shiftr (cp - 65536) 10; 56320 + Z.land (cp - 65536) 1023].

(** [buf.toString()] *)
Definition toString (b : buffer) : jsstring :=
  flat_map utf16 (code_points Idle b).

(** [buf.toString(undefined, start, end)] with [0 <= start <= end]. *)
Definition toString_range (b : buffer) (start stop : nat) : jsstring :=
  toString (firstn (stop - start) (skipn start b)).

(** ** String primitives *)

Fixpoint startsWith (s p : jsstring) : bool :=
  match p, s with
  | [], _ => true
  | d :: p', c :: s' => (c =? d) && startsWith s' p'
  | _ :: _, [] => false
  end.

(** [s.indexOf(d)]: [None] stands for -1. *)
Fixpoint indexOf (s d : jsstring) : option nat :=
  if startsWith s d then Some O
  else
    match s with
    | [] => None
    | _ :: s' =>
        match indexOf s' d with
        | Some i => Some (S i)
        | None => None
        end
    end.

(** [s.substring(i)] and [s.substring(0, i)] *)
Definition substring_from (s : jsstring) (i : nat) : jsstring := skipn i s.
Definition substring_to (s : jsstring) (i : nat) : jsstring := firstn i s.

(** [s.split(",")] *)
Fixpoint split (sep : char) (s : jsstring) : list jsstring :=
  match s with
  | [] => [[]]
  | c :: s' =>
      if c =? sep then [] :: split sep s'
      else
        match split sep s' with
        | piece :: pieces => (c :: piece) :: pieces
        | [] => [[c]]
        end
  end.

(** [l.join(",")], which is also [String(l)] for an array of strings. *)
Fixpoint join (sep : char) (l : list jsstring) : jsstring :=
  match l with
  | [] => []
  | [s] => s
  | s :: l' => s ++ sep :: join sep l'
  end.

(** Comparison of strings by code units, the order of [Array.prototype.sort]
    without a comparator. *)
Fixpoint str_ltb (s t : jsstring) : bool :=
  match s, t with
  | _, [] => false
  | [], _ :: _ => true
  | c :: s', d :: t' => (c <? d) || ((c =? d) && str_ltb s' t')
  end.

Fixpoint insert_sorted (k : jsstring) (l : list jsstring) : list jsstring :=
  match l with
  | [] => [k]
  | k' :: l' => if str_ltb k' k then k' :: insert_sorted k l' else k :: l
  end.

Definition sort (l : list jsstring) : list jsstring :=
  fold_right insert_sorted [] l.

(** Longest prefix of [s] whose characters satisfy [p], and what follows. *)
Fixpoint span (p : char -> bool) (s : jsstring) : jsstring * jsstring :=
  match s with
  | [] => ([], [])
  | c :: s' =>
      if p c then let (run, rest) := span p s' in (c :: run, rest)
      else ([], s)
  end.

(** ** [parseInt] *)

Definition is_digit (c : char) : bool := (48 <=? c) && (c <=? 57).

(** White space and line terminators skipped by [parseInt]. *)
Definition is_white (c : char) : bool :=
  ((9 <=? c) && (c <=? 13)) || (c =? 32) || (c =? 160) || (c =? 5760)
  || ((8192 <=? c) && (c <=? 8202)) || (c =? 8232) || (c =? 8233)
  || (c =? 8239) || (c =? 8287) || (c =? 12288) || (c =? 65279).

Fixpoint trim_start (s : jsstring) : jsstring :=
  match s with
  | [] => []
  | c :: s' => if is_white c then trim_start s' else s
  end.

Definition digit_value (radix : Z) (c : char) : option Z :=
  let d :=
    if is_digit c then c - 48
    else if (97 <=? c) && (c <=? 122) then c - 87
    else if (65 <=? c) && (c <=? 90) then c - 55
    else radix in
  if d <? radix then Some d else None.

(** Value of the longest run of digits at the head of [s]; [None] when there
    is no digit. *)
Fixpoint digits (radix : Z) (acc : option Z) (s : jsstring) : option Z :=
  match s with
  | [] => acc
  | c :: s' =>
      match digit_value radix c with
      | Some d =>
          digits radix
            (Some (match acc with Some a => a * radix + d | None => d end)) s'
      | None => acc
      end
  end.

(** The double nearest to the natural number [m], ties going to the even
    significand of 53 bits; [None] when the rounding reaches 2^1024, which is
    an infinity. *)
Definition nearest_double (m : Z) : option Z :=
  let bits := Z.log2 m + 1 in
  if bits <=? 53 then Some m
  else
    let e := bits - 53 in
    let q := Z.shiftr m e in
    let rest := m - Z.shiftl q e in
    let half := Z.shiftl 1 (e - 1) in
    let q' := if (half <? rest) || ((rest =? half) && Z.odd q) then q + 1 else q in
    let v := Z.shiftl q' e in
    if Z.shiftl 1 1024 <=? v then None else Some v.

(** [parseInt(s)] without a radix argument: the digits are read in base 10,
    or in base 16 after [0x], and their value is rounded to a double. *)
Definition parseInt (s : jsstring) : number :=
  let s1 := trim_start s in
  let '(negative, s2) :=
    match s1 with
    | c :: r => if c =? 45 then (true, r) else if c =? 43 then (false, r) else (false, s1)
    | [] => (false, s1)
    end in
  let '(radix, s3) :=
    match s2 with
    | c0 :: c1 :: r =>
        if (c0 =? 48) && ((c1 =? 120) || (c1 =? 88)) then (16, r) else (10, s2)
    | _ => (10, s2)
    end in
  match digits radix None s3 with
  | Some n =>
      match nearest_double n with
      | Some v => Int (if negative then - v else v)
      | None => Infinity negative
      end
  | None => NaN
  end.

(** ** Objects *)

(** The own enumerable string-keyed properties of an object, in the order of
    [Object.keys]: array indices in increasing order first, then the other
    keys in the order of their creation. *)
Definition obj (V : Type) : Type := list (jsstring * V).

Fixpoint get_own {V : Type} (k : jsstring) (o : obj V) : option V :=
  match o with
  | [] => None
  | (k', v) :: o' => if str_eqb k' k then Some v else get_own k o'
  end.

Definition has_own {V : Type} (k : jsstring) (o : obj V) : bool :=
  match get_own k o with
  | Some _ => true
  | None => false
  end.

(** The properties every object literal inherits from [Object.prototype]. *)
Definition Object_prototype : list jsstring :=
  map lit
    [ "constructor"; "__defineGetter__"; "__defineSetter__"; "hasOwnProperty";
      "__lookupGetter__"; "__lookupSetter__"; "isPrototypeOf";
      "propertyIsEnumerable"; "toString"; "valueOf"; "__proto__";
      "toLocaleString" ]%string.

Definition inherited (k : jsstring) : bool :=
  existsb (str_eqb k) Object_prototype.

(** [k in o] for an object [o] created by a literal, in the standard
    environment. *)
Definition js_in {V : Type} (k : jsstring) (o : obj V) : bool :=
  has_own k o || inherited k.

(** The part of the built-in objects that an assignment of this module can
    change and that the module can observe afterwards: the strings that have
    been stored on [Object.prototype] (a new property, or in the place of a
    built-in method) and on the [Object] constructor.  The standard
    environment holds none. *)
Record realm : Type := mkRealm {
  prototype_strings : obj jsstring;
  object_strings : obj jsstring
}.

Definition standard : realm := mkRealm [] [].

(** [k in o] once [Object.prototype] may hold more. *)
Definition js_in_at {V : Type} (r : realm) (k : jsstring) (o : obj V) : bool :=
  has_own k o || has_own k (prototype_strings r) || inherited k.

(** [Object.keys] and [Object.entries] can be called as long as no string
    has taken their place. *)
Definition callable (method : string) (r : realm) : bool :=
  negb (has_own (lit method) (object_strings r)).

(** A canonical numeric string below 2^32 - 1 is an array index. *)
Definition array_index (k : jsstring) : option Z :=
  match k with
  | [] => None
  | c :: rest =>
      if forallb is_digit k && (negb (c =? 48) || match rest with [] => true | _ => false end)
      then
        match digits 10 None k with
        | Some n => if n <? 4294967295 then Some n else None
        | None => None
        end
      else None
  end.

Fixpoint update {V : Type} (k : jsstring) (v : V) (o : obj V) : obj V :=
  match o with
  | [] => []
  | (k', v') :: o' =>
      if str_eqb k' k then (k', v) :: o' else (k', v') :: update k v o'
  end.

Fixpoint insert_index {V : Type} (n : Z) (k : jsstring) (v : V) (o : obj V) : obj V :=
  match o with
  | [] => [(k, v)]
  | (k', v') :: o' =>
      match array_index k' with
      | Some m => if n <? m then (k, v) :: o else (k', v') :: insert_index n k v o'
      | None => (k, v) :: o
      end
  end.

(** Definition of an own property, as an object literal, a spread or an
    assignment to a fresh key does it: an existing key keeps its place. *)
Definition define {V : Type} (k : jsstring) (v : V) (o : obj V) : obj V :=
  if has_own k o then update k v o
  else
    match array_index k with
    | Some n => insert_index n k v o
    | None => o ++ [(k, v)]
    end.

(** [o[k] = v] for a string [v]: the inherited setter of ["__proto__"]
    ignores a value that is not an object. *)
Definition assign {V : Type} (k : jsstring) (v : V) (o : obj V) : obj V :=
  if has_own k o then update k v o
  else if str_eqb k (lit "__proto__") then o
  else define k v o.

(** [{...dst, ...src}] *)
Definition spread {V : Type} (src dst : obj V) : obj V :=
  fold_left (fun o kv => define (fst kv) (snd kv) o) src dst.

Definition keys {V : Type} (o : obj V) : list jsstring := map fst o.

(** No key occurs twice among the own properties. *)
Definition distinct_keys {V : Type} (o : obj V) : Prop := NoDup (keys o).

(** Truthiness of a string. *)
Definition truthy (s : jsstring) : bool :=
  match s with
  | [] => false
  | _ :: _ => true
  end.

(** ** Regular expressions *)

(** [matchAll] with a global pattern that never matches the empty string.
    [here s] tells whether the pattern matches at the head of [s] and gives
    the captures and the length of the match; the search resumes where the
    match ends ([lastIndex]), which [skip] counts down to. *)
Fixpoint scan {M : Type} (here : jsstring -> option (M * nat)) (skip : nat)
  (s : jsstring) : list M :=
  match s with
  | [] => []
  | _ :: s' =>
      match skip with
      | S k => scan here k s'
      | O =>
          match here s with
          | Some (m, n) => m :: scan here (Nat.pred n) s'
          | None => scan here O s'
          end
      end
  end.

Definition matchAll {M : Type} (here : jsstring -> option (M * nat)) (s : jsstring)
  : list M :=
  scan here O s.

(** [[^:<>]] *)
Definition tag_char (c : char) : bool :=
  negb ((c =? 58) || (c =? 60) || (c =? 62)).

(** [/<([^:<>]+):([^:<>]+)>/] at the head of [s]: the captured key and
    value. *)
Definition pair_here (s : jsstring) : option ((jsstring * jsstring) * nat) :=
  match s with
  | c :: s1 =>
      if c =? 60 then
        let (key, s2) := span tag_char s1 in
        match key, s2 with
        | _ :: _, c2 :: s3 =>
            if c2 =? 58 then
              let (value, s4) := span tag_char s3 in
              match value, s4 with
              | _ :: _, c4 :: _ =>
                  if c4 =? 62
                  then Some ((key, value), (3 + List.length key + List.length value)%nat)
                  else None
              | _, _ => None
              end
            else None
        | _, _ => None
        end
      else None
  | [] => None
  end.

(** [[^{}]] *)
Definition brace_free (c : char) : bool :=
  negb ((c =? 123) || (c =? 125)).

(** [/{(?<content>[^{}]+)}/] at the head of [s]. *)
Definition layer_here (s : jsstring) : option (jsstring * nat) :=
  match s with
  | c :: s1 =>
      if c =? 123 then
        let (content, s2) := span brace_free s1 in
        match content, s2 with
        | _ :: _, c2 :: _ =>
            if c2 =? 125 then Some (content, (2 + List.length content)%nat) else None
        | _, _ => None
        end
      else None
  | [] => None
  end.

(** The two character classes of the pair pattern: a key character is
    anything but a double quote, a bracket or a brace; a value character is
    moreover not a comma. *)
Definition dict_key_char (c : char) : bool :=
  negb ((c =? 34) || (c =? 91) || (c =? 123) || (c =? 125) || (c =? 93)).

Definition dict_value_char (c : char) : bool :=
  dict_key_char c && negb (c =? 44).

(** [dictPattern] at the head of [s]: a double quote, one or more key
    characters, a double quote and a hash, an optional double quote, one or
    more value characters. *)
Definition dict_here (s : jsstring) : option ((jsstring * jsstring) * nat) :=
  match s with
  | c :: s1 =>
      if c =? 34 then
        let (key, s2) := span dict_key_char s1 in
        match key, s2 with
        | _ :: _, c2 :: c3 :: s3 =>
            if (c2 =? 34) && (c3 =? 35) then
              let '(quote, s4) :=
                match s3 with
                | c4 :: s4 => if c4 =? 34 then (1%nat, s4) else (0%nat, s3)
                | [] => (0%nat, s3)
                end in
              match fst (span dict_value_char s4) with
              | [] => None
              | value =>
                  Some ((key, value),
                        (3 + List.length key + quote + List.length value)%nat)
              end
            else None
        | _, _ => None
        end
      else None
  | [] => None
  end.

(** [/^noteSN_FILE_VER_\d{8}/.test(s)] *)
Definition signature_test (s : jsstring) : bool :=
  startsWith s (lit "noteSN_FILE_VER_")
  && (8 <=? List.length (fst (span is_digit (skipn 16 s))))%nat.

(** ** [extractKeyValue] and [parseKeyValue] *)

(** A value of the flat record: a string, or the array built when a key is
    repeated. *)
Inductive value : Type :=
| VStr (s : jsstring)
| VArr (l : list jsstring).

Definition record : Type := obj value.

(** The callback of [reduce].  When [key] is not an own property but is
    inherited, [acc[key]] is a built-in function or object, not a string, and
    spreading it throws. *)
Definition accumulate (acc : record) (pair : jsstring * jsstring) : outcome record :=
  let (key, v) := pair in
  if js_in key acc then
    match get_own key acc with
    | Some (VStr s) => Ok (update key (VArr [s; v]) acc)
    | Some (VArr l) => Ok (update key (VArr (l ++ [v])) acc)
    | None => Abort TypeError
    end
  else Ok (define key (VStr v) acc).

Definition extractKeyValue (content : jsstring) : outcome record :=
  let pairs := matchAll pair_here content in
  foldM accumulate pairs [].

Definition parseKeyValue (b : buffer) (address : number) (byteLength : Z)
  : outcome record :=
  content <- getContentAtAddress b address byteLength ;;
  match content with
  | None => Ok []
  | Some content => extractKeyValue (toString content)
  end.

(** ** [extractNestedKeyValue] *)

(** The loop over [prefixes]: the first prefix the key starts with. *)
Fixpoint first_prefix (key : jsstring) (prefixes : list jsstring)
  : option jsstring * option jsstring :=
  match prefixes with
  | [] => (None, None)
  | prefix :: prefixes' =>
      if startsWith key prefix
      then (Some prefix, Some (substring_from key (List.length prefix)))
      else first_prefix key prefixes'
  end.

(** [main] and [sub] as the callback leaves them before its test. *)
Definition main_sub (key delimiter : jsstring) (prefixes : list jsstring)
  : option jsstring * option jsstring :=
  match indexOf key delimiter with
  | Some idx => (Some (substring_to key idx), Some (substring_from key (idx + 1)))
  | None => first_prefix key prefixes
  end.

Definition nested : Type := obj (obj jsstring).

(** The properties of a built-in function that an assignment cannot set:
    [length] and [name] are read-only, [arguments] and [caller] are inherited
    accessors that throw, and so is [prototype] on a constructor. *)
Definition read_only (main sub : jsstring) : bool :=
  existsb (str_eqb sub) (map lit ["length"; "name"; "arguments"; "caller"]%string)
  || (str_eqb main (lit "constructor") && str_eqb sub (lit "prototype")).

(** [data[main][sub] = v] when [main] is not an own property of [data] and
    [data[main]] is found on [Object.prototype].  It is a string stored there
    earlier, on which no property can be created; or [Object.prototype]
    itself, for [__proto__]; or one of its methods, [Object] for
    [constructor].  The setter of [__proto__] ignores a string, whatever the
    target.  The write changes the built-in object, not [data]. *)
Definition builtin_write (r : realm) (main sub v : jsstring) : outcome realm :=
  if str_eqb sub (lit "__proto__") then Ok r
  else
    match get_own main (prototype_strings r) with
    | Some _ => Abort TypeError
    | None =>
        if str_eqb main (lit "__proto__") then
          Ok (mkRealm (define sub v (prototype_strings r)) (object_strings r))
        else if read_only main sub then Abort TypeError
        else if str_eqb main (lit "constructor") then
          Ok (mkRealm (prototype_strings r) (define sub v (object_strings r)))
        else Ok r
    end.

(** The callback of [forEach], on [data] and the environment. *)
Definition group_entry (delimiter : jsstring) (prefixes : list jsstring)
  (state : nested * realm) (entry : jsstring * value) : outcome (nested * realm) :=
  let (data, r) := state in
  let (key, v) := entry in
  match v with
  | VArr _ => Ok state
  | VStr v =>
      match main_sub key delimiter prefixes with
      | (Some main, Some sub) =>
          if truthy main && truthy sub then
            if js_in_at r main data then
              match get_own main data with
              | Some group => Ok (update main (assign sub v group) data, r)
              | None => r' <- builtin_write r main sub v ;; Ok (data, r')
              end
            else Ok (define main (define sub v []) data, r)
          else Ok state
      | _ => Ok state
      end
  end.

(** The function in an environment [r]: what it returns and the environment
    it leaves. *)
Definition extractNestedKeyValue_at (r : realm) (rec : record) (delimiter : jsstring)
  (prefixes : list jsstring) : outcome (nested * realm) :=
  if callable "entries" r then foldM (group_entry delimiter prefixes) rec ([], r)
  else Abort TypeError.

(** What the function returns in the standard environment. *)
Definition extractNestedKeyValue (rec : record) (delimiter : jsstring)
  (prefixes : list jsstring) : outcome nested :=
  state <- extractNestedKeyValue_at standard rec delimiter prefixes ;;
  Ok (fst state).

(** ** [extractLayerInfo] *)

Record ILayerInfo : Type := mkLayerInfo {
  layerId : number;
  name : jsstring;
  isBackgroundLayer : bool;
  isAllowAdd : bool;
  isCurrentLayer : bool;
  isVisible : bool;
  isDeleted : bool;
  isAllowUp : bool;
  isAllowDown : bool
}.

(** [data.field === "true"] *)
Definition is_true (v : option jsstring) : bool :=
  match v with
  | Some s => str_eqb s (lit "true")
  | None => false
  end.

(** [v ?? d] *)
Definition or_default {A : Type} (v : option A) (d : A) : A :=
  match v with
  | Some a => a
  | None => d
  end.

(** The inner [reduce]: [acc[key] = value] for every pair of the group.  The
    named groups of both patterns are always defined, so neither [throw] of
    the source is reachable. *)
Definition layer_dict (content : jsstring) : obj jsstring :=
  fold_left (fun acc kv => assign (fst kv) (snd kv) acc)
    (matchAll dict_here content) [].

Definition layer_of_dict (data : obj jsstring) : ILayerInfo :=
  {| layerId := parseInt (or_default (get_own (lit "layerId") data) (lit "0"));
     name := or_default (get_own (lit "name") data) (lit "Main layer");
     isBackgroundLayer := is_true (get_own (lit "isBackgroundLayer") data);
     isAllowAdd := is_true (get_own (lit "isAllowAdd") data);
     isCurrentLayer := is_true (get_own (lit "isCurrentLayer") data);
     isVisible := is_true (get_own (lit "isVisible") data);
     isDeleted := is_true (get_own (lit "isDeleted") data);
     isAllowUp := is_true (get_own (lit "isAllowUp") data);
     isAllowDown := is_true (get_own (lit "isAllowDown") data) |}.

Definition extractLayerInfo (content : jsstring) : list ILayerInfo :=
  let layerContents := matchAll layer_here content in
  map (fun group => layer_of_dict (layer_dict group)) layerContents.

(** ** The document model of [~/format] *)

(** The interfaces are imported from a module that is not part of
    [parsing.ts]; their shape is read off the object literals that build
    them. *)

(** A field of a layer or of a title: a string or an array copied from the
    flat record, or the bitmap ([null] when the address is 0). *)
Inductive field : Type :=
| FStr (s : jsstring)
| FArr (l : list jsstring)
| FBuf (b : option buffer).

Definition of_value (v : value) : field :=
  match v with
  | VStr s => FStr s
  | VArr l => FArr l
  end.

Definition ILayer : Type := obj field.
Definition ITitle : Type := obj field.

Record IKeyword : Type := mkKeyword {
  KEYWORDSEQNO : jsstring;
  KEYWORDPAGE : jsstring;
  KEYWORDRECT : list jsstring;
  KEYWORDRECTORI : list jsstring;
  KEYWORDSITE : jsstring;
  KEYWORDLEN : jsstring;
  KEYWORD : jsstring;
  keyword_bitmapBuffer : option buffer
}.

Inductive page_field : Type :=
| PVal (v : value)
| PLayer (l : ILayer)
| PLayerInfo (l : list ILayerInfo)
| PLayerSeq (l : list jsstring)
| PBuf (b : option buffer).

Definition IPage : Type := obj page_field.
Definition IHeader : Type := record.
Definition IFooter : Type := nested.

Record ICover : Type := mkCover {
  cover_bitmapBuffer : option buffer
}.

(** The object under construction.  A field that no stage has assigned yet
    is [None] ([undefined]). *)
Record SupernoteX : Type := mkSupernoteX {
  pageWidth : Z;
  pageHeight : Z;
  addressSize : Z;
  lengthFieldSize : Z;
  defaultLayers : list jsstring;
  signature : option jsstring;
  footer : option IFooter;
  header : option IHeader;
  pages : option (list IPage);
  cover : option ICover;
  keywords : option (obj (list IKeyword));
  titles : option (obj (list ITitle))
}.

Definition set_signature (v : jsstring) (this : SupernoteX) : SupernoteX :=
  mkSupernoteX (pageWidth this) (pageHeight this) (addressSize this)
    (lengthFieldSize this) (defaultLayers this)
    (Some v) (footer this) (header this) (pages this) (cover this)
    (keywords this) (titles this).

Definition set_footer (v : IFooter) (this : SupernoteX) : SupernoteX :=
  mkSupernoteX (pageWidth this) (pageHeight this) (addressSize this)
    (lengthFieldSize this) (defaultLayers this)
    (signature this) (Some v) (header this) (pages this) (cover this)
    (keywords this) (titles this).

Definition set_header (v : IHeader) (this : SupernoteX) : SupernoteX :=
  mkSupernoteX (pageWidth this) (pageHeight this) (addressSize this)
    (lengthFieldSize this) (defaultLayers this)
    (signature this) (footer this) (Some v) (pages this) (cover this)
    (keywords this) (titles this).

Definition set_pages (v : list IPage) (this : SupernoteX) : SupernoteX :=
  mkSupernoteX (pageWidth this) (pageHeight this) (addressSize this)
    (lengthFieldSize this) (defaultLayers this)
    (signature this) (footer this) (header this) (Some v) (cover this)
    (keywords this) (titles this).

Definition set_cover (v : ICover) (this : SupernoteX) : SupernoteX :=
  mkSupernoteX (pageWidth this) (pageHeight this) (addressSize this)
    (lengthFieldSize this) (defaultLayers this)
    (signature this) (footer this) (header this) (pages this) (Some v)
    (keywords this) (titles this).

Definition set_keywords (v : obj (list IKeyword)) (this : SupernoteX) : SupernoteX :=
  mkSupernoteX (pageWidth this) (pageHeight this) (addressSize this)
    (lengthFieldSize this) (defaultLayers this)
    (signature this) (footer this) (header this) (pages this) (cover this)
    (Some v) (titles this).

Definition set_titles (v : obj (list ITitle)) (this : SupernoteX) : SupernoteX :=
  mkSupernoteX (pageWidth this) (pageHeight this) (addressSize this)
    (lengthFieldSize this) (defaultLayers this)
    (signature this) (footer this) (header this) (pages this) (cover this)
    (keywords this) (Some v).

(** Reading a property of [undefined] throws. *)
Definition defined {A : Type} (v : option A) : outcome A :=
  match v with
  | Some a => Ok a
  | None => Abort TypeError
  end.

(** [String(v)] *)
Definition value_string (v : value) : jsstring :=
  match v with
  | VStr s => s
  | VArr l => join 44 l
  end.

(** [parseInt((data.KEY as string) ?? "0")] *)
Definition address_field (data : record) (key : string) : number :=
  match get_own (lit key) data with
  | Some v => parseInt (value_string v)
  | None => parseInt (lit "0")
  end.

(** ** The stages of [_parseBuffer] *)

Definition _parseSignature (this : SupernoteX) (b : buffer) : outcome SupernoteX :=
  let content := toString_range b 0 24 in
  if signature_test content then Ok (set_signature content this)
  else Abort SignatureMismatch.

Definition footer_defaults : IFooter :=
  [ (lit "FILE", [(lit "FEATURE", lit "24")]);
    (lit "COVER", [(lit "0", lit "0")]);
    (lit "KEYWORD", []);
    (lit "TITLE", []);
    (lit "STYLE", []);
    (lit "PAGE", []) ].

(** The footer stage: the object with its footer, and the environment that
    the grouping of the footer leaves to the later stages.  The groups of a
    footer are named by the text before the first underscore or by [PAGE],
    never by [__proto__], so that [Object.prototype] itself is not written. *)
Definition _parseFooter_at (this : SupernoteX) (b : buffer)
  : outcome (SupernoteX * realm) :=
  let chunk := subarray b (Int (buf_length b - addressSize this)) (Int (buf_length b)) in
  address <- readUIntLE chunk (Int 0) (addressSize this) ;;
  data <- parseKeyValue b (Int address) (lengthFieldSize this) ;;
  state <- extractNestedKeyValue_at standard data (lit "_") [lit "PAGE"] ;;
  Ok (set_footer (spread (fst state) footer_defaults) this, snd state).

Definition _parseFooter (this : SupernoteX) (b : buffer) : outcome SupernoteX :=
  state <- _parseFooter_at this b ;;
  Ok (fst state).

Definition header_defaults : IHeader :=
  map (fun k => (lit k, VStr (lit "0")))
    [ "MODULE_LABEL"; "FILE_TYPE"; "APPLY_EQUIPMENT"; "FINAL_OPERATION_PAGE";
      "FINAL_OPERATION_LAYER"; "ORIGINAL_STYLE"; "ORIGINAL_STYLEMD5";
      "DEVICE_DPI"; "SOFT_DPI"; "FILE_PARSE_TYPE"; "RATTA_ETMD";
      "APP_VERSION" ]%string.

(** [this.footer.FILE?.FEATURE ? parseInt(this.footer.FILE.FEATURE) : 24] *)
Definition header_address (f : IFooter) : number :=
  match get_own (lit "FILE") f with
  | Some file =>
      match get_own (lit "FEATURE") file with
      | Some feature => if truthy feature then parseInt feature else Int 24
      | None => Int 24
      end
  | None => Int 24
  end.

Definition _parseHeader (this : SupernoteX) (b : buffer) : outcome SupernoteX :=
  f <- defined (footer this) ;;
  let address := header_address f in
  data <- parseKeyValue b address (lengthFieldSize this) ;;
  Ok (set_header (spread data header_defaults) this).

Definition layer_defaults : ILayer :=
  [ (lit "LAYERTYPE", FStr (lit "NOTE"));
    (lit "LAYERPROTOCOL", FStr (lit "RATTA_RLE"));
    (lit "LAYERNAME", FStr (lit "MAINLAYER"));
    (lit "LAYERPATH", FStr (lit "0"));
    (lit "LAYERBITMAP", FStr (lit "0"));
    (lit "LAYERVECTORGRAPH", FStr (lit "0"));
    (lit "LAYERRECOGN", FStr (lit "0")) ].

Definition fields_of (data : record) : obj field :=
  map (fun kv => (fst kv, of_value (snd kv))) data.

Definition _parseLayer (this : SupernoteX) (b : buffer) (address : number)
  : outcome ILayer :=
  data <- parseKeyValue b address (lengthFieldSize this) ;;
  bitmapBuffer <-
    getContentAtAddress b (address_field data "LAYERBITMAP") (lengthFieldSize this) ;;
  Ok (define (lit "bitmapBuffer") (FBuf bitmapBuffer)
        (spread (fields_of data) layer_defaults)).

Definition page_defaults : IPage :=
  map (fun k => (lit k, PVal (VStr (lit "0"))))
    [ "PAGESTYLE"; "PAGESTYLEMD5"; "LAYERSWITCH"; "TOTALPATH";
      "THUMBNAILTYPE" ]%string.

(** [extractLayerInfo(data["LAYERINFO"] as string)]: the cast checks nothing,
    and [matchAll] of [undefined] or of an array is a [TypeError]. *)
Definition page_layerInfo (data : record) : outcome (list ILayerInfo) :=
  match get_own (lit "LAYERINFO") data with
  | Some (VStr s) => Ok (extractLayerInfo s)
  | _ => Abort TypeError
  end.

(** [(data["LAYERSEQ"] as string).split(",")] *)
Definition page_layerSeq (data : record) : outcome (list jsstring) :=
  match get_own (lit "LAYERSEQ") data with
  | Some (VStr s) => Ok (split 44 s)
  | _ => Abort TypeError
  end.

(** The callback of [map] in [_parsePages]. *)
Definition parsePage (this : SupernoteX) (b : buffer) (group : obj jsstring)
  (idx : jsstring) : outcome IPage :=
  let address := parseInt (or_default (get_own idx group) (lit "undefined")) in
  data <- parseKeyValue b address (lengthFieldSize this) ;;
  MAINLAYER <- _parseLayer this b (address_field data "MAINLAYER") ;;
  LAYER1 <- _parseLayer this b (address_field data "LAYER1") ;;
  LAYER2 <- _parseLayer this b (address_field data "LAYER2") ;;
  LAYER3 <- _parseLayer this b (address_field data "LAYER3") ;;
  BGLAYER <- _parseLayer this b (address_field data "BGLAYER") ;;
  LAYERINFO <- page_layerInfo data ;;
  LAYERSEQ <- page_layerSeq data ;;
  totalPathBuffer <-
    getContentAtAddress b (address_field data "TOTALPATH") (lengthFieldSize this) ;;
  Ok (define (lit "totalPathBuffer") (PBuf totalPathBuffer)
     (define (lit "LAYERSEQ") (PLayerSeq LAYERSEQ)
     (define (lit "LAYERINFO") (PLayerInfo LAYERINFO)
     (define (lit "BGLAYER") (PLayer BGLAYER)
     (define (lit "LAYER3") (PLayer LAYER3)
     (define (lit "LAYER2") (PLayer LAYER2)
     (define (lit "LAYER1") (PLayer LAYER1)
     (define (lit "MAINLAYER") (PLayer MAINLAYER)
     (spread (map (fun kv => (fst kv, PVal (snd kv))) data) page_defaults))))))))).

(** A call of [Object.keys] or [Object.entries]. *)
Definition call (method : string) (r : realm) : outcome unit :=
  if callable method r then Ok tt else Abort TypeError.

Definition _parsePages (r : realm) (this : SupernoteX) (b : buffer)
  : outcome SupernoteX :=
  f <- defined (footer this) ;;
  group <- defined (get_own (lit "PAGE") f) ;;
  _ <- call "keys" r ;;
  pages <- mapM (parsePage this b group) (sort (keys group)) ;;
  Ok (set_pages pages this).

(** [parseInt(this.footer.COVER["0"] ?? this.footer.COVER["1"])] *)
Definition cover_address (group : obj jsstring) : number :=
  match get_own (lit "0") group with
  | Some s => parseInt s
  | None => parseInt (or_default (get_own (lit "1") group) (lit "undefined"))
  end.

(** [address && address > 0] *)
Definition positive (n : number) : bool :=
  match n with
  | NaN => false
  | Int a => 0 <? a
  | Infinity negative => negb negative
  end.

Definition _parseCover (this : SupernoteX) (b : buffer) : outcome SupernoteX :=
  f <- defined (footer this) ;;
  group <- defined (get_own (lit "COVER") f) ;;
  let address := cover_address group in
  if positive address then
    bitmapBuffer <- getContentAtAddress b address (lengthFieldSize this) ;;
    Ok (set_cover (mkCover bitmapBuffer) this)
  else Ok this.

Definition rect0 : list jsstring := [lit "0"; lit "0"; lit "0"; lit "0"].

Definition _parseKeyword (this : SupernoteX) (b : buffer) (address : number)
  : outcome IKeyword :=
  data <- parseKeyValue b address (lengthFieldSize this) ;;
  bitmapBuffer <-
    getContentAtAddress b (address_field data "KEYWORDSITE") (lengthFieldSize this) ;;
  Ok {| KEYWORDSEQNO := lit "0";
        KEYWORDPAGE := lit "1";
        KEYWORDRECT := rect0;
        KEYWORDRECTORI := rect0;
        KEYWORDSITE := lit "0";
        KEYWORDLEN := lit "0";
        KEYWORD := [];
        keyword_bitmapBuffer := bitmapBuffer |}.

Definition title_defaults : ITitle :=
  [ (lit "TITLESEQNO", FStr (lit "0"));
    (lit "TITLELEVEL", FStr (lit "1"));
    (lit "TITLERECT", FArr rect0);
    (lit "TITLERECTORI", FArr rect0);
    (lit "TITLEBITMAP", FStr (lit "0"));
    (lit "TITLEPROTOCOL", FStr (lit "RATTA_RLE"));
    (lit "TITLESTYLE", FStr (lit "1000254")) ].

Definition _parseTitle (this : SupernoteX) (b : buffer) (address : number)
  : outcome ITitle :=
  data <- parseKeyValue b address (lengthFieldSize this) ;;
  bitmapBuffer <-
    getContentAtAddress b (address_field data "TITLEBITMAP") (lengthFieldSize this) ;;
  Ok (define (lit "bitmapBuffer") (FBuf bitmapBuffer)
        (spread (fields_of data) title_defaults)).

(** The callback of [forEach] in [_parseKeywords] and [_parseTitles].  The
    groups of the footer hold strings only, so the branch for an array of
    addresses is never taken.  The entry is parsed before [push] is called;
    on an inherited [key] the list was not created and [push] is not a
    function. *)
Definition collect {E : Type} (parse : number -> outcome E) (acc : obj (list E))
  (entry : jsstring * jsstring) : outcome (obj (list E)) :=
  let (key, v) := entry in
  let acc := if js_in key acc then acc else define key [] acc in
  e <- parse (parseInt v) ;;
  match get_own key acc with
  | Some l => Ok (update key (l ++ [e]) acc)
  | None => Abort TypeError
  end.

Definition _parseKeywords (r : realm) (this : SupernoteX) (b : buffer)
  : outcome SupernoteX :=
  f <- defined (footer this) ;;
  group <- defined (get_own (lit "KEYWORD") f) ;;
  _ <- call "entries" r ;;
  keywords <- foldM (collect (_parseKeyword this b)) group [] ;;
  Ok (set_keywords keywords this).

Definition _parseTitles (r : realm) (this : SupernoteX) (b : buffer)
  : outcome SupernoteX :=
  f <- defined (footer this) ;;
  group <- defined (get_own (lit "TITLE") f) ;;
  _ <- call "entries" r ;;
  titles <- foldM (collect (_parseTitle this b)) group [] ;;
  Ok (set_titles titles this).

Definition _parseBuffer (this : SupernoteX) (b : buffer) : outcome SupernoteX :=
  this <- _parseSignature this b ;;
  state <- _parseFooter_at this b ;;
  let (this, r) := state in
  this <- _parseHeader this b ;;
  this <- _parsePages r this b ;;
  this <- _parseCover this b ;;
  this <- _parseKeywords r this b ;;
  this <- _parseTitles r this b ;;
  Ok this.

(** [new SupernoteX(buffer)]: the constants are assigned, then the buffer is
    parsed. *)
Definition blank : SupernoteX :=
  {| pageWidth := 1404;
     pageHeight := 1872;
     addressSize := 4;
     lengthFieldSize := 4;
     defaultLayers :=
       [lit "MAINLAYER"; lit "LAYER1"; lit "LAYER2"; lit "LAYER3"; lit "BGLAYER"];
     signature := None;
     footer := None;
     header := None;
     pages := None;
     cover := None;
     keywords := None;
     titles := None |}.

Definition constructor (b : buffer) : outcome SupernoteX :=
  _parseBuffer blank b.

(** ** Notions used by the properties *)

(** *** [extractKeyValue] *)

(** What the specification says of the result of [extractKeyValue], in terms
    of the matches: the values matched for a key, in the order of the text,
    and the way they are to be stored. *)
Definition values_of (K : jsstring) (pairs : list (jsstring * jsstring))
  : list jsstring :=
  map snd (filter (fun p => str_eqb (fst p) K) pairs).

Definition stored (vs : list jsstring) : option value :=
  match vs with
  | [] => None
  | [v] => Some (VStr v)
  | _ :: _ :: _ => Some (VArr vs)
  end.

(** The invariant of the [reduce]: the accumulator stores, for every key,
    the values matched so far, and owns no inherited key. *)
Definition accumulated (done : list (jsstring * jsstring)) (acc : record) : Prop :=
  (forall K, get_own K acc = stored (values_of K done)) /\
  (forall K, inherited K = true -> get_own K acc = None).

(** *** [extractNestedKeyValue] *)

(** The split as the specification words it: the group is what precedes the
    first occurrence of the delimiter, the sub-key what follows that
    occurrence; without an occurrence, the first known prefix of the key is
    the group and the rest of the key the sub-key. *)
Definition split_key (key delimiter : jsstring) (prefixes : list jsstring)
  : option jsstring * option jsstring :=
  match indexOf key delimiter with
  | Some idx =>
      (Some (firstn idx key), Some (skipn (idx + List.length delimiter) key))
  | None => first_prefix key prefixes
  end.

(** No group of the output has an empty name or an empty sub-key, and no
    group is empty. *)
Definition no_empty_names (data : nested) : Prop :=
  forall main group, In (main, group) data ->
    main <> [] /\ group <> [] /\ forall sub v, In (sub, v) group -> sub <> [].

(** The keys the grouping drops by the emptiness test: a key that begins with
    the delimiter; a key that ends with the first occurrence of a
    one-character delimiter; a key in which the delimiter occurs and whose
    [main] or [sub] is empty; a key without the delimiter that is the first
    known prefix it starts with. *)
Definition dropped (key delimiter : jsstring) (prefixes : list jsstring) : Prop :=
  startsWith key delimiter = true \/
  (exists c before, delimiter = [c] /\ key = before ++ [c] /\ ~ In c before) \/
  (exists idx, indexOf key delimiter = Some idx /\
     (substring_to key idx = [] \/ substring_from key (idx + 1) = [])) \/
  (indexOf key delimiter = None /\ fst (first_prefix key prefixes) = Some key).

(** *** [extractLayerInfo] *)

(** A LAYERINFO text as a sequence of brace-delimited groups: every group
    stands between braces, after a separator, and the text ends with [tail].
    In a well-formed sequence the separators, the interiors and the tail
    hold no brace and no interior is empty. *)
Fixpoint layer_text (groups : list (jsstring * jsstring)) (tail : jsstring)
  : jsstring :=
  match groups with
  | [] => tail
  | (separator, interior) :: groups' =>
      separator ++ 123 :: interior ++ 125 :: layer_text groups' tail
  end.

Definition layer_sequence (groups : list (jsstring * jsstring)) (tail : jsstring)
  : Prop :=
  forallb brace_free tail = true /\
  forall separator interior, In (separator, interior) groups ->
    forallb brace_free separator = true /\
    forallb brace_free interior = true /\ interior <> [].

(** The raw value of a field in a group: the value of the last pair of the
    group whose key is that field. *)
Fixpoint raw_value (f : jsstring) (pairs : list (jsstring * jsstring))
  : option jsstring :=
  match pairs with
  | [] => None
  | (k, v) :: rest =>
      match raw_value f rest with
      | Some w => Some w
      | None => if str_eqb k f then Some v else None
      end
  end.

Definition raw_field (f : string) (group : jsstring) : option jsstring :=
  raw_value (lit f) (matchAll dict_here group).

(** *** The document *)

(** The text matches the signature pattern: it starts with the magic word
    followed by eight digits. *)
Definition matches_signature (s : jsstring) : Prop :=
  exists ds rest,
    s = lit "noteSN_FILE_VER_" ++ ds ++ rest /\
    List.length ds = 8%nat /\ forallb is_digit ds = true.

(** An outcome other than the signature error. *)
Definition past_signature {A : Type} (m : outcome A) : Prop :=
  m <> Abort SignatureMismatch.

(** Every stage of [_parseBuffer] that always assigns its field has done
    so. *)
Definition populated (d : SupernoteX) : Prop :=
  signature d <> None /\ footer d <> None /\ header d <> None /\
  pages d <> None /\ keywords d <> None /\ titles d <> None.

(** [o] is [data] laid over [defaults]: outside the keys of [except], a key
    of the text has the value of the text and any other key its default. *)
Definition merged {V : Type} (inj : value -> V) (defaults : obj V) (data : record)
  (except : list jsstring) (o : obj V) : Prop :=
  forall k, ~ In k except ->
    get_own k o
    = match get_own k data with
      | Some v => Some (inj v)
      | None => get_own k defaults
      end.

Definition footer_filled (this : SupernoteX) (b : buffer) (f : IFooter) : Prop :=
  exists address data groups,
    readUIntLE (subarray b (Int (buf_length b - addressSize this)) (Int (buf_length b)))
      (Int 0) (addressSize this) = Ok address /\
    parseKeyValue b (Int address) (lengthFieldSize this) = Ok data /\
    extractNestedKeyValue data (lit "_") [lit "PAGE"] = Ok groups /\
    forall g,
      get_own g f
      = match get_own g groups with
        | Some group => Some group
        | None => get_own g footer_defaults
        end.

Definition header_filled (this : SupernoteX) (b : buffer) (f : IFooter) (h : IHeader)
  : Prop :=
  exists data,
    parseKeyValue b (header_address f) (lengthFieldSize this) = Ok data /\
    merged (fun v => v) header_defaults data [] h.

Definition entry_filled (defaults : obj field) (bitmap_key : string)
  (this : SupernoteX) (b : buffer) (address : number) (o : obj field) : Prop :=
  exists data bitmap,
    parseKeyValue b address (lengthFieldSize this) = Ok data /\
    getContentAtAddress b (address_field data bitmap_key) (lengthFieldSize this)
    = Ok bitmap /\
    merged of_value defaults data [lit "bitmapBuffer"] o /\
    get_own (lit "bitmapBuffer") o = Some (FBuf bitmap).

Definition layer_filled : SupernoteX -> buffer -> number -> ILayer -> Prop :=
  entry_filled layer_defaults "LAYERBITMAP".

Definition title_filled : SupernoteX -> buffer -> number -> ITitle -> Prop :=
  entry_filled title_defaults "TITLEBITMAP".

Definition keyword_default (kw : IKeyword) : Prop :=
  KEYWORDSEQNO kw = lit "0" /\ KEYWORDPAGE kw = lit "1" /\
  KEYWORDRECT kw = rect0 /\ KEYWORDRECTORI kw = rect0 /\
  KEYWORDSITE kw = lit "0" /\ KEYWORDLEN kw = lit "0" /\ KEYWORD kw = [].

(** The keys of a page that the literal assigns after the spread. *)
Definition page_slots : list jsstring :=
  map lit [ "MAINLAYER"; "LAYER1"; "LAYER2"; "LAYER3"; "BGLAYER"; "LAYERINFO";
            "LAYERSEQ"; "totalPathBuffer" ]%string.

Definition page_filled (this : SupernoteX) (b : buffer) (address : number)
  (page : IPage) : Prop :=
  exists data,
    parseKeyValue b address (lengthFieldSize this) = Ok data /\
    merged PVal page_defaults data page_slots page /\
    (forall slot, In slot ["MAINLAYER"; "LAYER1"; "LAYER2"; "LAYER3"; "BGLAYER"]%string ->
       exists layer,
         get_own (lit slot) page = Some (PLayer layer) /\
         layer_filled this b (address_field data slot) layer) /\
    exists path, get_own (lit "totalPathBuffer") page = Some (PBuf path).

(** ** Sample texts and files *)

Definition byte_of (z : Z) : byte :=
  match Byte.of_N (Z.to_N (z mod 256)) with
  | Some x => x
  | None => x00
  end.

(** The bytes of an ASCII text. *)
Definition ascii_bytes (s : jsstring) : buffer := map byte_of s.

Definition uint32 (n : Z) : buffer :=
  [byte_of n; byte_of (n / 256); byte_of (n / 65536); byte_of (n / 16777216)].

(** A block: a 4-byte length and the text. *)
Definition block (text : jsstring) : buffer :=
  uint32 (Z.of_nat (List.length text)) ++ ascii_bytes text.

Definition magic : jsstring := lit "noteSN_FILE_VER_20230101".

(** A file: the signature, an empty header block at address 24, the given
    blocks from address 28 on, the footer block and the address of the footer
    block. *)
Definition file (blocks : list jsstring) (footer_text : jsstring) : buffer :=
  let body := ascii_bytes magic ++ block [] ++ flat_map block blocks in
  body ++ block footer_text ++ uint32 (Z.of_nat (List.length body)).

Definition quoted (s : string) : jsstring := 34 :: lit s ++ [34].

Definition pair_text (k v : string) : jsstring := quoted k ++ 35 :: quoted v.

(** The LAYERINFO text of the specification: one group with [layerId] 1,
    [name] Background and [isVisible] true, every value between double
    quotes. *)
Definition scenario_group : jsstring :=
  pair_text "layerId" "1" ++ 44 :: pair_text "name" "Background"
    ++ 44 :: pair_text "isVisible" "true".

Definition layerinfo_scenario : jsstring := 123 :: scenario_group ++ [125].

(** A signature that lacks its last digit. *)
Definition short_signature : buffer := ascii_bytes (lit "noteSN_FILE_VER_2023010").

(** The signature and nothing else. *)
Definition signature_only : buffer := ascii_bytes magic.

(** One block at address 28, named both as a keyword and as a title. *)
Definition keyword_file : buffer :=
  file [lit "<KEYWORDPAGE:5><TITLELEVEL:2>"] (lit "<KEYWORD_k:28><TITLE_t:28>").

(** A footer with a FILE group that has no FEATURE. *)
Definition feature_file : buffer := file [] (lit "<FILE_TYPE:NOTE>").

(** One page at address 28, with its layer information and sequence. *)
Definition page_file : buffer :=
  file [lit "<PAGESTYLE:style_white><LAYERINFO:" ++ layerinfo_scenario
          ++ lit "><LAYERSEQ:MAINLAYER,BGLAYER>"]
       (lit "<PAGE1:28><COVER_0:0>").

(** One page at address 28 that has neither LAYERINFO nor LAYERSEQ. *)
Definition bare_page_file : buffer :=
  file [lit "<PAGESTYLE:style_white>"] (lit "<PAGE1:28>").

(** The footer of [feature_file], and the object after the footer stage. *)
Definition feature_footer : IFooter :=
  spread [(lit "FILE", [(lit "TYPE", lit "NOTE")])] footer_defaults.

Definition with_footer : SupernoteX := set_footer feature_footer blank.

(** A layer at address 0: the defaults and no bitmap. *)
Definition absent_layer : ILayer :=
  define (lit "bitmapBuffer") (FBuf None) layer_defaults.

(** ** Notions used by the further properties *)

From Stdlib Require Import Sorting.Permutation.
From Stdlib Require Sorting.Sorted.

(** A tag [<key:value>]. *)
Definition tag (key v : jsstring) : jsstring := 60 :: key ++ 58 :: v ++ [62].

(** A tagged text: every tag follows a filler, and the text ends with
    [tail]. *)
Fixpoint tag_text (items : list (jsstring * (jsstring * jsstring)))
  (tail : jsstring) : jsstring :=
  match items with
  | [] => tail
  | (filler, (key, v)) :: items' => filler ++ tag key v ++ tag_text items' tail
  end.

(** A text without [<]. *)
Definition no_open (s : jsstring) : bool := forallb (fun c => negb (c =? 60)) s.

(** A key or a value of a tag: not empty and without [<], [>] and [:]. *)
Definition word (s : jsstring) : Prop := s <> [] /\ forallb tag_char s = true.

Definition tag_sequence (items : list (jsstring * (jsstring * jsstring)))
  (tail : jsstring) : Prop :=
  no_open tail = true /\
  forall filler key v, In (filler, (key, v)) items ->
    no_open filler = true /\ word key /\ word v.

(** [data[main]?.[sub]] on own properties. *)
Definition lookup2 (main sub : jsstring) (data : nested) : option jsstring :=
  match get_own main data with
  | Some group => get_own sub group
  | None => None
  end.

(** The callback of [extractNestedKeyValue] files [key] under [main] and
    [sub]. *)
Definition splits_to (delimiter : jsstring) (prefixes : list jsstring)
  (key main sub : jsstring) : bool :=
  match main_sub key delimiter prefixes with
  | (Some m, Some s) => truthy m && truthy s && str_eqb m main && str_eqb s sub
  | _ => false
  end.

(** The value of the last string entry of the flat record that is filed
    under [main] and [sub]. *)
Fixpoint grouped_value (delimiter : jsstring) (prefixes : list jsstring)
  (main sub : jsstring) (rec : record) : option jsstring :=
  match rec with
  | [] => None
  | (key, v) :: rest =>
      match grouped_value delimiter prefixes main sub rest with
      | Some w => Some w
      | None =>
          match v with
          | VStr s => if splits_to delimiter prefixes key main sub then Some s else None
          | VArr _ => None
          end
      end
  end.

(** The first 24 bytes are the ASCII characters of the magic word and of
    eight digits. *)
Definition signature_bytes (b : buffer) : Prop :=
  exists ds,
    List.length ds = 8%nat /\ forallb is_digit ds = true /\
    map byte_val (firstn 24 b) = lit "noteSN_FILE_VER_" ++ ds.

(** A decoder state from which every code point that can still be completed
    is at least 128. *)
Definition pending_ok (needed cp lower upper : Z) : Prop :=
  0 <= cp /\ 128 <= lower /\ upper <= 191 /\
  ((needed = 1 /\ 128 <= cp * 64 + (lower - 128)) \/
   (needed = 2 /\ 2 <= cp * 64 + (lower - 128)) \/
   (needed = 3 /\ 1 <= cp * 64 + (lower - 128))).

(** The cover that [_parseCover] leaves for the COVER group of the footer. *)
Definition cover_of (b : buffer) (group : obj jsstring) (c : option ICover) : Prop :=
  if positive (cover_address group) then
    exists content,
      getContentAtAddress b (cover_address group) 4 = Ok (Some content) /\
      c = Some (mkCover (Some content))
  else c = None.

(** The document [d] is what the stages of [_parseBuffer] compute from [b],
    one after the other, starting from [blank]. *)
Definition assembled (b : buffer) (d : SupernoteX) : Prop :=
  exists f h ps ks ts pageGroup coverGroup keywordGroup titleGroup,
    signature d = Some (toString_range b 0 24) /\
    (pageWidth d, pageHeight d, addressSize d, lengthFieldSize d, defaultLayers d)
    = (pageWidth blank, pageHeight blank, addressSize blank, lengthFieldSize blank,
       defaultLayers blank) /\
    footer d = Some f /\ header d = Some h /\ pages d = Some ps /\
    keywords d = Some ks /\ titles d = Some ts /\
    footer_filled blank b f /\
    header_filled blank b f h /\
    get_own (lit "PAGE") f = Some pageGroup /\
    mapM (parsePage blank b pageGroup) (sort (keys pageGroup)) = Ok ps /\
    get_own (lit "COVER") f = Some coverGroup /\
    cover_of b coverGroup (cover d) /\
    get_own (lit "KEYWORD") f = Some keywordGroup /\
    foldM (collect (_parseKeyword blank b)) keywordGroup [] = Ok ks /\
    get_own (lit "TITLE") f = Some titleGroup /\
    foldM (collect (_parseTitle blank b)) titleGroup [] = Ok ts.


(** The entry that [_parseKeywords] or [_parseTitles] files under every key
    of a footer group: one entry per key, parsed at the address of the key. *)
Definition one_entry_each {E : Type} (parse : number -> outcome E)
  (group : obj jsstring) (out : obj (list E)) : Prop :=
  forall key,
    match get_own key group with
    | Some v => exists e, parse (parseInt v) = Ok e /\ get_own key out = Some [e]
    | None => get_own key out = None
    end.

(** A buffer stored in the document for an address: what
    [getContentAtAddress] gives there, [null] for the address 0 only and
    otherwise a part of the file. *)
Definition stored_at (b : buffer) (address : number) (w : Z)
  (stored : option buffer) : Prop :=
  getContentAtAddress b address w = Ok stored /\
  (stored = None <-> address = Int 0) /\
  forall content, stored = Some content ->
    exists before after, b = before ++ content ++ after.

(** One block at address 28 that names itself as its bitmap. *)
Definition bitmap_text : jsstring := lit "<LAYERBITMAP:28><KEYWORDSITE:28>".

Definition bitmap_file : buffer := file [bitmap_text] (lit "<KEYWORD_k:28>").

(** A field of a layer group as it is written: ["key"#"value"], or
    ["key"#value] when the value stands without quotes. *)
Definition field_text (quotes : bool) (key v : jsstring) : jsstring :=
  34 :: key ++ 34 :: 35 :: (if quotes then 34 :: v ++ [34] else v).

(** The text of a group: every field follows a separator, and the text ends
    with [tail]. *)
Fixpoint fields_text (items : list (jsstring * (bool * (jsstring * jsstring))))
  (tail : jsstring) : jsstring :=
  match items with
  | [] => tail
  | (separator, (quotes, (key, v))) :: items' =>
      separator ++ field_text quotes key v ++ fields_text items' tail
  end.

(** A text without a double quote. *)
Definition no_quote (s : jsstring) : bool := forallb (fun c => negb (c =? 34)) s.

(** A value without quotes ends where the text ends or at a character that a
    value cannot hold (a comma, a double quote, a bracket or a brace). *)
Definition value_ends (s : jsstring) : bool :=
  match s with
  | [] => true
  | c :: _ => negb (dict_value_char c)
  end.

(** A well-formed group: the separators and the tail hold no double quote;
    a key is not empty, holds key characters only and does not start with a
    hash; a value is not empty and holds value characters only; a value
    without quotes ends there. *)
Fixpoint fields_sequence (items : list (jsstring * (bool * (jsstring * jsstring))))
  (tail : jsstring) : Prop :=
  match items with
  | [] => no_quote tail = true
  | (separator, (quotes, (key, v))) :: items' =>
      no_quote separator = true /\
      key <> [] /\ forallb dict_key_char key = true /\ hd 0 key <> 35 /\
      v <> [] /\ forallb dict_value_char v = true /\
      (quotes = false -> value_ends (fields_text items' tail) = true) /\
      fields_sequence items' tail
  end.

Definition written_fields (items : list (jsstring * (bool * (jsstring * jsstring))))
  : list (jsstring * jsstring) :=
  map (fun item => snd (snd item)) items.

(** The pair pattern cannot match at a double quote that is followed by
    [rest]: the text that follows the run of key characters is not a double
    quote and a hash. *)
Definition closes (rest : jsstring) : bool :=
  match snd (span dict_key_char rest) with
  | c2 :: c3 :: _ => negb ((c2 =? 34) && (c3 =? 35))
  | _ => true
  end.

(** A group of a device: a number and a flag without quotes, a name between
    quotes. *)
Definition device_group : jsstring :=
  quoted "layerId" ++ 35 :: lit "3," ++ pair_text "name" "Layer 3"
    ++ 44 :: quoted "isVisible" ++ 35 :: lit "true".

(** *** Defaults *)

(** A field that names a block asks for something only when it is present
    in the text: the block it names must then be readable. *)
Definition readable (b : buffer) (w : Z) (data : record) (key : string) : Prop :=
  forall v, get_own (lit key) data = Some v ->
    exists content, getContentAtAddress b (parseInt (value_string v)) w = Ok content.

Definition readable_layer (this : SupernoteX) (b : buffer) (data : record)
  (slot : string) : Prop :=
  forall v, get_own (lit slot) data = Some v ->
    exists layer, _parseLayer this b (parseInt (value_string v)) = Ok layer.

(** A field of a keyword that is absent from the text of its block has its
    default. *)
Definition keyword_absent (data : record) (kw : IKeyword) : Prop :=
  (get_own (lit "KEYWORDSEQNO") data = None -> KEYWORDSEQNO kw = lit "0") /\
  (get_own (lit "KEYWORDPAGE") data = None -> KEYWORDPAGE kw = lit "1") /\
  (get_own (lit "KEYWORDRECT") data = None -> KEYWORDRECT kw = rect0) /\
  (get_own (lit "KEYWORDRECTORI") data = None -> KEYWORDRECTORI kw = rect0) /\
  (get_own (lit "KEYWORDSITE") data = None -> KEYWORDSITE kw = lit "0") /\
  (get_own (lit "KEYWORDLEN") data = None -> KEYWORDLEN kw = lit "0") /\
  (get_own (lit "KEYWORD") data = None -> KEYWORD kw = []).

(** *** Layer records *)

(** The raw value of a name among the fields written in a group: the value
    of the last field written under that name. *)
Definition written (fields : list (jsstring * jsstring)) (f : string)
  : option jsstring :=
  raw_value (lit f) fields.

(** The record of a group reads the fields written in the group: without a
    raw value the identifier is 0 and the name "Main layer"; a flag is true
    exactly when its raw value is the string "true". *)
Definition layer_reads (fields : list (jsstring * jsstring)) (info : ILayerInfo)
  : Prop :=
  (written fields "layerId" = None -> layerId info = Int 0) /\
  (forall v, written fields "layerId" = Some v -> layerId info = parseInt v) /\
  (written fields "name" = None -> name info = lit "Main layer") /\
  (forall v, written fields "name" = Some v -> name info = v) /\
  (isBackgroundLayer info = true <->
     written fields "isBackgroundLayer" = Some (lit "true")) /\
  (isAllowAdd info = true <-> written fields "isAllowAdd" = Some (lit "true")) /\
  (isCurrentLayer info = true <->
     written fields "isCurrentLayer" = Some (lit "true")) /\
  (isVisible info = true <-> written fields "isVisible" = Some (lit "true")) /\
  (isDeleted info = true <-> written fields "isDeleted" = Some (lit "true")) /\
  (isAllowUp info = true <-> written fields "isAllowUp" = Some (lit "true")) /\
  (isAllowDown info = true <-> written fields "isAllowDown" = Some (lit "true")).

(** Two groups: the one of the specification, every value between quotes,
    and one of a device. *)
Definition two_groups : jsstring :=
  layer_text [([], scenario_group); (lit ",", device_group)] [].

(** *** Built-in names in a footer *)

(** A footer that files a key under [constructor]. *)
Definition builtin_file : buffer := file [] (lit "<constructor_x:1><FILE_TYPE:NOTE>").

(** A footer whose key replaces [Object.keys], and one whose key names a
    read-only property of [Object]. *)
Definition keys_file : buffer := file [] (lit "<constructor_keys:1>").

Definition name_file : buffer := file [] (lit "<constructor_name:1>").

(** * Properties *)

(** ** The outcome monad *)

Lemma bind_Ok {A B : Type} (m : outcome A) (k : A -> outcome B) (r : B) :
  bind m k = Ok r -> exists a, m = Ok a /\ k a = Ok r.
Proof.
  destruct m as [a|e]; simpl; intros H.
  - exists a. split; [reflexivity | exact H].
  - discriminate H.
Qed.

(** ** Buffers *)

Lemma byte_val_range (x : byte) : 0 <= byte_val x < 256.
Proof.
  unfold byte_val. pose proof (Byte.to_N_bounded x) as H. lia.
Qed.

Lemma le_value_nonneg (bs : list byte) : 0 <= le_value bs.
Proof.
  induction bs as [|x bs IH]; cbn [le_value]; [lia|].
  pose proof (byte_val_range x). lia.
Qed.

(** Inside the buffer [subarray] is the plain slice. *)
Lemma subarray_slice (b : buffer) (s n : Z) :
  0 <= s <= buf_length b -> 0 <= n ->
  subarray b (Int s) (Int (s + n)) = firstn (Z.to_nat n) (skipn (Z.to_nat s) b).
Proof.
  intros Hs Hn. unfold subarray, clamp, clamp_index.
  destruct (Z.ltb_spec s 0) as [?|_]; [lia|].
  destruct (Z.ltb_spec (s + n) 0) as [?|_]; [lia|].
  rewrite (Z.min_l s) by lia.
  destruct (Z.le_gt_cases (s + n) (buf_length b)) as [Hle|Hgt].
  - rewrite Z.min_l by lia. f_equal. lia.
  - rewrite Z.min_r by lia.
    rewrite !firstn_all2; try reflexivity;
      rewrite length_skipn; unfold buf_length in *; lia.
Qed.

Lemma readUIntLE_inside (b : buffer) (a w : Z) :
  1 <= w <= 6 -> 0 <= a -> a + w <= buf_length b ->
  readUIntLE b (Int a) w = Ok (length_field b a w).
Proof.
  intros Hw Ha Hin. unfold readUIntLE.
  destruct (Z.leb_spec 1 w); [|lia].
  destruct (Z.leb_spec w 6); [|lia].
  destruct (Z.leb_spec 0 a); [|lia].
  destruct (Z.leb_spec (a + w) (buf_length b)); [|lia].
  reflexivity.
Qed.

Lemma getContentAtAddress_inside (b : buffer) (a w : Z) :
  1 <= w <= 6 -> 0 < a -> a + w <= buf_length b ->
  getContentAtAddress b (Int a) w
  = Ok (Some (firstn (Z.to_nat (length_field b a w)) (skipn (Z.to_nat (a + w)) b))).
Proof.
  intros Hw Ha Hin. unfold getContentAtAddress.
  replace (is_zero (Int a)) with false by (destruct a; simpl; try reflexivity; lia).
  rewrite readUIntLE_inside by lia. cbn [bind plus].
  replace (a + (w + length_field b a w)) with (a + w + length_field b a w) by lia.
  rewrite subarray_slice; [reflexivity | lia |].
  apply le_value_nonneg.
Qed.

Lemma length_field_nonneg (b : buffer) (a w : Z) : 0 <= length_field b a w.
Proof. apply le_value_nonneg. Qed.

(** ** C2 and C9: [getContentAtAddress] *)

(** C2, as amended: address 0 gives [null] whatever the width; for a width
    between 1 and 6, the widths [readUIntLE] accepts, and a positive address
    whose length field and content lie within the buffer, the result is
    exactly the [n] bytes that follow the length field, [n] being the
    little-endian value of the field. *)
Theorem getContentAtAddress_block (b : buffer) (a w : Z) :
  getContentAtAddress b (Int 0) w = Ok None /\
  (1 <= w <= 6 ->
   0 < a ->
   a + w + length_field b a w <= buf_length b ->
   exists content,
     getContentAtAddress b (Int a) w = Ok (Some content) /\
     content = firstn (Z.to_nat (length_field b a w)) (skipn (Z.to_nat (a + w)) b) /\
     buf_length content = length_field b a w).
Proof.
  split; [reflexivity|]. intros Hw Ha Hin.
  pose proof (length_field_nonneg b a w) as Hn.
  eexists. split; [apply getContentAtAddress_inside; lia|].
  split; [reflexivity|].
  unfold buf_length in *. rewrite length_firstn, length_skipn. lia.
Qed.

Lemma getContentAtAddress_block_witness :
  let b := [x00; x02; x00; x41; x42; x43] in
  getContentAtAddress b (Int 0) 2 = Ok None /\
  exists content,
    getContentAtAddress b (Int 1) 2 = Ok (Some content) /\
    content = [x41; x42] /\
    buf_length content = 2.
Proof.
  destruct (getContentAtAddress_block [x00; x02; x00; x41; x42; x43] 1 2)
    as [Hzero Hblock].
  split; [exact Hzero|].
  apply Hblock; vm_compute; intuition discriminate.
Defined.

(** C2 as stated fails on a width that [readUIntLE] rejects: at address 1 of
    sixteen zero bytes an 8-byte length field (value 0) and its empty content
    lie within the buffer, yet the call throws. *)
Lemma getContentAtAddress_width_8 :
  let b := repeat x00 16 in
  1 + 8 + length_field b 1 8 <= buf_length b /\
  getContentAtAddress b (Int 1) 8 = Abort RangeError /\
  ~ (exists content, getContentAtAddress b (Int 1) 8 = Ok (Some content)).
Proof.
  cbv zeta. split; [vm_compute; discriminate|].
  split; [reflexivity|].
  intros [content H]. vm_compute in H. discriminate H.
Qed.

(** C9, as amended: for a width between 1 and 6 and a positive address
    whose length field lies within the buffer, the call does not throw; when
    the length field announces more bytes than the buffer holds, the result is
    all the bytes after the length field, fewer than announced. *)
Theorem getContentAtAddress_truncates (b : buffer) (a w : Z) :
  1 <= w <= 6 ->
  0 < a ->
  a + w <= buf_length b ->
  exists content,
    getContentAtAddress b (Int a) w = Ok (Some content) /\
    (buf_length b < a + w + length_field b a w ->
     content = skipn (Z.to_nat (a + w)) b /\
     buf_length content = buf_length b - (a + w) /\
     buf_length content < length_field b a w).
Proof.
  intros Hw Ha Hin.
  eexists. split; [apply getContentAtAddress_inside; lia|].
  intros Hover.
  assert (Hall : firstn (Z.to_nat (length_field b a w)) (skipn (Z.to_nat (a + w)) b)
                 = skipn (Z.to_nat (a + w)) b).
  { apply firstn_all2. rewrite length_skipn. unfold buf_length in *. lia. }
  rewrite Hall. split; [reflexivity|].
  unfold buf_length in *. rewrite length_skipn. lia.
Qed.

Lemma getContentAtAddress_truncates_witness :
  let b := [x00; x09; x41; x42] in
  length_field b 1 1 = 9 /\
  exists content,
    getContentAtAddress b (Int 1) 1 = Ok (Some content) /\
    content = [x41; x42] /\
    buf_length content = 2.
Proof.
  cbv zeta. split; [reflexivity|].
  destruct (getContentAtAddress_truncates [x00; x09; x41; x42] 1 1)
    as (content & Hrun & Hshort); [lia | lia | vm_compute; discriminate |].
  exists content. split; [exact Hrun|].
  destruct Hshort as (Hcontent & Hlength & _); [vm_compute; reflexivity|].
  split; [exact Hcontent | exact Hlength].
Defined.

(** C9 as stated fails on a negative address: the address -1 is not zero and
    [-1 + 4] does not exceed the length of an 8-byte buffer, but the read of
    the length field is out of range. *)
Lemma getContentAtAddress_negative_address :
  let b := repeat x00 8 in
  -1 <> 0 /\ -1 + 4 <= buf_length b /\
  getContentAtAddress b (Int (-1)) 4 = Abort RangeError.
Proof.
  cbv zeta. split; [lia|]. split; [vm_compute; discriminate | reflexivity].
Qed.

(** ** Strings *)

Lemma str_eqb_eq (s t : jsstring) : str_eqb s t = true <-> s = t.
Proof.
  revert t. induction s as [|c s IH]; intros [|d t]; simpl; split; intros H;
    try reflexivity; try discriminate.
  - apply andb_true_iff in H. destruct H as [Hc Hs].
    apply Z.eqb_eq in Hc. apply IH in Hs. congruence.
  - injection H as -> ->. rewrite Z.eqb_refl. simpl. apply IH. reflexivity.
Qed.

Lemma str_eqb_refl (s : jsstring) : str_eqb s s = true.
Proof. apply str_eqb_eq. reflexivity. Qed.

Lemma str_eqb_neq (s t : jsstring) : str_eqb s t = false <-> s <> t.
Proof.
  split.
  - intros H E. apply str_eqb_eq in E. congruence.
  - intros H. destruct (str_eqb s t) eqn:E; [|reflexivity].
    apply str_eqb_eq in E. contradiction.
Qed.

Lemma str_eqb_sym (s t : jsstring) : str_eqb s t = str_eqb t s.
Proof.
  destruct (str_eqb s t) eqn:E.
  - apply str_eqb_eq in E. subst. symmetry. apply str_eqb_refl.
  - symmetry. apply str_eqb_neq. apply str_eqb_neq in E. congruence.
Qed.

Lemma startsWith_app (s p : jsstring) :
  startsWith s p = true <-> exists rest, s = p ++ rest.
Proof.
  revert s. induction p as [|d p IH]; intros s; simpl.
  - destruct s; split; eauto.
  - destruct s as [|c s]; split.
    + discriminate.
    + intros [rest H]. discriminate.
    + intros H. apply andb_true_iff in H. destruct H as [Hc Hs].
      apply Z.eqb_eq in Hc. apply IH in Hs. destruct Hs as [rest ->].
      exists rest. now subst.
    + intros [rest H]. injection H as -> ->. cbn [startsWith].
      rewrite Z.eqb_refl. simpl. apply IH. eauto.
Qed.

(** ** Objects *)

Section Objects.
Context {V : Type}.
Implicit Types (o : obj V) (k : jsstring) (v : V).

Lemma has_own_false o k : has_own k o = false <-> get_own k o = None.
Proof.
  unfold has_own. destruct (get_own k o); split; congruence.
Qed.

Lemma get_own_app o1 o2 k :
  get_own k (o1 ++ o2)
  = match get_own k o1 with Some v => Some v | None => get_own k o2 end.
Proof.
  induction o1 as [|[k' v'] o1 IH]; simpl; [reflexivity|].
  destruct (str_eqb k' k); [reflexivity | exact IH].
Qed.

Lemma get_own_update o k k' v :
  get_own k (update k' v o)
  = if str_eqb k' k then (if has_own k' o then Some v else None) else get_own k o.
Proof.
  induction o as [|[k0 v0] o IH]; simpl.
  - destruct (str_eqb k' k); reflexivity.
  - unfold has_own in *. simpl.
    destruct (str_eqb k0 k') eqn:E0.
    + apply str_eqb_eq in E0. subst k0. simpl.
      destruct (str_eqb k' k); reflexivity.
    + simpl. destruct (str_eqb k0 k) eqn:E1.
      * apply str_eqb_eq in E1. subst k0.
        rewrite str_eqb_sym, E0. reflexivity.
      * exact IH.
Qed.

Lemma get_own_insert_index o k k' v n :
  get_own k' o = None ->
  get_own k (insert_index n k' v o) = if str_eqb k' k then Some v else get_own k o.
Proof.
  induction o as [|[k0 v0] o IH]; simpl; intros Hnew.
  - reflexivity.
  - destruct (str_eqb k0 k') eqn:E0; [discriminate|].
    destruct (array_index k0) as [m|].
    + destruct (n <? m); simpl.
      * reflexivity.
      * destruct (str_eqb k0 k) eqn:E1.
        -- apply str_eqb_eq in E1. subst k0.
           rewrite str_eqb_sym, E0. reflexivity.
        -- apply IH, Hnew.
    + simpl. reflexivity.
Qed.

Lemma get_own_define o k k' v :
  get_own k (define k' v o) = if str_eqb k' k then Some v else get_own k o.
Proof.
  unfold define. destruct (has_own k' o) eqn:Hown.
  - rewrite get_own_update, Hown. reflexivity.
  - apply has_own_false in Hown. destruct (array_index k') as [n|].
    + apply get_own_insert_index, Hown.
    + rewrite get_own_app. simpl.
      destruct (str_eqb k' k) eqn:E.
      * apply str_eqb_eq in E. subst k'. rewrite Hown. reflexivity.
      * destruct (get_own k o); reflexivity.
Qed.

(** An assignment reads back, except for a fresh ["__proto__"]. *)
Lemma get_own_assign o k k' v :
  k <> lit "__proto__" ->
  get_own k (assign k' v o) = if str_eqb k' k then Some v else get_own k o.
Proof.
  intros Hk. unfold assign. destruct (has_own k' o) eqn:Hown.
  - rewrite get_own_update, Hown. reflexivity.
  - destruct (str_eqb k' (lit "__proto__")) eqn:Ep.
    + apply str_eqb_eq in Ep. subst k'.
      replace (str_eqb (lit "__proto__") k) with false; [reflexivity|].
      symmetry. apply str_eqb_neq. congruence.
    + apply get_own_define.
Qed.

Lemma keys_update o k v : keys (update k v o) = keys o.
Proof.
  induction o as [|[k0 v0] o IH]; simpl; [reflexivity|].
  destruct (str_eqb k0 k); simpl; [reflexivity | now rewrite IH].
Qed.

Lemma get_own_None_keys o k : get_own k o = None <-> ~ In k (keys o).
Proof.
  induction o as [|[k0 v0] o IH]; simpl.
  - tauto.
  - destruct (str_eqb k0 k) eqn:E.
    + apply str_eqb_eq in E. split; [discriminate | tauto].
    + apply str_eqb_neq in E. tauto.
Qed.

Lemma get_own_In o k v : get_own k o = Some v -> In (k, v) o.
Proof.
  induction o as [|[k0 v0] o IH]; simpl; [discriminate|].
  destruct (str_eqb k0 k) eqn:E.
  - apply str_eqb_eq in E. intros H. injection H as ->. left. congruence.
  - intros H. right. apply IH, H.
Qed.

Lemma keys_insert_index o k v n :
  forall x, In x (keys (insert_index n k v o)) <-> x = k \/ In x (keys o).
Proof.
  induction o as [|[k0 v0] o IH]; simpl; intros x.
  - intuition.
  - destruct (array_index k0) as [m|]; [destruct (n <? m)|]; simpl;
      try rewrite IH; intuition.
Qed.

Lemma distinct_insert_index o k v n :
  distinct_keys o -> ~ In k (keys o) -> distinct_keys (insert_index n k v o).
Proof.
  unfold distinct_keys.
  induction o as [|[k0 v0] o IH]; simpl; intros Hnd Hnew.
  - constructor; [tauto | constructor].
  - inversion Hnd as [|? ? Hnotin Hnd']; subst.
    destruct (array_index k0) as [m|]; [destruct (n <? m)|]; simpl.
    + constructor; assumption.
    + constructor.
      * rewrite keys_insert_index. intros [->|Hin]; tauto.
      * apply IH; tauto.
    + constructor; assumption.
Qed.

Lemma distinct_define o k v : distinct_keys o -> distinct_keys (define k v o).
Proof.
  intros Hnd. unfold define. destruct (has_own k o) eqn:Hown.
  - unfold distinct_keys. rewrite keys_update. exact Hnd.
  - apply has_own_false, get_own_None_keys in Hown.
    destruct (array_index k) as [n|].
    + apply distinct_insert_index; assumption.
    + unfold distinct_keys in *. unfold keys in *. rewrite map_app. simpl.
      apply NoDup_app; [exact Hnd | constructor; [tauto | constructor] |].
      intros x Hx [<-|[]]. contradiction.
Qed.

(** A spread overrides the properties it names and keeps the others. *)
Lemma get_own_spread (src dst : obj V) k :
  distinct_keys src ->
  get_own k (spread src dst)
  = match get_own k src with Some v => Some v | None => get_own k dst end.
Proof.
  unfold spread, distinct_keys. revert dst.
  induction src as [|[k0 v0] src IH]; simpl; intros dst Hnd; [reflexivity|].
  inversion Hnd as [|? ? Hnotin Hnd']; subst.
  rewrite IH by exact Hnd'. rewrite get_own_define.
  destruct (str_eqb k0 k) eqn:E.
  - apply str_eqb_eq in E. subst k0.
    apply get_own_None_keys in Hnotin. rewrite Hnotin. reflexivity.
  - reflexivity.
Qed.
End Objects.

(** ** Matching *)

Lemma span_app (p : char -> bool) (s : jsstring) :
  s = fst (span p s) ++ snd (span p s).
Proof.
  induction s as [|c s IH]; simpl; [reflexivity|].
  destruct (p c); [|reflexivity].
  destruct (span p s) as [run rest]. simpl in *. congruence.
Qed.

Lemma span_all (p : char -> bool) (s : jsstring) :
  forallb p (fst (span p s)) = true.
Proof.
  induction s as [|c s IH]; simpl; [reflexivity|].
  destruct (p c) eqn:E; [|reflexivity].
  destruct (span p s) as [run rest]. simpl in *. now rewrite E.
Qed.

(** [span] finds a run that is followed by a character outside the class. *)
Lemma span_run (p : char -> bool) (run : jsstring) (c : char) (rest : jsstring) :
  forallb p run = true -> p c = false ->
  span p (run ++ c :: rest) = (run, c :: rest).
Proof.
  intros Hrun Hc. induction run as [|d run IH]; simpl.
  - now rewrite Hc.
  - simpl in Hrun. apply andb_true_iff in Hrun. destruct Hrun as [Hd Hrun].
    rewrite Hd, IH by exact Hrun. reflexivity.
Qed.

(** After a match of length [n] the search resumes [n] characters on. *)
Lemma scan_skip {M : Type} (here : jsstring -> option (M * nat))
  (skipped rest : jsstring) :
  scan here (List.length skipped) (skipped ++ rest) = scan here O rest.
Proof.
  induction skipped as [|c skipped IH]; simpl; [|exact IH].
  destruct rest; reflexivity.
Qed.

Lemma matchAll_hit {M : Type} (here : jsstring -> option (M * nat))
  (c : char) (matched rest : jsstring) (m : M) :
  here (c :: matched ++ rest) = Some (m, S (List.length matched)) ->
  matchAll here (c :: matched ++ rest) = m :: matchAll here rest.
Proof.
  unfold matchAll. intros H. cbn [scan]. rewrite H. cbn [Nat.pred].
  now rewrite scan_skip.
Qed.

Lemma matchAll_miss {M : Type} (here : jsstring -> option (M * nat))
  (c : char) (s : jsstring) :
  here (c :: s) = None -> matchAll here (c :: s) = matchAll here s.
Proof. unfold matchAll. intros H. cbn [scan]. now rewrite H. Qed.

(** The tag pattern matches at the head of [s] exactly when [s] starts with
    [<key:value>], key and value non-empty and free of [<], [>] and [:]. *)
Lemma pair_here_spec (s key v : jsstring) (n : nat) :
  pair_here s = Some ((key, v), n) <->
  key <> [] /\ v <> [] /\
  forallb tag_char key = true /\ forallb tag_char v = true /\
  n = (3 + List.length key + List.length v)%nat /\
  exists rest, s = 60 :: key ++ 58 :: v ++ 62 :: rest.
Proof.
  split.
  - unfold pair_here. destruct s as [|c s1]; [discriminate|].
    destruct (Z.eqb_spec c 60) as [->|]; [|discriminate].
    pose proof (span_app tag_char s1) as Happ1.
    pose proof (span_all tag_char s1) as Hall1.
    destruct (span tag_char s1) as [key' s2]. simpl in Happ1, Hall1.
    destruct key' as [|k0 key']; [discriminate|].
    destruct s2 as [|c2 s3]; [discriminate|].
    destruct (Z.eqb_spec c2 58) as [->|]; [|discriminate].
    pose proof (span_app tag_char s3) as Happ2.
    pose proof (span_all tag_char s3) as Hall2.
    destruct (span tag_char s3) as [v' s4]. simpl in Happ2, Hall2.
    destruct v' as [|v0 v']; [discriminate|].
    destruct s4 as [|c4 s5]; [discriminate|].
    destruct (Z.eqb_spec c4 62) as [->|]; [|discriminate].
    intros H. injection H as <- <- <-.
    repeat split; try discriminate; try assumption.
    exists s5. rewrite Happ1, Happ2. reflexivity.
  - intros (Hk & Hv & Hak & Hav & -> & rest & ->).
    unfold pair_here. rewrite Z.eqb_refl.
    rewrite (span_run tag_char key 58) by (assumption || reflexivity).
    destruct key as [|k0 key]; [contradiction|].
    rewrite Z.eqb_refl.
    rewrite (span_run tag_char v 62) by (assumption || reflexivity).
    destruct v as [|v0 v]; [contradiction|].
    rewrite Z.eqb_refl. reflexivity.
Qed.

(** ** C3: [extractKeyValue] *)

Lemma values_of_app (K : jsstring) (l1 l2 : list (jsstring * jsstring)) :
  values_of K (l1 ++ l2) = values_of K l1 ++ values_of K l2.
Proof. unfold values_of. now rewrite filter_app, map_app. Qed.

Lemma values_of_one (K key v : jsstring) :
  values_of K [(key, v)] = if str_eqb key K then [v] else [].
Proof. unfold values_of. simpl. destruct (str_eqb key K); reflexivity. Qed.

Lemma stored_snoc (vs : list jsstring) (v : jsstring) :
  stored (vs ++ [v])
  = match stored vs with
    | None => Some (VStr v)
    | Some (VStr s) => Some (VArr [s; v])
    | Some (VArr l) => Some (VArr (l ++ [v]))
    end.
Proof. destruct vs as [|v0 [|v1 vs]]; reflexivity. Qed.


Lemma accumulated_nil : accumulated [] [].
Proof. split; intros K; reflexivity. Qed.

(** One step of the [reduce] on a key that is not inherited. *)
Lemma accumulate_step (done : list (jsstring * jsstring)) (acc : record)
  (key v : jsstring) :
  accumulated done acc -> inherited key = false ->
  exists acc',
    accumulate acc (key, v) = Ok acc' /\
    accumulated (done ++ [(key, v)]) acc' /\
    (distinct_keys acc -> distinct_keys acc').
Proof.
  intros [Hval Hinh] Hkey.
  assert (Hnew : forall K, stored (values_of K (done ++ [(key, v)]))
                 = if str_eqb key K
                   then match get_own K acc with
                        | None => Some (VStr v)
                        | Some (VStr s) => Some (VArr [s; v])
                        | Some (VArr l) => Some (VArr (l ++ [v]))
                        end
                   else get_own K acc).
  { intros K. rewrite values_of_app, values_of_one, Hval.
    destruct (str_eqb key K).
    - apply stored_snoc.
    - now rewrite app_nil_r. }
  unfold accumulate, js_in. rewrite Hkey, orb_false_r.
  unfold has_own. destruct (get_own key acc) as [[s|l]|] eqn:Hget.
  - eexists. split; [reflexivity|]. split; [split|].
    + intros K. rewrite Hnew, get_own_update. unfold has_own. rewrite Hget.
      destruct (str_eqb key K) eqn:E; [|reflexivity].
      apply str_eqb_eq in E. subst K. now rewrite Hget.
    + intros K HK. rewrite get_own_update.
      destruct (str_eqb key K) eqn:E; [|apply Hinh, HK].
      apply str_eqb_eq in E. congruence.
    + unfold distinct_keys. now rewrite keys_update.
  - eexists. split; [reflexivity|]. split; [split|].
    + intros K. rewrite Hnew, get_own_update. unfold has_own. rewrite Hget.
      destruct (str_eqb key K) eqn:E; [|reflexivity].
      apply str_eqb_eq in E. subst K. now rewrite Hget.
    + intros K HK. rewrite get_own_update.
      destruct (str_eqb key K) eqn:E; [|apply Hinh, HK].
      apply str_eqb_eq in E. congruence.
    + unfold distinct_keys. now rewrite keys_update.
  - eexists. split; [reflexivity|]. split; [split|].
    + intros K. rewrite Hnew, get_own_define.
      destruct (str_eqb key K) eqn:E; [|reflexivity].
      apply str_eqb_eq in E. subst K. now rewrite Hget.
    + intros K HK. rewrite get_own_define.
      destruct (str_eqb key K) eqn:E; [|apply Hinh, HK].
      apply str_eqb_eq in E. congruence.
    + apply distinct_define.
Qed.

(** One step of the [reduce] on an inherited key: the spread throws. *)
Lemma accumulate_inherited (done : list (jsstring * jsstring)) (acc : record)
  (key v : jsstring) :
  accumulated done acc -> inherited key = true ->
  accumulate acc (key, v) = Abort TypeError.
Proof.
  intros [_ Hinh] Hkey. unfold accumulate, js_in.
  rewrite Hkey, orb_true_r, (Hinh key Hkey). reflexivity.
Qed.

Lemma reduce_ok (pairs done : list (jsstring * jsstring)) (acc : record) :
  accumulated done acc -> distinct_keys acc ->
  forallb (fun p => negb (inherited (fst p))) pairs = true ->
  exists data,
    foldM accumulate pairs acc = Ok data /\
    accumulated (done ++ pairs) data /\ distinct_keys data.
Proof.
  revert done acc. induction pairs as [|[key v] pairs IH]; intros done acc Hacc Hnd Hall.
  - exists acc. rewrite app_nil_r. auto.
  - simpl in Hall. apply andb_true_iff in Hall. destruct Hall as [Hkey Hall].
    apply negb_true_iff in Hkey.
    destruct (accumulate_step done acc key v Hacc Hkey) as (acc' & Hstep & Hacc' & Hnd').
    destruct (IH (done ++ [(key, v)]) acc' Hacc' (Hnd' Hnd) Hall)
      as (data & Hfold & Hdata & Hnd'').
    exists data. cbn [foldM]. rewrite Hstep. cbn [bind].
    rewrite <- app_assoc in Hdata. auto.
Qed.

Lemma reduce_throws (pairs done : list (jsstring * jsstring)) (acc : record) :
  accumulated done acc ->
  forallb (fun p => negb (inherited (fst p))) pairs = false ->
  foldM accumulate pairs acc = Abort TypeError.
Proof.
  revert done acc. induction pairs as [|[key v] pairs IH]; intros done acc Hacc Hall.
  - discriminate.
  - simpl in Hall. cbn [foldM].
    destruct (inherited key) eqn:Hkey.
    + now rewrite (accumulate_inherited done acc key v Hacc Hkey).
    + destruct (accumulate_step done acc key v Hacc Hkey) as (acc' & Hstep & Hacc' & _).
      rewrite Hstep. cbn [bind]. apply (IH (done ++ [(key, v)])); assumption.
Qed.

(** [extractKeyValue] either stores every key as the matches say, or throws
    a [TypeError] because a matched key is a member of [Object.prototype]. *)
Lemma extractKeyValue_cases (content : jsstring) :
  let pairs := matchAll pair_here content in
  if forallb (fun p => negb (inherited (fst p))) pairs
  then exists data,
         extractKeyValue content = Ok data /\
         (forall K, get_own K data = stored (values_of K pairs)) /\
         distinct_keys data
  else extractKeyValue content = Abort TypeError.
Proof.
  intros pairs. unfold extractKeyValue. fold pairs.
  destruct (forallb _ pairs) eqn:Hall.
  - destruct (reduce_ok pairs [] [] accumulated_nil (NoDup_nil _) Hall)
      as (data & Hfold & [Hval _] & Hnd).
    exists data. auto.
  - apply (reduce_throws pairs [] []); [apply accumulated_nil | exact Hall].
Qed.

Lemma extractKeyValue_Ok (content : jsstring) (data : record) :
  extractKeyValue content = Ok data ->
  (forall K, get_own K data = stored (values_of K (matchAll pair_here content))) /\
  distinct_keys data.
Proof.
  intros H. pose proof (extractKeyValue_cases content) as Hc. cbv zeta in Hc.
  destruct (forallb _ _).
  - destruct Hc as (data' & H' & Hval & Hnd). rewrite H in H'.
    injection H' as <-. auto.
  - congruence.
Qed.

Lemma extractKeyValue_Abort (content : jsstring) (e : abort) :
  extractKeyValue content = Abort e -> e = TypeError.
Proof.
  intros H. pose proof (extractKeyValue_cases content) as Hc. cbv zeta in Hc.
  destruct (forallb _ _).
  - destruct Hc as (data' & H' & _). congruence.
  - congruence.
Qed.

(** C3 on the code: a key that is a member of [Object.prototype] makes the
    [reduce] throw where the specification promises a scalar. *)
Theorem extractKeyValue_constructor :
  matchAll pair_here (lit "<constructor:x>") = [(lit "constructor", lit "x")] /\
  extractKeyValue (lit "<constructor:x>") = Abort TypeError.
Proof. split; reflexivity. Qed.

(** What holds of C3: when no matched key is a member of [Object.prototype],
    a key matched once is stored as that string, a key matched [m > 1] times
    as the array of its [m] values in the order of the text, and a key that is
    not matched is absent. *)
Lemma extractKeyValue_values (content : jsstring) :
  forallb (fun p => negb (inherited (fst p))) (matchAll pair_here content) = true ->
  exists data,
    extractKeyValue content = Ok data /\
    forall K,
      let vs := values_of K (matchAll pair_here content) in
      (vs = [] -> get_own K data = None) /\
      (forall v, vs = [v] -> get_own K data = Some (VStr v)) /\
      ((1 < List.length vs)%nat -> get_own K data = Some (VArr vs)).
Proof.
  intros Hall. pose proof (extractKeyValue_cases content) as Hc. cbv zeta in Hc.
  rewrite Hall in Hc. destruct Hc as (data & Hok & Hval & _).
  exists data. split; [exact Hok|]. intros K vs. rewrite Hval. fold vs.
  repeat split.
  - intros ->. reflexivity.
  - intros v ->. reflexivity.
  - destruct vs as [|v0 [|v1 vs']]; simpl; intros Hlen; try lia. reflexivity.
Qed.

(** ** C7 and C10: [extractNestedKeyValue] *)

Lemma foldM_app {A B : Type} (f : B -> A -> outcome B) (l1 l2 : list A) (acc : B) :
  foldM f (l1 ++ l2) acc = bind (foldM f l1 acc) (foldM f l2).
Proof.
  revert acc. induction l1 as [|x l1 IH]; intros acc; simpl; [reflexivity|].
  destruct (f acc x); simpl; [apply IH | reflexivity].
Qed.

Lemma indexOf_startsWith (s d : jsstring) :
  startsWith s d = true -> indexOf s d = Some O.
Proof. intros H. destruct s; cbn [indexOf]; now rewrite H. Qed.

Lemma indexOf_one_char_last (before : jsstring) (c : char) :
  ~ In c before -> indexOf (before ++ [c]) [c] = Some (List.length before).
Proof.
  induction before as [|x before IH]; intros Hnotin.
  - cbn. now rewrite Z.eqb_refl.
  - cbn [app indexOf startsWith List.length].
    destruct (Z.eqb_spec x c) as [->|Hne]; [exfalso; apply Hnotin; now left|].
    cbn [andb]. rewrite IH; [reflexivity|]. intros Hin. apply Hnotin. now right.
Qed.

(** With a delimiter of one character the code splits as the specification
    says. *)
Lemma main_sub_one_char (key : jsstring) (c : char) (prefixes : list jsstring) :
  main_sub key [c] prefixes = split_key key [c] prefixes.
Proof.
  unfold main_sub, split_key, substring_to, substring_from.
  destruct (indexOf key [c]); reflexivity.
Qed.

(** C7 on the code: with a delimiter of two characters the sub-key keeps
    the second one, where the specification takes the remainder after the
    delimiter. *)
Theorem extractNestedKeyValue_long_delimiter :
  extractNestedKeyValue [(lit "A__B", VStr (lit "v"))] (lit "__") []
  = Ok [(lit "A", [(lit "_B", lit "v")])] /\
  split_key (lit "A__B") (lit "__") [] = (Some (lit "A"), Some (lit "B")).
Proof. split; reflexivity. Qed.

(** The two examples of the specification. *)
Lemma extractNestedKeyValue_pages :
  extractNestedKeyValue
    [(lit "PAGE1", VStr (lit "10")); (lit "PAGE2", VStr (lit "20"))]
    (lit "_") [lit "PAGE"]
  = Ok [(lit "PAGE", [(lit "1", lit "10"); (lit "2", lit "20")])].
Proof. reflexivity. Qed.

Lemma extractNestedKeyValue_style :
  extractNestedKeyValue [(lit "STYLE_NAME", VStr (lit "x"))] (lit "_") []
  = Ok [(lit "STYLE", [(lit "NAME", lit "x")])].
Proof. reflexivity. Qed.

Section ObjectMembers.
Context {V : Type}.
Implicit Types (o : obj V) (k : jsstring) (v : V).

Lemma In_update o k v k' v' :
  In (k, v) (update k' v' o) -> (k = k' /\ v = v') \/ In (k, v) o.
Proof.
  induction o as [|[k0 v0] o IH]; simpl; [tauto|].
  destruct (str_eqb k0 k') eqn:E.
  - apply str_eqb_eq in E. subst k0. intros [H|H]; [|tauto].
    injection H as <- <-. tauto.
  - intros [H|H]; [tauto|]. apply IH in H. tauto.
Qed.

Lemma In_insert_index o k v k' v' n :
  In (k, v) (insert_index n k' v' o) -> (k = k' /\ v = v') \/ In (k, v) o.
Proof.
  induction o as [|[k0 v0] o IH]; simpl.
  - intros [H|[]]. injection H as <- <-. tauto.
  - destruct (array_index k0) as [m|]; [destruct (n <? m)|]; simpl;
      intros [H|H]; try tauto;
      try (injection H as <- <-; tauto).
Qed.

Lemma In_define o k v k' v' :
  In (k, v) (define k' v' o) -> (k = k' /\ v = v') \/ In (k, v) o.
Proof.
  unfold define. destruct (has_own k' o).
  - apply In_update.
  - destruct (array_index k').
    + apply In_insert_index.
    + rewrite in_app_iff. simpl. intros [H|[H|[]]]; [tauto|].
      injection H as <- <-. tauto.
Qed.

Lemma In_assign o k v k' v' :
  In (k, v) (assign k' v' o) -> (k = k' /\ v = v') \/ In (k, v) o.
Proof.
  unfold assign. destruct (has_own k' o).
  - apply In_update.
  - destruct (str_eqb k' (lit "__proto__")); [tauto | apply In_define].
Qed.

Lemma update_nonempty o k v : o <> [] -> update k v o <> [].
Proof. destruct o as [|[k0 v0] o]; simpl; [tauto|]. destruct (str_eqb k0 k); discriminate. Qed.

Lemma define_nonempty o k v : define k v o <> [].
Proof.
  unfold define. destruct (has_own k o) eqn:H.
  - apply update_nonempty. intros ->. discriminate.
  - destruct (array_index k).
    + destruct o as [|[k0 v0] o]; simpl; [discriminate|].
      destruct (array_index k0) as [m|]; [destruct (z <? m)|]; discriminate.
    + destruct o; discriminate.
Qed.

Lemma assign_nonempty o k v : o <> [] -> assign k v o <> [].
Proof.
  intros H. unfold assign. destruct (has_own k o).
  - apply update_nonempty, H.
  - destruct (str_eqb k (lit "__proto__")); [exact H | apply define_nonempty].
Qed.
End ObjectMembers.

Lemma truthy_nonempty (s : jsstring) : truthy s = true -> s <> [].
Proof. destruct s; [discriminate | discriminate]. Qed.

(** In the standard environment the function is its loop. *)
Lemma extractNestedKeyValue_fold (rec : record) (delimiter : jsstring)
  (prefixes : list jsstring) :
  extractNestedKeyValue rec delimiter prefixes
  = (state <- foldM (group_entry delimiter prefixes) rec ([], standard) ;;
     Ok (fst state)).
Proof. reflexivity. Qed.

Lemma extractNestedKeyValue_Ok (rec : record) (delimiter : jsstring)
  (prefixes : list jsstring) (out : nested) :
  extractNestedKeyValue rec delimiter prefixes = Ok out ->
  exists r, foldM (group_entry delimiter prefixes) rec ([], standard) = Ok (out, r).
Proof.
  rewrite extractNestedKeyValue_fold. intros H.
  apply bind_Ok in H. destruct H as ([out' r] & Hfold & H).
  injection H as <-. eauto.
Qed.

(** What one entry does to [data]: nothing (the entry is skipped, or the
    write lands on a built-in object), a write into a group that [data]
    owns, or a new group under a name that nothing inherits. *)
Lemma group_entry_Ok (delimiter : jsstring) (prefixes : list jsstring)
  (data data' : nested) (r r' : realm) (entry : jsstring * value) :
  group_entry delimiter prefixes (data, r) entry = Ok (data', r') ->
  data' = data \/
  exists key s main sub,
    entry = (key, VStr s) /\
    main_sub key delimiter prefixes = (Some main, Some sub) /\
    main <> [] /\ sub <> [] /\ r' = r /\
    ((exists group, get_own main data = Some group /\
        data' = update main (assign sub s group) data) \/
     (get_own main data = None /\ inherited main = false /\
      get_own main (prototype_strings r) = None /\
      data' = define main (define sub s []) data)).
Proof.
  unfold group_entry. destruct entry as [key [s|l]].
  2:{ intros H. injection H as <- <-. now left. }
  destruct (main_sub key delimiter prefixes) as [[main|] [sub|]] eqn:Hsplit;
    try (intros H; injection H as <- <-; now left).
  destruct (truthy main) eqn:Hmain; cbn [andb];
    [|intros H; injection H as <- <-; now left].
  destruct (truthy sub) eqn:Hsub;
    [|intros H; injection H as <- <-; now left].
  apply truthy_nonempty in Hmain, Hsub.
  unfold js_in_at, has_own.
  destruct (get_own main data) as [group|] eqn:Hget; cbn [orb].
  - intros H. injection H as <- <-. right.
    exists key, s, main, sub. repeat split; try assumption. left. eauto.
  - destruct (get_own main (prototype_strings r)) eqn:Hproto; cbn [orb].
    + intros H. apply bind_Ok in H. destruct H as (r1 & _ & H).
      injection H as <- <-. now left.
    + destruct (inherited main) eqn:Hinh.
      * intros H. apply bind_Ok in H. destruct H as (r1 & _ & H).
        injection H as <- <-. now left.
      * intros H. injection H as <- <-. right.
        exists key, s, main, sub. repeat split; try assumption. right. auto.
Qed.

(** A property of [data] that every entry keeps holds of the output. *)
Lemma group_fold_invariant (P : nested -> Prop) (delimiter : jsstring)
  (prefixes : list jsstring) :
  (forall data r entry data' r',
     P data -> group_entry delimiter prefixes (data, r) entry = Ok (data', r') ->
     P data') ->
  forall rec state state',
    P (fst state) ->
    foldM (group_entry delimiter prefixes) rec state = Ok state' ->
    P (fst state').
Proof.
  intros Hstep. induction rec as [|entry rec IH]; intros state state' HP; cbn [foldM].
  - intros H. injection H as <-. exact HP.
  - intros H. apply bind_Ok in H. destruct H as ([data1 r1] & Hentry & Hrest).
    destruct state as [data r].
    apply (IH (data1, r1) state'); [|exact Hrest].
    apply (Hstep data r entry data1 r1); assumption.
Qed.

(** One entry keeps the output free of empty names. *)
Lemma group_entry_no_empty (delimiter : jsstring) (prefixes : list jsstring)
  (data data' : nested) (r r' : realm) (entry : jsstring * value) :
  no_empty_names data ->
  group_entry delimiter prefixes (data, r) entry = Ok (data', r') ->
  no_empty_names data'.
Proof.
  intros Hdata H. apply group_entry_Ok in H.
  destruct H as [->|(key & s & main & sub & _ & _ & Hmain & Hsub & _ & Hcase)];
    [exact Hdata|].
  destruct Hcase as [(group & Hget & ->)|(_ & _ & _ & ->)].
  - apply get_own_In in Hget. destruct (Hdata main group Hget) as (_ & Hne & Hsubs).
    intros m g Hin. apply In_update in Hin. destruct Hin as [[-> ->]|Hin].
    + split; [exact Hmain|]. split; [apply assign_nonempty, Hne|].
      intros s' w Hs. apply In_assign in Hs. destruct Hs as [[-> _]|Hs];
        [exact Hsub | eapply Hsubs, Hs].
    + apply Hdata, Hin.
  - intros m g Hin. apply In_define in Hin. destruct Hin as [[-> ->]|Hin].
    + split; [exact Hmain|]. split; [apply define_nonempty|].
      intros s' w Hs. apply In_define in Hs. destruct Hs as [[-> _]|[]]. exact Hsub.
    + apply Hdata, Hin.
Qed.

(** A dropped key leaves the output and the environment as they are,
    whatever the prefixes. *)
Lemma group_entry_dropped (delimiter : jsstring) (prefixes : list jsstring)
  (state : nested * realm) (key v : jsstring) :
  dropped key delimiter prefixes ->
  group_entry delimiter prefixes state (key, VStr v) = Ok state.
Proof.
  intros Hdrop.
  assert (Hempty : exists main sub,
             main_sub key delimiter prefixes = (Some main, Some sub) /\
             (main = [] \/ sub = [])).
  { unfold main_sub.
    destruct Hdrop as [Hstart|[(c & before & -> & -> & Hnotin)|[(idx & Hidx & Hpart)|[Hnone Hpre]]]].
    - rewrite (indexOf_startsWith _ _ Hstart). eauto.
    - rewrite (indexOf_one_char_last before c Hnotin).
      do 2 eexists. split; [reflexivity|]. right.
      unfold substring_from. apply skipn_all2. rewrite length_app. simpl. lia.
    - rewrite Hidx. eauto.
    - rewrite Hnone. clear Hnone.
      induction prefixes as [|prefix prefixes IH]; [discriminate|].
      cbn [first_prefix] in *. destruct (startsWith key prefix).
      + simpl in Hpre. injection Hpre as ->.
        do 2 eexists. split; [reflexivity|]. right.
        unfold substring_from. apply skipn_all2. lia.
      + apply IH, Hpre. }
  destruct Hempty as (main & sub & Hms & Hempty).
  unfold group_entry. destruct state as [data r]. rewrite Hms.
  destruct Hempty as [-> | ->]; [reflexivity|].
  destruct (truthy main); reflexivity.
Qed.

(** C10, as amended: an output that is returned has no empty group name, no
    empty sub-key and no empty group; a dropped key (one that begins with the
    delimiter, that ends with the first occurrence of a one-character
    delimiter, whose split gives an empty part, or that has no delimiter and
    is the first known prefix it starts with) contributes nothing, whatever
    the prefix list. *)
Theorem extractNestedKeyValue_no_empty (rec : record) (delimiter : jsstring)
  (prefixes : list jsstring) (data : nested) :
  extractNestedKeyValue rec delimiter prefixes = Ok data ->
  no_empty_names data /\
  forall rec1 key v rec2,
    rec = rec1 ++ (key, VStr v) :: rec2 ->
    dropped key delimiter prefixes ->
    extractNestedKeyValue (rec1 ++ rec2) delimiter prefixes = Ok data.
Proof.
  intros Hok. split.
  - apply extractNestedKeyValue_Ok in Hok. destruct Hok as [r Hok].
    apply (group_fold_invariant no_empty_names delimiter prefixes
             (fun data r entry data' r' => group_entry_no_empty _ _ data data' r r' entry)
             rec ([], standard) (data, r)); [|exact Hok].
    intros main group [].
  - intros rec1 key v rec2 -> Hdrop.
    rewrite extractNestedKeyValue_fold in Hok |- *.
    rewrite foldM_app in Hok |- *.
    destruct (foldM (group_entry delimiter prefixes) rec1 ([], standard))
      as [state1|e]; [|discriminate Hok].
    cbn [bind foldM] in Hok |- *.
    rewrite (group_entry_dropped delimiter prefixes state1 key v Hdrop) in Hok.
    exact Hok.
Qed.

Lemma extractNestedKeyValue_no_empty_witness :
  let data := [(lit "A", [(lit "B", lit "2")])] in
  extractNestedKeyValue [(lit "_x", VStr (lit "1")); (lit "A_B", VStr (lit "2"))]
    (lit "_") [lit "A"] = Ok data /\
  no_empty_names data /\
  extractNestedKeyValue [(lit "A_B", VStr (lit "2"))] (lit "_") [lit "A"] = Ok data.
Proof.
  cbv zeta. split; [reflexivity|].
  destruct (extractNestedKeyValue_no_empty
              [(lit "_x", VStr (lit "1")); (lit "A_B", VStr (lit "2"))]
              (lit "_") [lit "A"] [(lit "A", [(lit "B", lit "2")])] eq_refl)
    as [Hclean Hdrop].
  split; [exact Hclean|].
  apply (Hdrop [] (lit "_x") (lit "1") [(lit "A_B", VStr (lit "2"))] eq_refl).
  left. reflexivity.
Defined.

(** C10 as stated fails: the key [PAGE] is exactly equal to the known prefix
    [PAGE], but the prefix [PA] comes first in the list and the key is kept
    under it. *)
Lemma extractNestedKeyValue_keeps_prefix_key :
  In (lit "PAGE") [lit "PA"; lit "PAGE"] /\
  extractNestedKeyValue [(lit "PAGE", VStr (lit "7"))] (lit "_") [lit "PA"; lit "PAGE"]
  = Ok [(lit "PA", [(lit "GE", lit "7")])].
Proof. split; [right; left; reflexivity | reflexivity]. Qed.

(** ** The layer pattern of [extractLayerInfo] *)

(** The layer pattern matches at the head of [s] exactly when [s] starts
    with a brace-delimited group whose interior is not empty and holds no
    brace. *)
Lemma layer_here_spec (s content : jsstring) (n : nat) :
  layer_here s = Some (content, n) <->
  content <> [] /\ forallb brace_free content = true /\
  n = (2 + List.length content)%nat /\
  exists rest, s = 123 :: content ++ 125 :: rest.
Proof.
  split.
  - unfold layer_here. destruct s as [|c s1]; [discriminate|].
    destruct (Z.eqb_spec c 123) as [->|]; [|discriminate].
    pose proof (span_app brace_free s1) as Happ.
    pose proof (span_all brace_free s1) as Hall.
    destruct (span brace_free s1) as [content' s2]. simpl in Happ, Hall.
    destruct content' as [|c0 content']; [discriminate|].
    destruct s2 as [|c2 s3]; [discriminate|].
    destruct (Z.eqb_spec c2 125) as [->|]; [|discriminate].
    intros H. injection H as <- <-.
    repeat split; try discriminate; try assumption.
    exists s3. now rewrite Happ.
  - intros (Hne & Hall & -> & rest & ->).
    unfold layer_here. rewrite Z.eqb_refl.
    rewrite (span_run brace_free content 125) by (assumption || reflexivity).
    destruct content as [|c0 content]; [contradiction|].
    rewrite Z.eqb_refl. reflexivity.
Qed.

Lemma layer_here_brace_free (c : char) (s : jsstring) :
  brace_free c = true -> layer_here (c :: s) = None.
Proof.
  unfold brace_free, layer_here. intros H.
  destruct (c =? 123); [discriminate | reflexivity].
Qed.

Lemma matchAll_layer_skip (prefix s : jsstring) :
  forallb brace_free prefix = true ->
  matchAll layer_here (prefix ++ s) = matchAll layer_here s.
Proof.
  induction prefix as [|c prefix IH]; simpl; intros H; [reflexivity|].
  apply andb_true_iff in H. destruct H as [Hc Hprefix].
  rewrite matchAll_miss by (apply layer_here_brace_free, Hc). apply IH, Hprefix.
Qed.

(** On a well-formed sequence of groups the layer pattern matches the
    interiors of the groups, one after the other. *)
Lemma matchAll_layer_text (groups : list (jsstring * jsstring)) (tail : jsstring) :
  layer_sequence groups tail ->
  matchAll layer_here (layer_text groups tail) = map snd groups.
Proof.
  intros [Htail Hgroups]. induction groups as [|[separator interior] groups IH].
  - simpl. rewrite <- (app_nil_r tail). now rewrite matchAll_layer_skip.
  - destruct (Hgroups separator interior) as (Hsep & Hint & Hne); [now left|].
    cbn [layer_text map snd]. rewrite matchAll_layer_skip by exact Hsep.
    replace (123 :: interior ++ 125 :: layer_text groups tail)
      with (123 :: (interior ++ [125]) ++ layer_text groups tail)
      by (now rewrite <- app_assoc).
    rewrite (matchAll_hit layer_here 123 (interior ++ [125]) _ interior).
    + f_equal. apply IH. intros s i Hin. apply Hgroups. now right.
    + apply layer_here_spec. repeat split; try assumption.
      * rewrite length_app. simpl. lia.
      * exists (layer_text groups tail). now rewrite <- app_assoc.
Qed.

(** The dictionary built for a group reads back the raw value of every
    field. *)
Lemma layer_dict_fold (f : jsstring) (pairs : list (jsstring * jsstring))
  (acc : obj jsstring) :
  f <> lit "__proto__" ->
  get_own f (fold_left (fun acc kv => assign (fst kv) (snd kv) acc) pairs acc)
  = match raw_value f pairs with
    | Some v => Some v
    | None => get_own f acc
    end.
Proof.
  intros Hf. revert acc. induction pairs as [|[k v] pairs IH]; intros acc.
  - reflexivity.
  - cbn [fold_left raw_value fst snd]. rewrite IH.
    destruct (raw_value f pairs); [reflexivity|].
    rewrite get_own_assign by exact Hf. destruct (str_eqb k f); reflexivity.
Qed.

Lemma layer_dict_raw (f : string) (group : jsstring) :
  lit f <> lit "__proto__" ->
  get_own (lit f) (layer_dict group) = raw_field f group.
Proof.
  intros Hf. unfold layer_dict, raw_field. rewrite layer_dict_fold by exact Hf.
  destruct (raw_value _ _); reflexivity.
Qed.

Lemma is_true_iff (v : option jsstring) : is_true v = true <-> v = Some (lit "true").
Proof.
  destruct v as [s|]; simpl.
  - rewrite str_eqb_eq. split; congruence.
  - split; discriminate.
Qed.

(** The scenario of the specification. *)
Lemma extractLayerInfo_scenario :
  extractLayerInfo layerinfo_scenario
  = [ {| layerId := Int 1; name := lit "Background";
         isBackgroundLayer := false; isAllowAdd := false;
         isCurrentLayer := false; isVisible := true; isDeleted := false;
         isAllowUp := false; isAllowDown := false |} ].
Proof. reflexivity. Qed.

(** ** The signature *)

Lemma span_prefix (p : char -> bool) (run rest : jsstring) :
  forallb p run = true ->
  (List.length run <= List.length (fst (span p (run ++ rest))))%nat.
Proof.
  induction run as [|c run IH]; simpl; intros H; [lia|].
  apply andb_true_iff in H. destruct H as [Hc Hrun]. rewrite Hc.
  specialize (IH Hrun). destruct (span p (run ++ rest)). simpl in *. lia.
Qed.

Lemma forallb_firstn {A : Type} (p : A -> bool) (n : nat) (l : list A) :
  forallb p l = true -> forallb p (firstn n l) = true.
Proof.
  revert l. induction n as [|n IH]; intros [|x l]; simpl; try reflexivity.
  intros H. apply andb_true_iff in H. destruct H as [Hx Hl].
  now rewrite Hx, IH.
Qed.

(** The test of [_parseSignature] decides the pattern. *)
Lemma signature_test_spec (s : jsstring) :
  signature_test s = true <-> matches_signature s.
Proof.
  unfold signature_test, matches_signature. split.
  - intros H. apply andb_true_iff in H. destruct H as [Hstart Hdigits].
    apply startsWith_app in Hstart. destruct Hstart as [r ->].
    change (skipn 16 (lit "noteSN_FILE_VER_" ++ r)) with r in Hdigits.
    apply Nat.leb_le in Hdigits.
    pose proof (span_app is_digit r) as Happ.
    pose proof (span_all is_digit r) as Hall.
    destruct (span is_digit r) as [run rest']. simpl in Happ, Hall, Hdigits.
    exists (firstn 8 run), (skipn 8 run ++ rest'). split; [|split].
    + rewrite (app_assoc (firstn 8 run)), firstn_skipn. congruence.
    + rewrite length_firstn. lia.
    + apply forallb_firstn, Hall.
  - intros (ds & rest & -> & Hlen & Hall). apply andb_true_iff. split.
    + apply startsWith_app. eauto.
    + change (skipn 16 (lit "noteSN_FILE_VER_" ++ ds ++ rest)) with (ds ++ rest).
      apply Nat.leb_le. rewrite <- Hlen. apply span_prefix, Hall.
Qed.

(** ** Which errors a stage can raise *)

Lemma past_Ok {A : Type} (a : A) : past_signature (Ok a).
Proof. discriminate. Qed.

Lemma past_bind {A B : Type} (m : outcome A) (k : A -> outcome B) :
  past_signature m -> (forall a, past_signature (k a)) -> past_signature (bind m k).
Proof.
  unfold past_signature. intros Hm Hk. destruct m as [a|e]; simpl.
  - apply Hk.
  - congruence.
Qed.

Lemma past_foldM {A B : Type} (f : B -> A -> outcome B) (l : list A) (acc : B) :
  (forall acc x, past_signature (f acc x)) -> past_signature (foldM f l acc).
Proof.
  intros Hf. revert acc. induction l as [|x l IH]; intros acc; cbn [foldM].
  - apply past_Ok.
  - apply past_bind; [apply Hf | exact IH].
Qed.

Lemma past_mapM {A B : Type} (f : A -> outcome B) (l : list A) :
  (forall x, past_signature (f x)) -> past_signature (mapM f l).
Proof.
  intros Hf. induction l as [|x l IH]; cbn [mapM].
  - apply past_Ok.
  - apply past_bind; [apply Hf|]. intros y.
    apply past_bind; [exact IH|]. intros ys. apply past_Ok.
Qed.

Lemma past_defined {A : Type} (v : option A) : past_signature (defined v).
Proof. destruct v; discriminate. Qed.

Create HintDb past.
#[local] Hint Resolve past_Ok past_defined : past.

(** Splits the goal along the binds of a stage and closes the leaves by the
    lemmas of the stages below. *)
Ltac past :=
  repeat first
    [ solve [auto with past]
    | apply past_bind; [|intros ?; cbv beta]
    | apply past_foldM; intros ? ?; cbv beta
    | apply past_mapM; intros ?; cbv beta
    | match goal with
      | |- past_signature (match ?x with _ => _ end) => destruct x
      | |- past_signature (if ?x then _ else _) => destruct x
      | |- past_signature (Abort _) => discriminate
      end ].

Lemma past_readUIntLE (b : buffer) (offset : number) (w : Z) :
  past_signature (readUIntLE b offset w).
Proof. unfold readUIntLE. past. Qed.
#[local] Hint Resolve past_readUIntLE : past.

Lemma past_getContentAtAddress (b : buffer) (address : number) (w : Z) :
  past_signature (getContentAtAddress b address w).
Proof. unfold getContentAtAddress. past. Qed.
#[local] Hint Resolve past_getContentAtAddress : past.

Lemma past_extractKeyValue (content : jsstring) :
  past_signature (extractKeyValue content).
Proof.
  unfold past_signature. intros H. apply extractKeyValue_Abort in H. discriminate H.
Qed.
#[local] Hint Resolve past_extractKeyValue : past.

Lemma past_parseKeyValue (b : buffer) (address : number) (w : Z) :
  past_signature (parseKeyValue b address w).
Proof. unfold parseKeyValue. past. Qed.
#[local] Hint Resolve past_parseKeyValue : past.

Lemma past_builtin_write (r : realm) (main sub v : jsstring) :
  past_signature (builtin_write r main sub v).
Proof. unfold builtin_write. past. Qed.
#[local] Hint Resolve past_builtin_write : past.

Lemma past_extractNestedKeyValue_at (r : realm) (rec : record) (delimiter : jsstring)
  (prefixes : list jsstring) :
  past_signature (extractNestedKeyValue_at r rec delimiter prefixes).
Proof.
  unfold extractNestedKeyValue_at. destruct (callable "entries" r); [|discriminate].
  apply past_foldM. intros [data r'] [key v].
  unfold group_entry. past.
Qed.
#[local] Hint Resolve past_extractNestedKeyValue_at : past.

Lemma past_extractNestedKeyValue (rec : record) (delimiter : jsstring)
  (prefixes : list jsstring) :
  past_signature (extractNestedKeyValue rec delimiter prefixes).
Proof. unfold extractNestedKeyValue. past. Qed.
#[local] Hint Resolve past_extractNestedKeyValue : past.

Lemma past_call (method : string) (r : realm) : past_signature (call method r).
Proof. unfold call. past. Qed.
#[local] Hint Resolve past_call : past.

Lemma past_parseLayer (this : SupernoteX) (b : buffer) (address : number) :
  past_signature (_parseLayer this b address).
Proof. unfold _parseLayer. past. Qed.
#[local] Hint Resolve past_parseLayer : past.

Lemma past_parsePage (this : SupernoteX) (b : buffer) (group : obj jsstring)
  (idx : jsstring) :
  past_signature (parsePage this b group idx).
Proof. unfold parsePage, page_layerInfo, page_layerSeq. past. Qed.
#[local] Hint Resolve past_parsePage : past.

Lemma past_parseKeyword (this : SupernoteX) (b : buffer) (address : number) :
  past_signature (_parseKeyword this b address).
Proof. unfold _parseKeyword. past. Qed.

Lemma past_parseTitle (this : SupernoteX) (b : buffer) (address : number) :
  past_signature (_parseTitle this b address).
Proof. unfold _parseTitle. past. Qed.
#[local] Hint Resolve past_parseKeyword past_parseTitle : past.

Lemma past_collect {E : Type} (parse : number -> outcome E) (acc : obj (list E))
  (entry : jsstring * jsstring) :
  (forall a, past_signature (parse a)) -> past_signature (collect parse acc entry).
Proof. intros Hparse. unfold collect. destruct entry as [key v]. past. Qed.

Lemma past_parseFooter_at (this : SupernoteX) (b : buffer) :
  past_signature (_parseFooter_at this b).
Proof. unfold _parseFooter_at. past. Qed.
#[local] Hint Resolve past_parseFooter_at : past.

Lemma past_parseFooter (this : SupernoteX) (b : buffer) :
  past_signature (_parseFooter this b).
Proof. unfold _parseFooter. past. Qed.

Lemma past_parseHeader (this : SupernoteX) (b : buffer) :
  past_signature (_parseHeader this b).
Proof. unfold _parseHeader. past. Qed.

Lemma past_parsePages (r : realm) (this : SupernoteX) (b : buffer) :
  past_signature (_parsePages r this b).
Proof. unfold _parsePages. past. Qed.

Lemma past_parseCover (this : SupernoteX) (b : buffer) :
  past_signature (_parseCover this b).
Proof. unfold _parseCover. past. Qed.

Lemma past_parseKeywords (r : realm) (this : SupernoteX) (b : buffer) :
  past_signature (_parseKeywords r this b).
Proof.
  unfold _parseKeywords. past. apply past_collect. intros address. apply past_parseKeyword.
Qed.

Lemma past_parseTitles (r : realm) (this : SupernoteX) (b : buffer) :
  past_signature (_parseTitles r this b).
Proof.
  unfold _parseTitles. past. apply past_collect. intros address. apply past_parseTitle.
Qed.
#[local] Hint Resolve past_parseFooter past_parseHeader past_parsePages past_parseCover
  past_parseKeywords past_parseTitles : past.

(** ** What a stage assigns *)

Lemma parseSignature_Ok (this t : SupernoteX) (b : buffer) :
  _parseSignature this b = Ok t ->
  signature_test (toString_range b 0 24) = true /\
  t = set_signature (toString_range b 0 24) this.
Proof.
  unfold _parseSignature. destruct (signature_test _); [|discriminate].
  intros H. injection H as <-. auto.
Qed.

Lemma parseFooter_at_Ok (this t : SupernoteX) (r : realm) (b : buffer) :
  _parseFooter_at this b = Ok (t, r) ->
  _parseFooter this b = Ok t /\ exists f, t = set_footer f this.
Proof.
  intros H. split; [unfold _parseFooter; now rewrite H|].
  unfold _parseFooter_at in H.
  apply bind_Ok in H. destruct H as (address & _ & H).
  apply bind_Ok in H. destruct H as (data & _ & H).
  apply bind_Ok in H. destruct H as (groups & _ & H).
  injection H as <- _. eauto.
Qed.

Lemma parseFooter_Ok (this t : SupernoteX) (b : buffer) :
  _parseFooter this b = Ok t -> exists f, t = set_footer f this.
Proof.
  unfold _parseFooter. intros H.
  apply bind_Ok in H. destruct H as ([t' r] & Hat & H).
  injection H as <-. apply parseFooter_at_Ok in Hat. apply Hat.
Qed.

Lemma parseHeader_Ok (this t : SupernoteX) (b : buffer) :
  _parseHeader this b = Ok t -> exists h, t = set_header h this.
Proof.
  unfold _parseHeader. intros H.
  apply bind_Ok in H. destruct H as (f & _ & H).
  apply bind_Ok in H. destruct H as (data & _ & H).
  injection H as <-. eauto.
Qed.

Lemma parsePages_Ok (r : realm) (this t : SupernoteX) (b : buffer) :
  _parsePages r this b = Ok t -> exists ps, t = set_pages ps this.
Proof.
  unfold _parsePages. intros H.
  apply bind_Ok in H. destruct H as (f & _ & H).
  apply bind_Ok in H. destruct H as (group & _ & H).
  apply bind_Ok in H. destruct H as (u & _ & H).
  apply bind_Ok in H. destruct H as (ps & _ & H).
  injection H as <-. eauto.
Qed.

Lemma parseCover_Ok (this t : SupernoteX) (b : buffer) :
  _parseCover this b = Ok t -> t = this \/ exists c, t = set_cover c this.
Proof.
  unfold _parseCover. intros H.
  apply bind_Ok in H. destruct H as (f & _ & H).
  apply bind_Ok in H. destruct H as (group & _ & H).
  cbv zeta in H. destruct (positive (cover_address group)).
  - apply bind_Ok in H. destruct H as (bitmap & _ & H).
    injection H as <-. eauto.
  - injection H as <-. auto.
Qed.

Lemma parseKeywords_Ok (r : realm) (this t : SupernoteX) (b : buffer) :
  _parseKeywords r this b = Ok t -> exists ks, t = set_keywords ks this.
Proof.
  unfold _parseKeywords. intros H.
  apply bind_Ok in H. destruct H as (f & _ & H).
  apply bind_Ok in H. destruct H as (group & _ & H).
  apply bind_Ok in H. destruct H as (u & _ & H).
  apply bind_Ok in H. destruct H as (ks & _ & H).
  injection H as <-. eauto.
Qed.

Lemma parseTitles_Ok (r : realm) (this t : SupernoteX) (b : buffer) :
  _parseTitles r this b = Ok t -> exists ts, t = set_titles ts this.
Proof.
  unfold _parseTitles. intros H.
  apply bind_Ok in H. destruct H as (f & _ & H).
  apply bind_Ok in H. destruct H as (group & _ & H).
  apply bind_Ok in H. destruct H as (u & _ & H).
  apply bind_Ok in H. destruct H as (ts & _ & H).
  injection H as <-. eauto.
Qed.

(** A document that [_parseBuffer] returns has passed every stage. *)
Lemma parseBuffer_Ok (this d : SupernoteX) (b : buffer) :
  _parseBuffer this b = Ok d ->
  signature_test (toString_range b 0 24) = true /\
  signature d = Some (toString_range b 0 24) /\
  populated d.
Proof.
  unfold _parseBuffer. intros H.
  apply bind_Ok in H. destruct H as (t1 & H1 & H).
  apply bind_Ok in H. destruct H as ([t2 r] & H2 & H).
  apply bind_Ok in H. destruct H as (t3 & H3 & H).
  apply bind_Ok in H. destruct H as (t4 & H4 & H).
  apply bind_Ok in H. destruct H as (t5 & H5 & H).
  apply bind_Ok in H. destruct H as (t6 & H6 & H).
  apply bind_Ok in H. destruct H as (t7 & H7 & H).
  injection H as <-.
  apply parseSignature_Ok in H1. destruct H1 as [Htest ->].
  apply parseFooter_at_Ok in H2. destruct H2 as [_ [f ->]].
  apply parseHeader_Ok in H3. destruct H3 as [h ->].
  apply parsePages_Ok in H4. destruct H4 as [ps ->].
  apply parseKeywords_Ok in H6. destruct H6 as [ks ->].
  apply parseTitles_Ok in H7. destruct H7 as [ts ->].
  split; [exact Htest|].
  apply parseCover_Ok in H5. unfold populated.
  destruct H5 as [-> | [c ->]]; cbn; repeat split; discriminate.
Qed.

Lemma parseBuffer_past (this : SupernoteX) (b : buffer) :
  signature_test (toString_range b 0 24) = true ->
  past_signature (_parseBuffer this b).
Proof.
  intros Htest. unfold _parseBuffer, _parseSignature. rewrite Htest.
  cbn [bind]. past.
Qed.

Lemma parseBuffer_mismatch (this : SupernoteX) (b : buffer) :
  signature_test (toString_range b 0 24) = false ->
  _parseBuffer this b = Abort SignatureMismatch.
Proof.
  intros Htest. unfold _parseBuffer, _parseSignature. rewrite Htest. reflexivity.
Qed.

(** ** C8: the signature error *)

(** C8: the constructor stops with [SignatureMismatch] exactly when the
    text of the first 24 bytes does not match the pattern, and then no
    document is produced. *)
Theorem signature_mismatch_iff (b : buffer) :
  (constructor b = Abort SignatureMismatch <->
   ~ matches_signature (toString_range b 0 24)) /\
  (~ matches_signature (toString_range b 0 24) ->
   forall d, constructor b <> Ok d).
Proof.
  unfold constructor.
  destruct (signature_test (toString_range b 0 24)) eqn:Htest.
  - assert (Hsig : matches_signature (toString_range b 0 24))
      by (apply signature_test_spec, Htest).
    pose proof (parseBuffer_past blank b Htest) as Hpast.
    split; [split|]; intros H; [exfalso; apply Hpast, H | contradiction..].
  - assert (Hsig : ~ matches_signature (toString_range b 0 24)).
    { intros Hsig. apply signature_test_spec in Hsig. congruence. }
    rewrite (parseBuffer_mismatch blank b Htest).
    split; [split; auto|]. intros _ d. discriminate.
Qed.

Lemma signature_mismatch_iff_witness :
  constructor short_signature = Abort SignatureMismatch /\
  forall d, constructor short_signature <> Ok d.
Proof.
  assert (Hsig : ~ matches_signature (toString_range short_signature 0 24)).
  { intros Hsig. apply signature_test_spec in Hsig. vm_compute in Hsig.
    discriminate Hsig. }
  destruct (signature_mismatch_iff short_signature) as [[_ Hstop] Hnone].
  split; [apply Hstop, Hsig | apply Hnone, Hsig].
Defined.

(** ** C4: keywords and titles *)

(** C4 on the code: the block at address 28 is named as a keyword and as a
    title; the title takes its fields from the text of the block, the keyword
    keeps the default page "1" although the text says "5". *)
Theorem keyword_ignores_its_text :
  exists d kw title,
    constructor keyword_file = Ok d /\
    parseKeyValue keyword_file (Int 28) 4
    = Ok [(lit "KEYWORDPAGE", VStr (lit "5")); (lit "TITLELEVEL", VStr (lit "2"))] /\
    keywords d = Some [(lit "k", [kw])] /\
    KEYWORDPAGE kw = lit "1" /\
    titles d = Some [(lit "t", [title])] /\
    get_own (lit "KEYWORDPAGE") title = Some (FStr (lit "5")) /\
    get_own (lit "TITLELEVEL") title = Some (FStr (lit "2")).
Proof. vm_compute. do 3 eexists. repeat split. Qed.

(** A keyword never depends on the text of its block beyond the bitmap. *)
Lemma parseKeyword_default (this : SupernoteX) (b : buffer) (address : number)
  (kw : IKeyword) :
  _parseKeyword this b address = Ok kw -> keyword_default kw.
Proof.
  unfold _parseKeyword. intros H.
  apply bind_Ok in H. destruct H as (data & _ & H).
  apply bind_Ok in H. destruct H as (bitmap & _ & H).
  injection H as <-. repeat split.
Qed.

(** ** C5: defaults *)

Lemma parseKeyValue_distinct (b : buffer) (address : number) (w : Z) (data : record) :
  parseKeyValue b address w = Ok data -> distinct_keys data.
Proof.
  unfold parseKeyValue. intros H.
  apply bind_Ok in H. destruct H as ([content|] & _ & H).
  - apply extractKeyValue_Ok in H. apply H.
  - injection H as <-. constructor.
Qed.

Lemma group_entry_distinct (delimiter : jsstring) (prefixes : list jsstring)
  (data data' : nested) (r r' : realm) (entry : jsstring * value) :
  distinct_keys data ->
  group_entry delimiter prefixes (data, r) entry = Ok (data', r') ->
  distinct_keys data'.
Proof.
  intros Hnd H. apply group_entry_Ok in H.
  destruct H as [->|(key & s & main & sub & _ & _ & _ & _ & _ & Hcase)];
    [exact Hnd|].
  destruct Hcase as [(group & _ & ->)|(_ & _ & _ & ->)].
  - unfold distinct_keys. now rewrite keys_update.
  - apply distinct_define, Hnd.
Qed.

Lemma extractNestedKeyValue_distinct (rec : record) (delimiter : jsstring)
  (prefixes : list jsstring) (data : nested) :
  extractNestedKeyValue rec delimiter prefixes = Ok data -> distinct_keys data.
Proof.
  intros H. apply extractNestedKeyValue_Ok in H. destruct H as [r H].
  apply (group_fold_invariant (fun data => distinct_keys data) delimiter prefixes
           (fun data r entry data' r' => group_entry_distinct _ _ data data' r r' entry)
           rec ([], standard) (data, r)); [constructor | exact H].
Qed.

Lemma get_own_map {V W : Type} (f : V -> W) (o : obj V) (k : jsstring) :
  get_own k (map (fun kv => (fst kv, f (snd kv))) o) = option_map f (get_own k o).
Proof.
  induction o as [|[k0 v0] o IH]; simpl; [reflexivity|].
  destruct (str_eqb k0 k); [reflexivity | exact IH].
Qed.

Lemma keys_map {V W : Type} (f : V -> W) (o : obj V) :
  keys (map (fun kv => (fst kv, f (snd kv))) o) = keys o.
Proof. unfold keys. rewrite map_map. reflexivity. Qed.

(** A spread of the text over the defaults is the merge. *)
Lemma merged_spread {V : Type} (inj : value -> V) (defaults src : obj V)
  (data : record) :
  distinct_keys src ->
  (forall k, get_own k src = option_map inj (get_own k data)) ->
  merged inj defaults data [] (spread src defaults).
Proof.
  intros Hnd Hsrc k _. rewrite get_own_spread by exact Hnd. rewrite Hsrc.
  destruct (get_own k data); reflexivity.
Qed.

(** A key assigned after the spread leaves the merge outside itself. *)
Lemma merged_define {V : Type} (inj : value -> V) (defaults o : obj V)
  (data : record) (except : list jsstring) (k : jsstring) (v : V) :
  merged inj defaults data except o ->
  merged inj defaults data (k :: except) (define k v o).
Proof.
  intros Hm k' Hk'. rewrite get_own_define.
  destruct (str_eqb k k') eqn:E.
  - apply str_eqb_eq in E. subst k'. exfalso. apply Hk'. now left.
  - apply Hm. intros Hin. apply Hk'. now right.
Qed.

Lemma merged_weaken {V : Type} (inj : value -> V) (defaults o : obj V)
  (data : record) (except except' : list jsstring) :
  (forall k, In k except -> In k except') ->
  merged inj defaults data except o -> merged inj defaults data except' o.
Proof. intros Hincl Hm k Hk. apply Hm. intros Hin. apply Hk, Hincl, Hin. Qed.

Lemma entry_merge (defaults : obj field) (bitmap_key : string)
  (this : SupernoteX) (b : buffer) (address : number) (o : obj field) :
  (data <- parseKeyValue b address (lengthFieldSize this) ;;
   bitmapBuffer <-
     getContentAtAddress b (address_field data bitmap_key) (lengthFieldSize this) ;;
   Ok (define (lit "bitmapBuffer") (FBuf bitmapBuffer)
         (spread (fields_of data) defaults))) = Ok o ->
  entry_filled defaults bitmap_key this b address o.
Proof.
  intros H.
  apply bind_Ok in H. destruct H as (data & Hdata & H).
  apply bind_Ok in H. destruct H as (bitmap & Hbitmap & H).
  injection H as <-.
  exists data, bitmap. split; [exact Hdata|]. split; [exact Hbitmap|]. split.
  - apply merged_define, merged_spread.
    + unfold distinct_keys, fields_of. rewrite keys_map.
      eapply parseKeyValue_distinct, Hdata.
    + intros k. apply get_own_map.
  - rewrite get_own_define, str_eqb_refl. reflexivity.
Qed.

Lemma parseLayer_filled (this : SupernoteX) (b : buffer) (address : number)
  (layer : ILayer) :
  _parseLayer this b address = Ok layer -> layer_filled this b address layer.
Proof. apply entry_merge. Qed.

Lemma parseTitle_filled (this : SupernoteX) (b : buffer) (address : number)
  (title : ITitle) :
  _parseTitle this b address = Ok title -> title_filled this b address title.
Proof. apply entry_merge. Qed.

Lemma parseHeader_filled (this this' : SupernoteX) (b : buffer) :
  _parseHeader this b = Ok this' ->
  exists f h,
    footer this = Some f /\ header this' = Some h /\ header_filled this b f h.
Proof.
  unfold _parseHeader. intros H.
  apply bind_Ok in H. destruct H as (f & Hf & H).
  apply bind_Ok in H. destruct H as (data & Hdata & H).
  injection H as <-.
  destruct (footer this) as [f'|] eqn:Hfooter; [|discriminate].
  injection Hf as ->.
  exists f, (spread data header_defaults).
  split; [reflexivity|]. split; [reflexivity|].
  exists data. split; [exact Hdata|].
  apply merged_spread.
  - eapply parseKeyValue_distinct, Hdata.
  - intros k. destruct (get_own k data); reflexivity.
Qed.

Lemma parseFooter_filled (this this' : SupernoteX) (b : buffer) :
  _parseFooter this b = Ok this' ->
  exists f, footer this' = Some f /\ footer_filled this b f.
Proof.
  unfold _parseFooter, _parseFooter_at. intros H.
  apply bind_Ok in H. destruct H as ([t r] & H & Hfst).
  injection Hfst as <-.
  apply bind_Ok in H. destruct H as (address & Haddress & H).
  apply bind_Ok in H. destruct H as (data & Hdata & H).
  apply bind_Ok in H. destruct H as ([groups r'] & Hgroups & H).
  injection H as <- <-.
  assert (Hnested : extractNestedKeyValue data (lit "_") [lit "PAGE"] = Ok groups)
    by (unfold extractNestedKeyValue; now rewrite Hgroups).
  exists (spread groups footer_defaults). split; [reflexivity|].
  exists address, data, groups. repeat split; try assumption.
  intros g. apply get_own_spread.
  eapply extractNestedKeyValue_distinct, Hnested.
Qed.

(** Without a FEATURE in the FILE group of the footer the header is read at
    address 24. *)
Lemma header_address_fallback (f : IFooter) (file : obj jsstring) :
  get_own (lit "FILE") f = Some file ->
  get_own (lit "FEATURE") file = None ->
  header_address f = Int 24.
Proof. intros Hfile Hfeature. unfold header_address. now rewrite Hfile, Hfeature. Qed.

(** Reads a constant key through the assignments of an object literal. *)
Ltac lookup_define :=
  repeat (rewrite get_own_define;
          match goal with
          | |- context [str_eqb ?a ?b] =>
              let r := eval vm_compute in (str_eqb a b) in
              change (str_eqb a b) with r
          end;
          cbv iota).

Lemma parsePage_filled (this : SupernoteX) (b : buffer) (group : obj jsstring)
  (idx : jsstring) (page : IPage) :
  parsePage this b group idx = Ok page ->
  page_filled this b
    (parseInt (or_default (get_own idx group) (lit "undefined"))) page.
Proof.
  unfold parsePage. intros H.
  apply bind_Ok in H. destruct H as (data & Hdata & H).
  apply bind_Ok in H. destruct H as (main & Hmain & H).
  apply bind_Ok in H. destruct H as (l1 & Hl1 & H).
  apply bind_Ok in H. destruct H as (l2 & Hl2 & H).
  apply bind_Ok in H. destruct H as (l3 & Hl3 & H).
  apply bind_Ok in H. destruct H as (bg & Hbg & H).
  apply bind_Ok in H. destruct H as (infos & _ & H).
  apply bind_Ok in H. destruct H as (seq & _ & H).
  apply bind_Ok in H. destruct H as (path & _ & H).
  injection H as <-.
  exists data. split; [exact Hdata|]. split; [|split].
  - eapply merged_weaken; [|do 8 apply merged_define; apply merged_spread].
    + unfold page_slots. simpl. tauto.
    + unfold distinct_keys. rewrite keys_map.
      eapply parseKeyValue_distinct, Hdata.
    + intros k. apply get_own_map.
  - intros slot Hin. simpl in Hin.
    destruct Hin as [<-|[<-|[<-|[<-|[<-|[]]]]]];
      eexists; (split; [lookup_define; reflexivity | apply parseLayer_filled; assumption]).
  - exists path. lookup_define. reflexivity.
Qed.

(** A field that names a block gives an address that can be read: the one
    of its value when it is present and readable, 0 when it is absent. *)
Lemma readable_field (b : buffer) (w : Z) (data : record) (key : string) :
  readable b w data key ->
  exists content, getContentAtAddress b (address_field data key) w = Ok content.
Proof.
  intros Hread. unfold address_field.
  destruct (get_own (lit key) data) as [v|] eqn:Hget; [apply (Hread v Hget)|].
  exists None. reflexivity.
Qed.

Lemma readable_layer_field (this : SupernoteX) (b : buffer) (data : record)
  (slot : string) :
  readable_layer this b data slot ->
  exists layer, _parseLayer this b (address_field data slot) = Ok layer.
Proof.
  intros Hread. unfold address_field.
  destruct (get_own (lit slot) data) as [v|] eqn:Hget; [apply (Hread v Hget)|].
  eexists. reflexivity.
Qed.

(** C5, as amended.  A stage asks nothing of an absent field: it returns as
    soon as its block is read and the fields that are present and name
    another block can be read.  What it returns is filled: the footer group
    by group (a group of the text replaces its default as a whole, so that
    FILE.FEATURE can be absent, in which case the header is read at 24); in
    the header, in a layer, in a title, in a keyword and among the style
    fields of a page, a field that is absent from the text of the block has
    its default. *)
Theorem defaults_fill (this : SupernoteX) (b : buffer) :
  (forall address data groups,
     readUIntLE (subarray b (Int (buf_length b - addressSize this)) (Int (buf_length b)))
       (Int 0) (addressSize this) = Ok address ->
     parseKeyValue b (Int address) (lengthFieldSize this) = Ok data ->
     extractNestedKeyValue data (lit "_") [lit "PAGE"] = Ok groups ->
     exists f, _parseFooter this b = Ok (set_footer f this) /\ footer_filled this b f) /\
  (forall f file,
     get_own (lit "FILE") f = Some file -> get_own (lit "FEATURE") file = None ->
     header_address f = Int 24) /\
  (forall f data,
     footer this = Some f ->
     parseKeyValue b (header_address f) (lengthFieldSize this) = Ok data ->
     exists h, _parseHeader this b = Ok (set_header h this) /\ header_filled this b f h) /\
  (forall group idx data info seq,
     parseKeyValue b (parseInt (or_default (get_own idx group) (lit "undefined")))
       (lengthFieldSize this) = Ok data ->
     (forall slot, In slot ["MAINLAYER"; "LAYER1"; "LAYER2"; "LAYER3"; "BGLAYER"]%string ->
        readable_layer this b data slot) ->
     get_own (lit "LAYERINFO") data = Some (VStr info) ->
     get_own (lit "LAYERSEQ") data = Some (VStr seq) ->
     readable b (lengthFieldSize this) data "TOTALPATH" ->
     exists page,
       parsePage this b group idx = Ok page /\
       page_filled this b
         (parseInt (or_default (get_own idx group) (lit "undefined"))) page) /\
  (forall address data,
     parseKeyValue b address (lengthFieldSize this) = Ok data ->
     readable b (lengthFieldSize this) data "LAYERBITMAP" ->
     exists layer,
       _parseLayer this b address = Ok layer /\ layer_filled this b address layer) /\
  (forall address data,
     parseKeyValue b address (lengthFieldSize this) = Ok data ->
     readable b (lengthFieldSize this) data "TITLEBITMAP" ->
     exists title,
       _parseTitle this b address = Ok title /\ title_filled this b address title) /\
  (forall address data,
     parseKeyValue b address (lengthFieldSize this) = Ok data ->
     readable b (lengthFieldSize this) data "KEYWORDSITE" ->
     exists kw, _parseKeyword this b address = Ok kw /\ keyword_absent data kw).
Proof.
  split; [|split; [|split; [|split; [|split; [|split]]]]].
  - intros address data groups Haddress Hdata Hgroups.
    assert (Hrun : _parseFooter this b
                   = Ok (set_footer (spread groups footer_defaults) this)).
    { unfold _parseFooter, _parseFooter_at. rewrite Haddress. cbn [bind].
      rewrite Hdata. cbn [bind]. unfold extractNestedKeyValue in Hgroups.
      destruct (extractNestedKeyValue_at standard data (lit "_") [lit "PAGE"])
        as [[groups' r]|e]; [|discriminate Hgroups].
      injection Hgroups as <-. reflexivity. }
    eexists. split; [exact Hrun|].
    destruct (parseFooter_filled _ _ _ Hrun) as (f & Hf & Hfilled).
    injection Hf as <-. exact Hfilled.
  - apply header_address_fallback.
  - intros f data Hf Hdata.
    assert (Hrun : _parseHeader this b
                   = Ok (set_header (spread data header_defaults) this)).
    { unfold _parseHeader. rewrite Hf. cbn [defined bind]. now rewrite Hdata. }
    eexists. split; [exact Hrun|].
    destruct (parseHeader_filled _ _ _ Hrun) as (f' & h & Hf' & Hh & Hfilled).
    rewrite Hf in Hf'. injection Hf' as <-. injection Hh as <-. exact Hfilled.
  - intros group idx data info seq Hdata Hlayers Hinfo Hseq Hpath.
    destruct (readable_layer_field this b data "MAINLAYER") as [main Hmain];
      [apply Hlayers; simpl; tauto|].
    destruct (readable_layer_field this b data "LAYER1") as [l1 Hl1];
      [apply Hlayers; simpl; tauto|].
    destruct (readable_layer_field this b data "LAYER2") as [l2 Hl2];
      [apply Hlayers; simpl; tauto|].
    destruct (readable_layer_field this b data "LAYER3") as [l3 Hl3];
      [apply Hlayers; simpl; tauto|].
    destruct (readable_layer_field this b data "BGLAYER") as [bg Hbg];
      [apply Hlayers; simpl; tauto|].
    destruct (readable_field b _ data "TOTALPATH" Hpath) as [path Hget].
    eassert (Hrun : parsePage this b group idx = Ok _).
    { unfold parsePage. rewrite Hdata. cbn [bind].
      rewrite Hmain. cbn [bind]. rewrite Hl1. cbn [bind]. rewrite Hl2. cbn [bind].
      rewrite Hl3. cbn [bind]. rewrite Hbg. cbn [bind].
      unfold page_layerInfo, page_layerSeq. rewrite Hinfo, Hseq. cbn [bind].
      rewrite Hget. cbn [bind]. reflexivity. }
    eexists. split; [exact Hrun | apply parsePage_filled, Hrun].
  - intros address data Hdata Hbitmap.
    destruct (readable_field b _ data "LAYERBITMAP" Hbitmap) as [bitmap Hget].
    eassert (Hrun : _parseLayer this b address = Ok _).
    { unfold _parseLayer. rewrite Hdata. cbn [bind]. rewrite Hget. reflexivity. }
    eexists. split; [exact Hrun | apply parseLayer_filled, Hrun].
  - intros address data Hdata Hbitmap.
    destruct (readable_field b _ data "TITLEBITMAP" Hbitmap) as [bitmap Hget].
    eassert (Hrun : _parseTitle this b address = Ok _).
    { unfold _parseTitle. rewrite Hdata. cbn [bind]. rewrite Hget. reflexivity. }
    eexists. split; [exact Hrun | apply parseTitle_filled, Hrun].
  - intros address data Hdata Hbitmap.
    destruct (readable_field b _ data "KEYWORDSITE" Hbitmap) as [bitmap Hget].
    eexists. split.
    + unfold _parseKeyword. rewrite Hdata. cbn [bind]. rewrite Hget. reflexivity.
    + repeat split.
Qed.

Lemma defaults_fill_witness :
  footer_filled blank feature_file feature_footer /\
  header_address feature_footer = Int 24 /\
  (exists h, _parseHeader with_footer feature_file = Ok (set_header h with_footer) /\
             header_filled with_footer feature_file feature_footer h) /\
  (exists page, parsePage with_footer page_file [(lit "1", lit "28")] (lit "1") = Ok page /\
                page_filled with_footer page_file (Int 28) page) /\
  (exists layer, _parseLayer with_footer bitmap_file (Int 28) = Ok layer /\
                 layer_filled with_footer bitmap_file (Int 28) layer) /\
  (exists title, _parseTitle with_footer keyword_file (Int 28) = Ok title /\
                 title_filled with_footer keyword_file (Int 28) title) /\
  (exists kw, _parseKeyword with_footer keyword_file (Int 28) = Ok kw /\
              KEYWORDSEQNO kw = lit "0").
Proof.
  assert (Hno : forall (b : buffer) (w : Z) (data : record) (key : string),
            get_own (lit key) data = None -> readable b w data key).
  { intros b w data key Hnone v Hv. congruence. }
  split; [|split; [|split; [|split; [|split; [|split]]]]].
  - destruct (defaults_fill blank feature_file) as (Hfooter & _).
    edestruct Hfooter as (f & Hf & Hfilled);
      [vm_compute; reflexivity | vm_compute; reflexivity | vm_compute; reflexivity |].
    vm_compute in Hf. injection Hf as <-. exact Hfilled.
  - destruct (defaults_fill blank feature_file) as (_ & Haddress & _).
    apply (Haddress feature_footer [(lit "TYPE", lit "NOTE")]); reflexivity.
  - destruct (defaults_fill with_footer feature_file) as (_ & _ & Hheader & _).
    apply (Hheader feature_footer []); vm_compute; reflexivity.
  - destruct (defaults_fill with_footer page_file) as (_ & _ & _ & Hpage & _).
    eapply (Hpage [(lit "1", lit "28")] (lit "1")).
    + vm_compute. reflexivity.
    + intros slot Hin v Hv. simpl in Hin.
      destruct Hin as [<-|[<-|[<-|[<-|[<-|[]]]]]]; vm_compute in Hv; discriminate Hv.
    + vm_compute. reflexivity.
    + vm_compute. reflexivity.
    + apply Hno. vm_compute. reflexivity.
  - destruct (defaults_fill with_footer bitmap_file) as (_ & _ & _ & _ & Hlayer & _).
    eapply Hlayer; [vm_compute; reflexivity|].
    intros v Hv. vm_compute in Hv. injection Hv as <-.
    eexists. vm_compute. reflexivity.
  - destruct (defaults_fill with_footer keyword_file) as (_ & _ & _ & _ & _ & Htitle & _).
    eapply Htitle; [vm_compute; reflexivity|].
    apply Hno. vm_compute. reflexivity.
  - destruct (defaults_fill with_footer keyword_file) as (_ & _ & _ & _ & _ & _ & Hkw).
    edestruct (Hkw (Int 28)) as (kw & Hrun & Hseq & _); [vm_compute; reflexivity | |].
    + apply Hno. vm_compute. reflexivity.
    + exists kw. split; [exact Hrun|]. apply Hseq. vm_compute. reflexivity.
Defined.

(** C5 as stated fails for FILE.FEATURE: the footer text of [feature_file]
    has a FILE group without FEATURE; the group replaces the default group
    and the document is returned with FILE.FEATURE undefined, although the
    default is "24". *)
Lemma footer_feature_undefined :
  exists d f file,
    constructor feature_file = Ok d /\
    footer d = Some f /\
    get_own (lit "FILE") f = Some file /\
    get_own (lit "FEATURE") file = None /\
    get_own (lit "FILE") footer_defaults = Some [(lit "FEATURE", lit "24")].
Proof. vm_compute. do 3 eexists. repeat split. Qed.

(** The page fields LAYERINFO and LAYERSEQ have no fallback: a page block
    without them stops the constructor with a [TypeError]. *)
Lemma page_without_layer_info :
  parseKeyValue bare_page_file (Int 28) 4
  = Ok [(lit "PAGESTYLE", VStr (lit "style_white"))] /\
  constructor bare_page_file = Abort TypeError.
Proof. split; vm_compute; reflexivity. Qed.

(** The scenario of the specification: a footer with one page and the cover
    address 0 gives one page and no cover. *)
Lemma constructor_page_file :
  exists d f page,
    constructor page_file = Ok d /\
    footer d = Some f /\
    get_own (lit "PAGE") f = Some [(lit "1", lit "28")] /\
    get_own (lit "COVER") f = Some [(lit "0", lit "0")] /\
    pages d = Some [page] /\
    get_own (lit "PAGESTYLE") page = Some (PVal (VStr (lit "style_white"))) /\
    get_own (lit "LAYERSEQ") page = Some (PLayerSeq [lit "MAINLAYER"; lit "BGLAYER"]) /\
    get_own (lit "MAINLAYER") page = Some (PLayer absent_layer) /\
    cover d = None.
Proof. vm_compute. do 3 eexists. repeat split. Qed.

(** * Further properties of the code *)

(** ** [getContentAtAddress] and [parseKeyValue] on blocks *)

(** [null] is returned for the address 0 only. *)
Lemma getContentAtAddress_null (b : buffer) (address : number) (w : Z) :
  getContentAtAddress b address w = Ok None -> address = Int 0.
Proof.
  unfold getContentAtAddress. destruct (is_zero address) eqn:Hz.
  - intros _. destruct address as [|[| |]|negative]; try discriminate Hz. reflexivity.
  - destruct (readUIntLE b address w); discriminate.
Qed.

(** X1: the three outcomes of [getContentAtAddress].  [null] is returned for
    the address 0 only; a buffer that is returned is the part of [buffer] that
    starts right after a length field lying inside [buffer]; the only error
    is a [RangeError], raised exactly when the length field cannot be read (a
    width outside 1..6, [NaN] or an infinity, a negative address or a field
    that ends past the buffer). *)
Theorem getContentAtAddress_outcomes (b : buffer) (address : number) (w : Z) :
  match getContentAtAddress b address w with
  | Ok None => address = Int 0
  | Ok (Some content) =>
      exists a before after,
        address = Int a /\ 0 < a /\ 1 <= w <= 6 /\ a + w <= buf_length b /\
        b = before ++ content ++ after /\ buf_length before = a + w /\
        buf_length content = Z.min (length_field b a w) (buf_length b - (a + w))
  | Abort e =>
      e = RangeError /\ address <> Int 0 /\
      (w < 1 \/ 6 < w \/
       match address with
       | NaN | Infinity _ => True
       | Int a => a < 0 \/ buf_length b < a + w
       end)
  end.
Proof.
  assert (Hother : forall n,
            (forall a, n <> Int a) ->
            getContentAtAddress b n w = Abort RangeError /\
            (w < 1 \/ 6 < w \/ True)).
  { intros n Hno. unfold getContentAtAddress, readUIntLE.
    destruct n as [|a|negative]; [|exfalso; now apply (Hno a)|];
      cbn [is_zero];
      (destruct ((1 <=? w) && (w <=? 6)) eqn:Hw; cbn [bind];
       (split; [reflexivity|]);
       [ right; right; exact I
       | apply andb_false_iff in Hw; destruct Hw as [Hw|Hw];
         apply Z.leb_gt in Hw; lia ]). }
  destruct address as [|a|negative].
  - destruct (Hother NaN) as [-> Hcause]; [discriminate|].
    split; [reflexivity|]. split; [discriminate | exact Hcause].
  - destruct (Z.eq_dec a 0) as [->|Hne]; [reflexivity|].
    assert (Hz : is_zero (Int a) = false) by (destruct a; [contradiction | reflexivity..]).
    destruct (Z_lt_le_dec 0 a) as [Hpos|Hneg].
    + destruct (Z_le_gt_dec 1 w) as [Hw1|Hw1]; [destruct (Z_le_gt_dec w 6) as [Hw6|Hw6]|].
      * destruct (Z_le_gt_dec (a + w) (buf_length b)) as [Hin|Hout].
        -- rewrite getContentAtAddress_inside by lia.
           pose proof (length_field_nonneg b a w) as Hn.
           exists a, (firstn (Z.to_nat (a + w)) b),
             (skipn (Z.to_nat (length_field b a w)) (skipn (Z.to_nat (a + w)) b)).
           repeat split; try lia.
           ++ now rewrite !firstn_skipn.
           ++ unfold buf_length in *. rewrite length_firstn. lia.
           ++ unfold buf_length in *. rewrite length_firstn, length_skipn. lia.
        -- unfold getContentAtAddress, readUIntLE. rewrite Hz.
           replace ((1 <=? w) && (w <=? 6)) with true
             by (symmetry; apply andb_true_iff; split; apply Z.leb_le; lia).
           replace ((0 <=? a) && (a + w <=? buf_length b)) with false
             by (symmetry; apply andb_false_iff; right; apply Z.leb_gt; lia).
           cbn [bind]. repeat split; try congruence. right. right. right. lia.
      * unfold getContentAtAddress, readUIntLE. rewrite Hz.
        replace ((1 <=? w) && (w <=? 6)) with false
          by (symmetry; apply andb_false_iff; right; apply Z.leb_gt; lia).
        cbn [bind]. repeat split; try congruence. right. left. lia.
      * unfold getContentAtAddress, readUIntLE. rewrite Hz.
        replace ((1 <=? w) && (w <=? 6)) with false
          by (symmetry; apply andb_false_iff; left; apply Z.leb_gt; lia).
        cbn [bind]. repeat split; try congruence. left. lia.
    + unfold getContentAtAddress, readUIntLE. rewrite Hz.
      destruct ((1 <=? w) && (w <=? 6)) eqn:Hw.
      * replace ((0 <=? a) && (a + w <=? buf_length b)) with false
          by (symmetry; apply andb_false_iff; left; apply Z.leb_gt; lia).
        cbn [bind]. repeat split; try congruence. right. right. left. lia.
      * cbn [bind]. repeat split; try congruence.
        apply andb_false_iff in Hw. destruct Hw as [Hw|Hw];
          apply Z.leb_gt in Hw; lia.
  - destruct (Hother (Infinity negative)) as [-> Hcause]; [discriminate|].
    split; [reflexivity|]. split; [discriminate | exact Hcause].
Qed.

Lemma byte_val_byte_of (z : Z) : byte_val (byte_of z) = z mod 256.
Proof.
  unfold byte_of, byte_val.
  assert (Hrange : 0 <= z mod 256 < 256) by (apply Z.mod_pos_bound; lia).
  destruct (Byte.of_N (Z.to_N (z mod 256))) as [x|] eqn:E.
  - apply Byte.to_of_N in E. rewrite E. apply Z2N.id. lia.
  - apply Byte.of_N_None_iff in E. lia.
Qed.

Lemma le_value_uint32 (n : Z) : 0 <= n < 2 ^ 32 -> le_value (uint32 n) = n.
Proof.
  intros Hn. unfold uint32. cbn [le_value]. rewrite !byte_val_byte_of.
  change (2 ^ 32) with 4294967296 in Hn. Z.div_mod_to_equations. lia.
Qed.

Lemma length_ascii_bytes (text : jsstring) :
  List.length (ascii_bytes text) = List.length text.
Proof. apply length_map. Qed.

Lemma skipn_prefix {A : Type} (p l : list A) : skipn (List.length p) (p ++ l) = l.
Proof. induction p as [|x p IH]; [reflexivity | exact IH]. Qed.

Lemma firstn_prefix {A : Type} (p l : list A) : firstn (List.length p) (p ++ l) = p.
Proof. induction p as [|x p IH]; simpl; [now destruct l | now rewrite IH]. Qed.

(** ASCII bytes are decoded to themselves. *)
Lemma toString_ascii (bs : list byte) :
  Forall (fun x => byte_val x <= 127) bs -> toString bs = map byte_val bs.
Proof.
  unfold toString. induction 1 as [|x bs Hx _ IH]; [reflexivity|].
  cbn [code_points map]. unfold lead.
  destruct (Z.leb_spec (byte_val x) 127) as [_|]; [|lia].
  cbn [app flat_map]. rewrite IH. unfold utf16.
  destruct (Z.ltb_spec (byte_val x) 65536) as [_|]; [reflexivity | lia].
Qed.

Lemma byte_val_ascii_bytes (text : jsstring) :
  Forall (fun c => 0 <= c < 128) text -> map byte_val (ascii_bytes text) = text.
Proof.
  unfold ascii_bytes. induction 1 as [|c text Hc _ IH]; [reflexivity|].
  cbn [map]. rewrite IH, byte_val_byte_of. f_equal.
  apply Z.mod_small. lia.
Qed.

Lemma toString_ascii_bytes (text : jsstring) :
  Forall (fun c => 0 <= c < 128) text -> toString (ascii_bytes text) = text.
Proof.
  intros Htext. rewrite toString_ascii; [apply byte_val_ascii_bytes, Htext|].
  unfold ascii_bytes. apply Forall_map.
  eapply Forall_impl; [|exact Htext]. intros c Hc. cbv beta in *.
  rewrite byte_val_byte_of, Z.mod_small; lia.
Qed.

(** The content of a block laid out in a buffer. *)
Lemma getContentAtAddress_of_block (before after : buffer) (text : jsstring) :
  (0 < List.length before)%nat ->
  Z.of_nat (List.length text) < 2 ^ 32 ->
  getContentAtAddress (before ++ block text ++ after) (Int (buf_length before)) 4
  = Ok (Some (ascii_bytes text)).
Proof.
  intros Hbefore Htext. unfold block, buf_length.
  set (n := Z.of_nat (List.length text)) in *.
  assert (Hfield : length_field (before ++ (uint32 n ++ ascii_bytes text) ++ after)
                     (Z.of_nat (List.length before)) 4 = n).
  { unfold length_field. rewrite Nat2Z.id, skipn_prefix, <- !app_assoc.
    change (Z.to_nat 4) with (List.length (uint32 n)).
    rewrite firstn_prefix. apply le_value_uint32. lia. }
  rewrite getContentAtAddress_inside.
  - rewrite Hfield.
    replace (Z.to_nat (Z.of_nat (List.length before) + 4))
      with (List.length (before ++ uint32 n)) by (rewrite length_app; simpl; lia).
    rewrite <- !app_assoc, (app_assoc before), skipn_prefix.
    unfold n. rewrite Nat2Z.id, <- (length_ascii_bytes text), firstn_prefix.
    reflexivity.
  - lia.
  - lia.
  - unfold buf_length. rewrite !length_app. simpl. lia.
Qed.

Lemma parseKeyValue_of_block (before after : buffer) (text : jsstring) :
  (0 < List.length before)%nat ->
  Z.of_nat (List.length text) < 2 ^ 32 ->
  Forall (fun c => 0 <= c < 128) text ->
  parseKeyValue (before ++ block text ++ after) (Int (buf_length before)) 4
  = extractKeyValue text.
Proof.
  intros Hbefore Hlen Htext. unfold parseKeyValue.
  rewrite (getContentAtAddress_of_block before after text Hbefore Hlen).
  cbn [bind]. now rewrite toString_ascii_bytes.
Qed.

(** X2: decoding a block.  When a buffer holds, at a positive address, a
    4-byte little-endian length followed by that many bytes of ASCII text,
    [getContentAtAddress] returns exactly those bytes and [parseKeyValue]
    computes what [extractKeyValue] computes on the text, whatever precedes
    and follows the block. *)
Theorem parseKeyValue_block (before after : buffer) (text : jsstring) :
  (0 < List.length before)%nat ->
  Z.of_nat (List.length text) < 2 ^ 32 ->
  Forall (fun c => 0 <= c < 128) text ->
  getContentAtAddress (before ++ block text ++ after) (Int (buf_length before)) 4
  = Ok (Some (ascii_bytes text)) /\
  parseKeyValue (before ++ block text ++ after) (Int (buf_length before)) 4
  = extractKeyValue text.
Proof.
  intros Hbefore Hlen Htext.
  split; [apply getContentAtAddress_of_block; assumption|].
  apply parseKeyValue_of_block; assumption.
Qed.

Lemma parseKeyValue_block_witness :
  parseKeyValue ([x00; x00] ++ block (lit "<A:1><A:2>") ++ [xff]) (Int 2) 4
  = Ok [(lit "A", VArr [lit "1"; lit "2"])].
Proof.
  destruct (parseKeyValue_block [x00; x00] [xff] (lit "<A:1><A:2>")) as [_ H].
  - simpl. lia.
  - vm_compute. reflexivity.
  - apply Forall_forall. intros c Hc. vm_compute in Hc.
    repeat (destruct Hc as [<-|Hc]; [lia|]). contradiction.
  - exact H.
Defined.

(** ** [extractKeyValue] on tagged text *)

Lemma pair_here_no_open (c : char) (s : jsstring) :
  (c =? 60) = false -> pair_here (c :: s) = None.
Proof. intros H. unfold pair_here. now rewrite H. Qed.

Lemma matchAll_pair_skip (filler s : jsstring) :
  no_open filler = true ->
  matchAll pair_here (filler ++ s) = matchAll pair_here s.
Proof.
  unfold no_open. induction filler as [|c filler IH]; simpl; intros H; [reflexivity|].
  apply andb_true_iff in H. destruct H as [Hc Hfiller].
  apply negb_true_iff in Hc.
  rewrite matchAll_miss by (apply pair_here_no_open, Hc). apply IH, Hfiller.
Qed.

(** On a tagged text the tag pattern matches the tags, one after the other. *)
Lemma matchAll_tag_text (items : list (jsstring * (jsstring * jsstring)))
  (tail : jsstring) :
  tag_sequence items tail ->
  matchAll pair_here (tag_text items tail) = map snd items.
Proof.
  intros [Htail Hitems]. induction items as [|[filler [key v]] items IH].
  - simpl. rewrite <- (app_nil_r tail). now rewrite matchAll_pair_skip.
  - destruct (Hitems filler key v) as (Hfiller & [Hk Hkw] & [Hv Hvw]); [now left|].
    cbn [tag_text map snd]. rewrite matchAll_pair_skip by exact Hfiller.
    unfold tag. rewrite <- app_comm_cons.
    rewrite (matchAll_hit pair_here 60 (key ++ 58 :: v ++ [62]) _ (key, v)).
    + f_equal. apply IH. intros f k w Hin. apply (Hitems f k w). now right.
    + apply pair_here_spec. repeat split; try assumption.
      * rewrite !length_app. simpl. rewrite length_app. simpl. lia.
      * exists (tag_text items tail). rewrite <- !app_assoc. simpl.
        now rewrite <- !app_assoc.
Qed.

(** X3: reading back a tagged text.  On a text made of well-formed tags
    separated by fillers without [<], [extractKeyValue] finds exactly the tags
    in their order; when no key is a member of [Object.prototype], it returns
    the record that stores, for every key, the values of its tags. *)
Theorem extractKeyValue_tag_text (items : list (jsstring * (jsstring * jsstring)))
  (tail : jsstring) :
  tag_sequence items tail ->
  forallb (fun p => negb (inherited (fst p))) (map snd items) = true ->
  matchAll pair_here (tag_text items tail) = map snd items /\
  exists data,
    extractKeyValue (tag_text items tail) = Ok data /\
    forall K, get_own K data = stored (values_of K (map snd items)).
Proof.
  intros Hseq Hkeys.
  pose proof (matchAll_tag_text items tail Hseq) as Hmatch.
  split; [exact Hmatch|].
  pose proof (extractKeyValue_cases (tag_text items tail)) as Hcases.
  cbv zeta in Hcases. rewrite Hmatch, Hkeys in Hcases.
  destruct Hcases as (data & Hok & Hval & _). eauto.
Qed.

Lemma extractKeyValue_tag_text_witness :
  extractKeyValue (lit "# <A:1>, <B:2><A:3>.")
  = Ok [(lit "A", VArr [lit "1"; lit "3"]); (lit "B", VStr (lit "2"))].
Proof.
  destruct (extractKeyValue_tag_text
              [(lit "# ", (lit "A", lit "1")); (lit ", ", (lit "B", lit "2"));
               ([], (lit "A", lit "3"))] (lit "."))
    as (_ & data & Hrun & _).
  - split; [reflexivity|]. intros filler key v Hin. simpl in Hin.
    destruct Hin as [E|[E|[E|[]]]]; injection E as <- <- <-;
      (split; [reflexivity|]); split; split; (discriminate || reflexivity).
  - reflexivity.
  - reflexivity.
Defined.

(** ** What [extractKeyValue] stores *)

Lemma scan_In {M : Type} (here : jsstring -> option (M * nat)) (s : jsstring) :
  forall skip m, In m (scan here skip s) -> exists s' n, here s' = Some (m, n).
Proof.
  induction s as [|c s IH]; intros skip m; cbn [scan]; [intros []|].
  destruct skip as [|k]; [|apply IH].
  destruct (here (c :: s)) as [[m' n]|] eqn:Hhere; [|apply IH].
  intros [<-|Hin]; [eauto | eapply IH, Hin].
Qed.

Lemma matched_pair_words (content key v : jsstring) :
  In (key, v) (matchAll pair_here content) -> word key /\ word v.
Proof.
  intros Hin. apply scan_In in Hin. destruct Hin as (s' & n & Hhere).
  apply pair_here_spec in Hhere. unfold word. tauto.
Qed.

Lemma values_of_In (K v : jsstring) (pairs : list (jsstring * jsstring)) :
  In v (values_of K pairs) -> In (K, v) pairs.
Proof.
  unfold values_of. intros Hin. apply in_map_iff in Hin.
  destruct Hin as ([k w] & <- & Hin). apply filter_In in Hin.
  destruct Hin as [Hin Hk]. apply str_eqb_eq in Hk. simpl in *. now subst.
Qed.

Lemma get_own_of_In {V : Type} (o : obj V) (k : jsstring) (v : V) :
  distinct_keys o -> In (k, v) o -> get_own k o = Some v.
Proof.
  unfold distinct_keys.
  induction o as [|[k0 v0] o IH]; simpl; intros Hnd Hin; [contradiction|].
  inversion Hnd as [|? ? Hnotin Hnd']; subst.
  destruct Hin as [E|Hin].
  - injection E as -> ->. now rewrite str_eqb_refl.
  - destruct (str_eqb k0 k) eqn:E.
    + apply str_eqb_eq in E. subst k0. exfalso. apply Hnotin.
      apply (in_map fst) in Hin. exact Hin.
    + apply IH; assumption.
Qed.

(** X4: the record returned by [extractKeyValue] is well formed.  No key
    occurs twice; every key is a non-empty word without [<], [>] and [:] and
    is not a member of [Object.prototype]; a string value is such a word, and
    an array value has at least two elements, all of them such words. *)
Theorem extractKeyValue_well_formed (content : jsstring) (data : record) :
  extractKeyValue content = Ok data ->
  distinct_keys data /\
  forall k v, In (k, v) data ->
    word k /\ inherited k = false /\
    match v with
    | VStr s => word s
    | VArr l => (2 <= List.length l)%nat /\ Forall word l
    end.
Proof.
  intros Hok. pose proof (extractKeyValue_cases content) as Hcases.
  cbv zeta in Hcases.
  destruct (forallb _ (matchAll pair_here content)) eqn:Hkeys; [|congruence].
  destruct Hcases as (data' & Hok' & Hval & Hnd).
  rewrite Hok in Hok'. injection Hok' as <-.
  split; [exact Hnd|]. intros k v Hin.
  apply (get_own_of_In data k v Hnd) in Hin. rewrite Hval in Hin.
  assert (Hfrom : forall w, In w (values_of k (matchAll pair_here content)) ->
            word k /\ inherited k = false /\ word w).
  { intros w Hw. apply values_of_In in Hw.
    destruct (matched_pair_words content k w Hw) as [Hk Hword].
    split; [exact Hk|]. split; [|exact Hword].
    rewrite forallb_forall in Hkeys. specialize (Hkeys (k, w) Hw).
    now apply negb_true_iff in Hkeys. }
  destruct (values_of k (matchAll pair_here content)) as [|w0 [|w1 ws]] eqn:Hvs;
    simpl in Hin; [discriminate| |]; injection Hin as <-.
  - destruct (Hfrom w0) as (Hk & Hi & Hw); [now left|]. auto.
  - destruct (Hfrom w0) as (Hk & Hi & Hw); [now left|].
    split; [exact Hk|]. split; [exact Hi|]. split; [simpl; lia|].
    apply Forall_forall. intros w Hin. apply Hfrom, Hin.
Qed.

Lemma extractKeyValue_well_formed_witness :
  distinct_keys [(lit "A", VArr [lit "1"; lit "3"]); (lit "B", VStr (lit "2"))] /\
  word (lit "B") /\ inherited (lit "B") = false /\ word (lit "2").
Proof.
  destruct (extractKeyValue_well_formed (lit "<A:1><B:2><A:3>")
              [(lit "A", VArr [lit "1"; lit "3"]); (lit "B", VStr (lit "2"))]
              eq_refl) as [Hnd Hall].
  split; [exact Hnd|].
  apply (Hall (lit "B") (VStr (lit "2"))). right. left. reflexivity.
Defined.

(** ** What [extractNestedKeyValue] files *)

Lemma inherited_neq (m main : jsstring) :
  inherited m = true -> inherited main = false -> str_eqb m main = false.
Proof.
  intros Hm Hmain. destruct (str_eqb m main) eqn:E; [|reflexivity].
  apply str_eqb_eq in E. congruence.
Qed.

(** Under a name that nothing inherits, an entry is filed or leaves the
    place as it is. *)
Lemma group_entry_lookup (delimiter : jsstring) (prefixes : list jsstring)
  (data data' : nested) (r r' : realm) (key : jsstring) (v : value)
  (main sub : jsstring) :
  inherited main = false ->
  sub <> lit "__proto__" ->
  group_entry delimiter prefixes (data, r) (key, v) = Ok (data', r') ->
  lookup2 main sub data'
  = match v with
    | VStr s =>
        if splits_to delimiter prefixes key main sub then Some s
        else lookup2 main sub data
    | VArr _ => lookup2 main sub data
    end.
Proof.
  intros Hmain Hsub. unfold group_entry, splits_to. destruct v as [s|l].
  2:{ intros H. injection H as <- <-. reflexivity. }
  destruct (main_sub key delimiter prefixes) as [[m|] [s0|]];
    try (intros H; injection H as <- <-; reflexivity).
  destruct (truthy m && truthy s0); cbn [andb];
    [|intros H; injection H as <- <-; reflexivity].
  unfold js_in_at, lookup2, has_own.
  destruct (get_own m data) as [group|] eqn:Hget; cbn [orb].
  - intros H. injection H as <- <-.
    rewrite get_own_update. unfold has_own. rewrite Hget.
    destruct (str_eqb m main) eqn:Em; cbn [andb]; [|reflexivity].
    apply str_eqb_eq in Em. subst m. rewrite Hget.
    apply get_own_assign, Hsub.
  - destruct (get_own m (prototype_strings r)) as [stored|] eqn:Hproto; cbn [orb].
    + unfold builtin_write. destruct (str_eqb s0 (lit "__proto__")) eqn:Es0.
      * intros H. injection H as <- <-.
        destruct (str_eqb s0 sub) eqn:Es; [|now rewrite andb_false_r].
        apply str_eqb_eq in Es, Es0. congruence.
      * rewrite Hproto. discriminate.
    + destruct (inherited m) eqn:Hm.
      * intros H. apply bind_Ok in H. destruct H as (r1 & _ & H).
        injection H as <- <-. now rewrite (inherited_neq m main Hm Hmain).
      * intros H. injection H as <- <-. rewrite get_own_define.
        destruct (str_eqb m main) eqn:Em; cbn [andb]; [|reflexivity].
        apply str_eqb_eq in Em. subst m. rewrite Hget, get_own_define.
        destruct (str_eqb s0 sub); reflexivity.
Qed.

Lemma group_fold_lookup (delimiter : jsstring) (prefixes : list jsstring)
  (rec : record) (main sub : jsstring) :
  inherited main = false ->
  sub <> lit "__proto__" ->
  forall state state',
    foldM (group_entry delimiter prefixes) rec state = Ok state' ->
    lookup2 main sub (fst state')
    = match grouped_value delimiter prefixes main sub rec with
      | Some w => Some w
      | None => lookup2 main sub (fst state)
      end.
Proof.
  intros Hmain Hsub. induction rec as [|[key v] rec IH]; intros state state';
    cbn [foldM].
  - intros H. injection H as <-. reflexivity.
  - intros H. apply bind_Ok in H. destruct H as ([data1 r1] & Hstep & Hrest).
    destruct state as [data r].
    rewrite (IH (data1, r1) state' Hrest). cbn [grouped_value fst].
    destruct (grouped_value delimiter prefixes main sub rec); [reflexivity|].
    rewrite (group_entry_lookup _ _ _ _ _ _ _ _ main sub Hmain Hsub Hstep).
    destruct v as [s|l]; [|reflexivity].
    destruct (splits_to delimiter prefixes key main sub); reflexivity.
Qed.

(** No entry gives [data] a group under an inherited name. *)
Lemma group_entry_inherited (delimiter : jsstring) (prefixes : list jsstring)
  (main : jsstring) (data data' : nested) (r r' : realm) (entry : jsstring * value) :
  inherited main = true ->
  get_own main data = None ->
  group_entry delimiter prefixes (data, r) entry = Ok (data', r') ->
  get_own main data' = None.
Proof.
  intros Hmain Hdata H. apply group_entry_Ok in H.
  destruct H as [->|(key & s & m & sub & _ & _ & _ & _ & _ & Hcase)];
    [exact Hdata|].
  destruct Hcase as [(group & Hget & ->)|(_ & Hm & _ & ->)].
  - rewrite get_own_update. unfold has_own. rewrite Hget.
    destruct (str_eqb m main) eqn:E; [|exact Hdata].
    apply str_eqb_eq in E. subst m. congruence.
  - rewrite get_own_define.
    destruct (str_eqb m main) eqn:E; [|exact Hdata].
    apply str_eqb_eq in E. subst m. congruence.
Qed.

(** X5: what the grouped output holds.  For every group name that is not a
    member of [Object.prototype] and every sub-key other than ["__proto__"],
    the output of [extractNestedKeyValue] holds the value of the last string
    entry (in the order of [Object.entries]) whose key splits into that group
    and sub-key with both parts non-empty, and nothing when there is no such
    entry.  Under a name that is a member of [Object.prototype] the output
    holds nothing: such an entry is written to the built-in object. *)
Theorem extractNestedKeyValue_lookup (rec : record) (delimiter : jsstring)
  (prefixes : list jsstring) (out : nested) (main sub : jsstring) :
  extractNestedKeyValue rec delimiter prefixes = Ok out ->
  sub <> lit "__proto__" ->
  lookup2 main sub out
  = if inherited main then None
    else grouped_value delimiter prefixes main sub rec.
Proof.
  intros Hok Hsub. apply extractNestedKeyValue_Ok in Hok. destruct Hok as [r Hok].
  destruct (inherited main) eqn:Hmain.
  - pose proof (group_fold_invariant (fun data => get_own main data = None)
                  delimiter prefixes
                  (fun data r entry data' r' =>
                     group_entry_inherited _ _ main data data' r r' entry Hmain)
                  rec ([], standard) (out, r) eq_refl Hok) as Hnone.
    cbn [fst] in Hnone. unfold lookup2. now rewrite Hnone.
  - pose proof (group_fold_lookup delimiter prefixes rec main sub Hmain Hsub
                  ([], standard) (out, r) Hok) as Hfold.
    cbn [fst] in Hfold. rewrite Hfold.
    destruct (grouped_value delimiter prefixes main sub rec); reflexivity.
Qed.

Lemma extractNestedKeyValue_lookup_witness :
  lookup2 (lit "PAGE") (lit "1")
    [(lit "PAGE", [(lit "1", lit "30"); (lit "2", lit "20")])]
  = Some (lit "30") /\
  lookup2 (lit "constructor") (lit "x") [(lit "A", [(lit "B", lit "2")])] = None.
Proof.
  split.
  - rewrite (extractNestedKeyValue_lookup
               [(lit "PAGE_1", VStr (lit "10")); (lit "PAGE2", VStr (lit "20"));
                (lit "PAGE1", VStr (lit "30")); (lit "PAGE3", VArr [lit "1"; lit "2"])]
               (lit "_") [lit "PAGE"]
               [(lit "PAGE", [(lit "1", lit "30"); (lit "2", lit "20")])]
               (lit "PAGE") (lit "1")).
    + reflexivity.
    + reflexivity.
    + intros H. vm_compute in H. discriminate H.
  - rewrite (extractNestedKeyValue_lookup
               [(lit "constructor_x", VStr (lit "1")); (lit "A_B", VStr (lit "2"))]
               (lit "_") [] [(lit "A", [(lit "B", lit "2")])]
               (lit "constructor") (lit "x")).
    + reflexivity.
    + reflexivity.
    + intros H. vm_compute in H. discriminate H.
Defined.

(** Every value of the output comes from a string entry of the input. *)
Lemma group_entry_from (delimiter : jsstring) (prefixes : list jsstring)
  (rec : record) (data data' : nested) (r r' : realm) (entry : jsstring * value) :
  In entry rec ->
  (forall main group sub v, In (main, group) data -> In (sub, v) group ->
     exists key, In (key, VStr v) rec /\
                 main_sub key delimiter prefixes = (Some main, Some sub)) ->
  group_entry delimiter prefixes (data, r) entry = Ok (data', r') ->
  forall main group sub v, In (main, group) data' -> In (sub, v) group ->
    exists key, In (key, VStr v) rec /\
                main_sub key delimiter prefixes = (Some main, Some sub).
Proof.
  intros Hentry Hdata H. apply group_entry_Ok in H.
  destruct H as [->|(key & s & m & s0 & -> & Hsplit & _ & _ & _ & Hcase)];
    [exact Hdata|].
  destruct Hcase as [(g & Hget & ->)|(_ & _ & _ & ->)];
    intros main group sub v Hin Hsub.
  - apply In_update in Hin. destruct Hin as [[-> ->]|Hin].
    + apply In_assign in Hsub. destruct Hsub as [[-> ->]|Hsub]; [eauto|].
      eapply Hdata; [apply get_own_In, Hget | exact Hsub].
    + eapply Hdata; eassumption.
  - apply In_define in Hin. destruct Hin as [[-> ->]|Hin].
    + apply In_define in Hsub. destruct Hsub as [[-> ->]|[]]. eauto.
    + eapply Hdata; eassumption.
Qed.

Lemma extractNestedKeyValue_from (rec : record) (delimiter : jsstring)
  (prefixes : list jsstring) (out : nested) :
  extractNestedKeyValue rec delimiter prefixes = Ok out ->
  forall main group sub v, In (main, group) out -> In (sub, v) group ->
    exists key, In (key, VStr v) rec /\
                main_sub key delimiter prefixes = (Some main, Some sub).
Proof.
  intros Hok. apply extractNestedKeyValue_Ok in Hok. destruct Hok as [r Hok].
  assert (Hgen : forall todo state state',
            (forall e, In e todo -> In e rec) ->
            (forall main group sub v, In (main, group) (fst state) -> In (sub, v) group ->
               exists key, In (key, VStr v) rec /\
                           main_sub key delimiter prefixes = (Some main, Some sub)) ->
            foldM (group_entry delimiter prefixes) todo state = Ok state' ->
            forall main group sub v, In (main, group) (fst state') -> In (sub, v) group ->
              exists key, In (key, VStr v) rec /\
                          main_sub key delimiter prefixes = (Some main, Some sub)).
  { induction todo as [|entry todo IH]; intros state state' Hsub Hacc; cbn [foldM].
    - intros H. injection H as <-. exact Hacc.
    - intros H. apply bind_Ok in H. destruct H as ([data1 r1] & Hstep & Hrest).
      destruct state as [data0 r0].
      apply (IH (data1, r1) state'); [intros e He; apply Hsub; now right | | exact Hrest].
      eapply group_entry_from; [apply Hsub; now left | exact Hacc | exact Hstep]. }
  apply (Hgen rec ([], standard) (out, r)); [auto | intros main group sub v [] | exact Hok].
Qed.

(** X6: grouping an extracted text.  Every value that [extractNestedKeyValue]
    files from the record of [extractKeyValue] is the value of a key that the
    text matches exactly once: a key matched several times is stored as an
    array and takes no part in the grouping. *)
Theorem grouped_values_matched_once (content delimiter : jsstring)
  (prefixes : list jsstring) (data : record) (out : nested)
  (main sub v : jsstring) (group : obj jsstring) :
  extractKeyValue content = Ok data ->
  extractNestedKeyValue data delimiter prefixes = Ok out ->
  In (main, group) out -> In (sub, v) group ->
  exists key,
    main_sub key delimiter prefixes = (Some main, Some sub) /\
    values_of key (matchAll pair_here content) = [v].
Proof.
  intros Hdata Hout Hmain Hsub.
  destruct (extractNestedKeyValue_from data delimiter prefixes out Hout
              main group sub v Hmain Hsub) as (key & Hin & Hsplit).
  exists key. split; [exact Hsplit|].
  apply extractKeyValue_Ok in Hdata. destruct Hdata as [Hval Hnd].
  apply (get_own_of_In data key (VStr v) Hnd) in Hin. rewrite Hval in Hin.
  destruct (values_of key (matchAll pair_here content)) as [|w0 [|w1 ws]];
    simpl in Hin; [discriminate | congruence | discriminate].
Qed.

Lemma grouped_values_matched_once_witness :
  exists key,
    main_sub key (lit "_") [lit "PAGE"] = (Some (lit "PAGE"), Some (lit "1")) /\
    values_of key (matchAll pair_here (lit "<PAGE1:10><X_Y:1><X_Y:2>")) = [lit "10"].
Proof.
  apply (grouped_values_matched_once (lit "<PAGE1:10><X_Y:1><X_Y:2>") (lit "_")
           [lit "PAGE"]
           [(lit "PAGE1", VStr (lit "10")); (lit "X_Y", VArr [lit "1"; lit "2"])]
           [(lit "PAGE", [(lit "1", lit "10")])]
           (lit "PAGE") (lit "1") (lit "10") [(lit "1", lit "10")]).
  - reflexivity.
  - reflexivity.
  - left. reflexivity.
  - left. reflexivity.
Defined.

(** X7: [extractNestedKeyValue] returns whenever no string entry is filed
    under a group named like a member of [Object.prototype]. *)
Theorem extractNestedKeyValue_returns (rec : record) (delimiter : jsstring)
  (prefixes : list jsstring) :
  (forall key s main sub,
     In (key, VStr s) rec ->
     main_sub key delimiter prefixes = (Some main, Some sub) ->
     inherited main = false) ->
  exists out, extractNestedKeyValue rec delimiter prefixes = Ok out.
Proof.
  rewrite extractNestedKeyValue_fold.
  generalize (@nil (jsstring * obj jsstring)).
  induction rec as [|[key v] rec IH]; intros acc Hsafe; cbn [foldM].
  - cbn [bind fst]. eauto.
  - assert (Hstep : exists acc',
              group_entry delimiter prefixes (acc, standard) (key, v)
              = Ok (acc', standard)).
    { unfold group_entry. destruct v as [s|l]; [|eauto].
      destruct (main_sub key delimiter prefixes) as [[m|] [s0|]] eqn:Hsplit; eauto.
      destruct (truthy m && truthy s0); [|eauto].
      unfold js_in_at, has_own.
      rewrite (Hsafe key s m s0 (or_introl eq_refl) Hsplit).
      cbn [standard prototype_strings get_own]. rewrite ?orb_false_r.
      destruct (get_own m acc); eauto. }
    destruct Hstep as [acc' Hstep]. rewrite Hstep. cbn [bind].
    apply IH. intros k s main sub Hin. apply (Hsafe k s main sub). now right.
Qed.

Lemma extractNestedKeyValue_returns_witness :
  exists out,
    extractNestedKeyValue [(lit "STYLE_NAME", VStr (lit "x")); (lit "odd", VStr (lit "y"))]
      (lit "_") [lit "PAGE"] = Ok out.
Proof.
  apply extractNestedKeyValue_returns.
  intros key s main sub Hin Hsplit. simpl in Hin.
  destruct Hin as [E|[E|[]]]; injection E as <- <-;
    vm_compute in Hsplit; [injection Hsplit as <- <-; reflexivity | discriminate].
Defined.

(** ** The signature, byte by byte *)

Lemma land_low_bits (v : Z) (n : Z) (base : Z) :
  0 <= n -> base mod 2 ^ n = 0 -> base <= v < base + 2 ^ n ->
  Z.land v (Z.ones n) = v - base.
Proof.
  intros Hn Hbase Hv. rewrite Z.land_ones by exact Hn.
  assert (Hpos : 0 < 2 ^ n) by (apply Z.pow_pos_nonneg; lia).
  symmetry. apply (Z.mod_unique_pos v (2 ^ n) (base / 2 ^ n)); [lia|].
  pose proof (Z.div_mod base (2 ^ n)) as Hdm. lia.
Qed.

Lemma lead_ascii (v : Z) : v <= 127 -> lead v = ([v], Idle).
Proof. intros Hv. unfold lead. destruct (Z.leb_spec v 127); [reflexivity | lia]. Qed.

(** A byte above 127 emits U+FFFD or opens a sequence whose code point will be
    at least 128. *)
Lemma lead_high (v : Z) :
  127 < v ->
  lead v = ([65533], Idle) \/
  exists needed cp lower upper,
    lead v = ([], Pending needed cp lower upper) /\ pending_ok needed cp lower upper.
Proof.
  intros Hv. unfold lead.
  destruct (Z.leb_spec v 127) as [|_]; [lia|].
  destruct (Z.leb_spec 194 v) as [H194|]; cbn [andb].
  2:{ destruct ((224 <=? v) && (v <=? 239)) eqn:E1;
        [apply andb_true_iff in E1; destruct E1 as [E1 _]; apply Z.leb_le in E1; lia|].
      destruct ((240 <=? v) && (v <=? 244)) eqn:E2;
        [apply andb_true_iff in E2; destruct E2 as [E2 _]; apply Z.leb_le in E2; lia|].
      now left. }
  destruct (Z.leb_spec v 223) as [H223|H223].
  - right. do 4 eexists. split; [reflexivity|].
    change 31 with (Z.ones 5). rewrite (land_low_bits v 5 192) by (reflexivity || lia).
    unfold pending_ok. lia.
  - destruct (Z.leb_spec 224 v) as [_|]; [|lia]. cbn [andb].
    destruct (Z.leb_spec v 239) as [H239|H239].
    + right. do 4 eexists. split; [reflexivity|].
      change 15 with (Z.ones 4). rewrite (land_low_bits v 4 224) by (reflexivity || lia).
      unfold pending_ok.
      destruct (Z.eqb_spec v 224); destruct (Z.eqb_spec v 237); lia.
    + destruct (Z.leb_spec 240 v) as [_|]; [|lia]. cbn [andb].
      destruct (Z.leb_spec v 244) as [H244|H244]; [|now left].
      right. do 4 eexists. split; [reflexivity|].
      change 7 with (Z.ones 3). rewrite (land_low_bits v 3 240) by (reflexivity || lia).
      unfold pending_ok.
      destruct (Z.eqb_spec v 240); destruct (Z.eqb_spec v 244); lia.
Qed.

Lemma pending_head (bs : list byte) :
  forall needed cp lower upper,
    pending_ok needed cp lower upper ->
    exists u rest,
      code_points (Pending needed cp lower upper) bs = u :: rest /\ 128 <= u.
Proof.
  induction bs as [|x bs IH]; intros needed cp lower upper Hok; cbn [code_points].
  - exists 65533, []. split; [reflexivity | lia].
  - destruct ((lower <=? byte_val x) && (byte_val x <=? upper)) eqn:Hin.
    + apply andb_true_iff in Hin. destruct Hin as [Hlo Hhi].
      apply Z.leb_le in Hlo, Hhi. unfold pending_ok in Hok.
      assert (Hland : Z.land (byte_val x) 63 = byte_val x - 128).
      { change 63 with (Z.ones 6). apply land_low_bits; [lia | reflexivity | lia]. }
      rewrite Hland.
      destruct (Z.eqb_spec needed 1) as [->|Hne].
      * eexists _, _. split; [reflexivity | lia].
      * apply IH. unfold pending_ok. lia.
    + destruct (lead (byte_val x)) as [out st].
      eexists _, _. split; [reflexivity | lia].
Qed.

Lemma toString_cons_ascii (x : byte) (bs : list byte) :
  byte_val x <= 127 -> toString (x :: bs) = byte_val x :: toString bs.
Proof.
  intros Hx. unfold toString. cbn [code_points]. rewrite lead_ascii by exact Hx.
  cbn [app flat_map]. unfold utf16 at 1.
  destruct (Z.ltb_spec (byte_val x) 65536); [reflexivity | lia].
Qed.

Lemma utf16_head (cp : Z) (more : jsstring) :
  128 <= cp -> exists u rest, utf16 cp ++ more = u :: rest /\ 128 <= u.
Proof.
  intros Hcp. unfold utf16. destruct (Z.ltb_spec cp 65536).
  - eexists _, _. split; [reflexivity | lia].
  - eexists _, _. split; [reflexivity|].
    assert (0 <= Z.shiftr (cp - 65536) 10) by (apply Z.shiftr_nonneg; lia). lia.
Qed.

(** The text of a byte above 127 starts with a code unit above 127. *)
Lemma toString_cons_high (x : byte) (bs : list byte) :
  127 < byte_val x -> exists u rest, toString (x :: bs) = u :: rest /\ 128 <= u.
Proof.
  intros Hx. unfold toString. cbn [code_points].
  destruct (lead_high (byte_val x) Hx) as [Hlead|(needed & cp & lower & upper & Hlead & Hok)];
    rewrite Hlead.
  - cbn [app flat_map]. apply utf16_head. lia.
  - cbn [app]. destruct (pending_head bs needed cp lower upper Hok) as (u & rest & Hrun & Hu).
    rewrite Hrun. cbn [flat_map]. apply utf16_head, Hu.
Qed.

(** ASCII characters at the head of the text are bytes of the buffer. *)
Lemma ascii_prefix_bytes (us : jsstring) :
  Forall (fun u => u <= 127) us ->
  forall bs rest,
    toString bs = us ++ rest -> map byte_val (firstn (List.length us) bs) = us.
Proof.
  induction 1 as [|u us Hu _ IH]; intros bs rest Htext; [reflexivity|].
  destruct bs as [|x bs]; [discriminate Htext|].
  destruct (Z_le_gt_dec (byte_val x) 127) as [Hx|Hx].
  - rewrite toString_cons_ascii in Htext by exact Hx.
    injection Htext as Hhead Htext. cbn [List.length firstn map].
    now rewrite Hhead, (IH bs rest Htext).
  - destruct (toString_cons_high x bs) as (u' & rest' & Hhead & Hu'); [lia|].
    rewrite Hhead in Htext. injection Htext as -> _. lia.
Qed.

Lemma digits_ascii (ds : jsstring) :
  forallb is_digit ds = true -> Forall (fun u => u <= 127) ds.
Proof.
  intros H. apply Forall_forall. intros c Hc.
  rewrite forallb_forall in H. specialize (H c Hc). unfold is_digit in H.
  apply andb_true_iff in H. destruct H as [_ H]. apply Z.leb_le in H. lia.
Qed.

Lemma magic_ascii : Forall (fun u => u <= 127) (lit "noteSN_FILE_VER_").
Proof.
  apply Forall_forall. intros c Hc. vm_compute in Hc.
  repeat (destruct Hc as [<-|Hc]; [lia|]). contradiction.
Qed.

Lemma signature_text_ascii (ds : jsstring) :
  forallb is_digit ds = true ->
  Forall (fun u => u <= 127) (lit "noteSN_FILE_VER_" ++ ds).
Proof.
  intros H. apply Forall_app. split; [apply magic_ascii | apply digits_ascii, H].
Qed.

(** The test of [_parseSignature] on the text is a test on the bytes. *)
Lemma signature_test_bytes (b : buffer) :
  signature_test (toString_range b 0 24) = true <-> signature_bytes b.
Proof.
  change (toString_range b 0 24) with (toString (firstn 24 b)).
  rewrite signature_test_spec. unfold matches_signature, signature_bytes. split.
  - intros (ds & rest & Htext & Hlen & Hdigits). exists ds.
    split; [exact Hlen|]. split; [exact Hdigits|].
    rewrite app_assoc in Htext.
    pose proof (ascii_prefix_bytes (lit "noteSN_FILE_VER_" ++ ds)
                  (signature_text_ascii ds Hdigits) (firstn 24 b) rest Htext) as Hbytes.
    rewrite length_app, Hlen, firstn_firstn in Hbytes. exact Hbytes.
  - intros (ds & Hlen & Hdigits & Hbytes). exists ds, [].
    split; [|auto]. rewrite app_nil_r, <- Hbytes. apply toString_ascii.
    assert (Hall : Forall (fun u => u <= 127) (map byte_val (firstn 24 b))).
    { rewrite Hbytes. apply signature_text_ascii, Hdigits. }
    exact (proj1 (Forall_map byte_val (fun u => u <= 127) (firstn 24 b)) Hall).
Qed.

(** X8: the signature is a condition on bytes.  The constructor stops with
    [SignatureMismatch] exactly when the first 24 bytes of the buffer are not
    the ASCII characters [noteSN_FILE_VER_] followed by eight ASCII digits; a
    buffer for which a document is returned has at least 24 bytes, and the
    signature of the document is the text of its first 24 bytes. *)
Theorem constructor_signature_bytes (b : buffer) :
  (constructor b = Abort SignatureMismatch <-> ~ signature_bytes b) /\
  (forall d, constructor b = Ok d ->
     signature_bytes b /\ 24 <= buf_length b /\
     signature d = Some (map byte_val (firstn 24 b))).
Proof.
  unfold constructor.
  destruct (signature_test (toString_range b 0 24)) eqn:Htest.
  - assert (Hbytes : signature_bytes b) by (apply signature_test_bytes, Htest).
    split.
    + split; [|contradiction]. intros H.
      exfalso. apply (parseBuffer_past blank b Htest), H.
    + intros d Hd. apply parseBuffer_Ok in Hd. destruct Hd as (_ & Hsig & _).
      split; [exact Hbytes|]. destruct Hbytes as (ds & Hlen & Hdigits & Hmap).
      assert (Hsize : List.length (firstn 24 b) = 24%nat).
      { rewrite <- (length_map byte_val), Hmap, length_app, Hlen. reflexivity. }
      split.
      * rewrite length_firstn in Hsize. unfold buf_length. lia.
      * rewrite Hsig. f_equal.
        change (toString_range b 0 24) with (toString (firstn 24 b)).
        apply toString_ascii.
        assert (Hall : Forall (fun u => u <= 127) (map byte_val (firstn 24 b))).
        { rewrite Hmap. apply signature_text_ascii, Hdigits. }
        exact (proj1 (Forall_map byte_val (fun u => u <= 127) (firstn 24 b)) Hall).
  - assert (Hbytes : ~ signature_bytes b).
    { intros H. apply signature_test_bytes in H. congruence. }
    rewrite (parseBuffer_mismatch blank b Htest). split.
    + split; auto.
    + intros d Hd. discriminate Hd.
Qed.

Lemma constructor_signature_bytes_witness :
  signature_bytes feature_file /\ 24 <= buf_length feature_file.
Proof.
  eassert (Hrun : constructor feature_file = Ok _) by (vm_compute; reflexivity).
  destruct (constructor_signature_bytes feature_file) as [_ Hok].
  destruct (Hok _ Hrun) as (Hbytes & Hsize & _). auto.
Defined.

(** ** The stages of the constructor *)

Lemma defined_Ok {A : Type} (v : option A) (a : A) : defined v = Ok a -> v = Some a.
Proof. destruct v; simpl; congruence. Qed.

(** A returned document is assembled stage by stage. *)
Lemma constructor_assembled (b : buffer) (d : SupernoteX) :
  constructor b = Ok d -> assembled b d.
Proof.
  unfold constructor, _parseBuffer. intros H.
  apply bind_Ok in H. destruct H as (t1 & H1 & H).
  apply bind_Ok in H. destruct H as ([t2 r] & H2 & H).
  apply bind_Ok in H. destruct H as (t3 & H3 & H).
  apply bind_Ok in H. destruct H as (t4 & H4 & H).
  apply bind_Ok in H. destruct H as (t5 & H5 & H).
  apply bind_Ok in H. destruct H as (t6 & H6 & H).
  apply bind_Ok in H. destruct H as (t7 & H7 & H).
  injection H as <-.
  apply parseSignature_Ok in H1. destruct H1 as [_ ->].
  (* footer *)
  apply parseFooter_at_Ok in H2. destruct H2 as [H2 _].
  pose proof (parseFooter_filled _ _ _ H2) as (f & Hf & Hfooter).
  apply parseFooter_Ok in H2. destruct H2 as [f' ->].
  cbn in Hf. injection Hf as ->.
  (* header *)
  pose proof (parseHeader_filled _ _ _ H3) as (f0 & h & Hf0 & Hh & Hheader).
  apply parseHeader_Ok in H3. destruct H3 as [h' ->].
  cbn in Hf0, Hh. injection Hf0 as <-. injection Hh as ->.
  (* pages *)
  unfold _parsePages in H4.
  apply bind_Ok in H4. destruct H4 as (f0 & Hf0 & H4).
  apply bind_Ok in H4. destruct H4 as (pageGroup & Hpage & H4).
  apply bind_Ok in H4. destruct H4 as (u & _ & H4).
  apply bind_Ok in H4. destruct H4 as (ps & Hpages & H4).
  injection H4 as <-. apply defined_Ok in Hf0, Hpage.
  cbn in Hf0. injection Hf0 as <-.
  (* cover *)
  unfold _parseCover in H5.
  apply bind_Ok in H5. destruct H5 as (f0 & Hf0 & H5).
  apply bind_Ok in H5. destruct H5 as (coverGroup & Hcover & H5).
  apply defined_Ok in Hf0, Hcover. cbn in Hf0. injection Hf0 as <-.
  assert (Hcov : cover_of b coverGroup (cover t5) /\
                 (pageWidth t5, pageHeight t5, addressSize t5, defaultLayers t5)
                 = (pageWidth blank, pageHeight blank, addressSize blank,
                    defaultLayers blank) /\
                 footer t5 = Some f /\ lengthFieldSize t5 = 4 /\
                 signature t5 = Some (toString_range b 0 24) /\
                 header t5 = Some h /\ pages t5 = Some ps).
  { unfold cover_of. cbv zeta in H5.
    destruct (positive (cover_address coverGroup)) eqn:Hpos.
    - apply bind_Ok in H5. destruct H5 as (bitmap & Hbitmap & H5).
      injection H5 as <-. cbn. split; [|auto 10].
      cbn in Hbitmap.
      destruct bitmap as [content|]; [eauto|].
      apply getContentAtAddress_null in Hbitmap.
      rewrite Hbitmap in Hpos. discriminate Hpos.
    - injection H5 as <-. cbn. auto 10. }
  destruct Hcov as (Hcov & Hc5 & Hf5 & Hl5 & Hs5 & Hh5 & Hp5).
  injection Hc5 as Hw5 Hg5 Ha5 Hd5.
  (* keywords *)
  unfold _parseKeywords in H6.
  apply bind_Ok in H6. destruct H6 as (f0 & Hf0 & H6).
  apply bind_Ok in H6. destruct H6 as (keywordGroup & Hkeyword & H6).
  apply bind_Ok in H6. destruct H6 as (u1 & _ & H6).
  apply bind_Ok in H6. destruct H6 as (ks & Hks & H6).
  injection H6 as <-. apply defined_Ok in Hf0, Hkeyword.
  rewrite Hf5 in Hf0. injection Hf0 as <-.
  (* titles *)
  unfold _parseTitles in H7.
  apply bind_Ok in H7. destruct H7 as (f0 & Hf0 & H7).
  apply bind_Ok in H7. destruct H7 as (titleGroup & Htitle & H7).
  apply bind_Ok in H7. destruct H7 as (u2 & _ & H7).
  apply bind_Ok in H7. destruct H7 as (ts & Hts & H7).
  injection H7 as <-. apply defined_Ok in Hf0, Htitle.
  cbn in Hf0. rewrite Hf5 in Hf0. injection Hf0 as <-.
  exists f, h, ps, ks, ts, pageGroup, coverGroup, keywordGroup, titleGroup.
  cbn [signature footer header pages keywords titles cover set_titles set_keywords
       pageWidth pageHeight addressSize lengthFieldSize defaultLayers].
  rewrite Hw5, Hg5, Ha5, Hd5, Hl5.
  repeat split; try assumption; try reflexivity.
  - unfold _parseKeyword in Hks |- *. rewrite Hl5 in Hks. exact Hks.
  - unfold _parseTitle in Hts |- *. cbn [lengthFieldSize set_keywords] in Hts.
    rewrite Hl5 in Hts. exact Hts.
Qed.

(** ** C1: all or nothing *)

Lemma cover_of_present (b : buffer) (group : obj jsstring) (c : option ICover) :
  cover_of b group c ->
  (c <> None <-> exists a, cover_address group = Int a /\ 0 < a).
Proof.
  unfold cover_of.
  destruct (cover_address group) as [|a|[|]]; cbn [positive negb].
  - intros ->. split; [congruence | intros (a & Ha & _); discriminate].
  - destruct (Z.ltb_spec 0 a) as [Hpos|Hneg].
    + intros (content & _ & ->). split; [eauto | discriminate].
    + intros ->. split; [congruence|].
      intros (a' & Ha' & Hpos). injection Ha' as <-. lia.
  - intros ->. split; [congruence | intros (a & Ha & _); discriminate].
  - intros (content & Hget & _).
    unfold getContentAtAddress, readUIntLE in Hget. cbn in Hget. discriminate Hget.
Qed.

(** C1, as amended: the constructor returns a document only when the
    signature matches, and then signature, footer, header, pages, keywords
    and titles are all assigned, and the cover is assigned exactly when the
    footer gives a positive cover address; it stops with [SignatureMismatch]
    only when the signature does not match; the other ways of stopping, a
    [RangeError] or a [TypeError] of the runtime, happen with a matching
    signature.  Nothing is returned when it stops. *)
Theorem constructor_all_or_nothing (b : buffer) :
  match constructor b with
  | Ok d =>
      matches_signature (toString_range b 0 24) /\
      signature d = Some (toString_range b 0 24) /\
      populated d /\
      exists f group,
        footer d = Some f /\ get_own (lit "COVER") f = Some group /\
        (cover d <> None <-> exists a, cover_address group = Int a /\ 0 < a)
  | Abort SignatureMismatch => ~ matches_signature (toString_range b 0 24)
  | Abort RangeError | Abort TypeError => matches_signature (toString_range b 0 24)
  end.
Proof.
  destruct (signature_test (toString_range b 0 24)) eqn:Htest.
  - assert (Hsig : matches_signature (toString_range b 0 24))
      by (apply signature_test_spec, Htest).
    pose proof (parseBuffer_past blank b Htest) as Hpast.
    destruct (constructor b) as [d|e] eqn:Hrun.
    + pose proof (constructor_assembled b d Hrun) as Hall.
      unfold constructor in Hrun. apply parseBuffer_Ok in Hrun.
      destruct Hrun as (_ & Hsignature & Hpopulated).
      destruct Hall as (f & h & ps & ks & ts & pageGroup & coverGroup & keywordGroup
                        & titleGroup & _ & _ & Hf & _ & _ & _ & _ & _ & _ & _ & _
                        & Hgroup & Hcover & _).
      split; [exact Hsig|]. split; [exact Hsignature|]. split; [exact Hpopulated|].
      exists f, coverGroup. split; [exact Hf|]. split; [exact Hgroup|].
      apply (cover_of_present b), Hcover.
    + unfold constructor in Hrun.
      destruct e; try exact Hsig. exfalso. apply Hpast. exact Hrun.
  - unfold constructor. rewrite (parseBuffer_mismatch blank b Htest).
    intros Hsig. apply signature_test_spec in Hsig. congruence.
Qed.

(** C1 as stated fails: the 24 bytes of a signature pass the signature
    test, their last four bytes are then read as the address of the footer,
    which lies far outside the buffer, and a [RangeError] escapes. *)
Lemma constructor_signature_only :
  constructor signature_only = Abort RangeError /\
  ~ ((exists d, constructor signature_only = Ok d) \/
     constructor signature_only = Abort SignatureMismatch).
Proof.
  assert (H : constructor signature_only = Abort RangeError) by (vm_compute; reflexivity).
  split; [exact H|]. rewrite H. intros [[d Hd]|Hs]; discriminate.
Qed.

(** ** Built-in names in a footer *)

Lemma indexOf_char_prefix (c : char) (s : jsstring) (idx : nat) :
  indexOf s [c] = Some idx -> ~ In c (firstn idx s).
Proof.
  revert idx. induction s as [|x s IH]; intros idx.
  - cbn. intros H. destruct idx; [intros [] | discriminate H].
  - cbn [indexOf startsWith].
    replace (startsWith s []) with true by (destruct s; reflexivity).
    destruct (Z.eqb_spec x c) as [->|Hne]; cbn [andb].
    + intros H. injection H as <-. intros [].
    + destruct (indexOf s [c]) as [i|] eqn:Hi; [|discriminate].
      intros H. injection H as <-. cbn [firstn]. intros [E|Hin]; [congruence|].
      exact (IH i eq_refl Hin).
Qed.

(** No group of a footer is named [__proto__]. *)
Lemma footer_main_plain (key main sub : jsstring) :
  main_sub key (lit "_") [lit "PAGE"] = (Some main, Some sub) ->
  str_eqb main (lit "__proto__") = false.
Proof.
  unfold main_sub. destruct (indexOf key (lit "_")) as [idx|] eqn:Hidx.
  - intros H. injection H as <- _. apply str_eqb_neq. intros E.
    apply (indexOf_char_prefix 95 key idx Hidx).
    unfold substring_to in E. rewrite E. left. reflexivity.
  - cbn [first_prefix]. destruct (startsWith key (lit "PAGE")); [|discriminate].
    intros H. injection H as <- _. reflexivity.
Qed.

(** The grouping of a footer leaves [Object.prototype] as it is. *)
Lemma footer_entry_prototype (data data' : nested) (r r' : realm)
  (entry : jsstring * value) :
  prototype_strings r = [] ->
  group_entry (lit "_") [lit "PAGE"] (data, r) entry = Ok (data', r') ->
  prototype_strings r' = [].
Proof.
  intros Hr. unfold group_entry. destruct entry as [key [s|l]].
  2:{ intros H. injection H as _ <-. exact Hr. }
  destruct (main_sub key (lit "_") [lit "PAGE"]) as [[main|] [sub|]] eqn:Hsplit;
    try (intros H; injection H as _ <-; exact Hr).
  destruct (truthy main && truthy sub);
    [|intros H; injection H as _ <-; exact Hr].
  destruct (js_in_at r main data); [|intros H; injection H as _ <-; exact Hr].
  destruct (get_own main data); [intros H; injection H as _ <-; exact Hr|].
  intros H. apply bind_Ok in H. destruct H as (r1 & Hwrite & H).
  injection H as _ <-. unfold builtin_write in Hwrite.
  rewrite (footer_main_plain key main sub Hsplit), Hr in Hwrite. cbn [get_own] in Hwrite.
  destruct (str_eqb sub (lit "__proto__")); [injection Hwrite as <-; exact Hr|].
  destruct (read_only main sub); [discriminate|].
  destruct (str_eqb main (lit "constructor")); injection Hwrite as <-;
    [reflexivity | exact Hr].
Qed.

Lemma parseFooter_at_prototype (this t : SupernoteX) (r : realm) (b : buffer) :
  _parseFooter_at this b = Ok (t, r) -> prototype_strings r = [].
Proof.
  unfold _parseFooter_at. intros H.
  apply bind_Ok in H. destruct H as (address & _ & H).
  apply bind_Ok in H. destruct H as (data & _ & H).
  apply bind_Ok in H. destruct H as ([groups r'] & Hgroups & H).
  injection H as _ <-. unfold extractNestedKeyValue_at in Hgroups.
  cbn [callable standard object_strings has_own get_own negb] in Hgroups.
  assert (Hgen : forall todo state state',
            prototype_strings (snd state) = [] ->
            foldM (group_entry (lit "_") [lit "PAGE"]) todo state = Ok state' ->
            prototype_strings (snd state') = []).
  { induction todo as [|entry todo IH]; intros state state' Hstate; cbn [foldM].
    - intros E. injection E as <-. exact Hstate.
    - intros E. apply bind_Ok in E. destruct E as ([data1 r1] & Hstep & Hrest).
      destruct state as [data0 r0].
      apply (IH (data1, r1) state'); [|exact Hrest].
      eapply footer_entry_prototype; [exact Hstate | exact Hstep]. }
  exact (Hgen data ([], standard) (groups, r') eq_refl Hgroups).
Qed.

(** A key filed under [constructor] is written to [Object] and leaves no
    trace in the footer: the document is returned. *)
Lemma constructor_builtin_group :
  exists d f,
    constructor builtin_file = Ok d /\
    footer d = Some f /\
    get_own (lit "constructor") f = None /\
    get_own (lit "FILE") f = Some [(lit "TYPE", lit "NOTE")].
Proof. vm_compute. do 2 eexists. repeat split. Qed.

(** A key that replaces [Object.keys] stops the page stage, and a key on a
    read-only property of [Object] stops the footer stage. *)
Lemma constructor_builtin_errors :
  (exists t r, _parseFooter_at blank keys_file = Ok (t, r) /\ callable "keys" r = false) /\
  constructor keys_file = Abort TypeError /\
  _parseFooter blank name_file = Abort TypeError /\
  constructor name_file = Abort TypeError.
Proof.
  split; [do 2 eexists; split; [vm_compute; reflexivity | reflexivity]|].
  repeat split; vm_compute; reflexivity.
Qed.

(** ** Pages *)









(** ** The cover *)



(** ** Keywords and titles *)

Lemma assign_distinct {V : Type} (o : obj V) (k : jsstring) (v : V) :
  distinct_keys o -> distinct_keys (assign k v o).
Proof.
  intros Hnd. unfold assign. destruct (has_own k o).
  - unfold distinct_keys. rewrite keys_update. exact Hnd.
  - destruct (str_eqb k (lit "__proto__")); [exact Hnd|].
    apply distinct_define, Hnd.
Qed.

Lemma group_entry_groups_distinct (delimiter : jsstring) (prefixes : list jsstring)
  (data data' : nested) (r r' : realm) (entry : jsstring * value) :
  (forall main group, In (main, group) data -> distinct_keys group) ->
  group_entry delimiter prefixes (data, r) entry = Ok (data', r') ->
  forall main group, In (main, group) data' -> distinct_keys group.
Proof.
  intros Hdata H. apply group_entry_Ok in H.
  destruct H as [->|(key & s & m & s0 & _ & _ & _ & _ & _ & Hcase)];
    [exact Hdata|].
  destruct Hcase as [(g & Hget & ->)|(_ & _ & _ & ->)]; intros main group Hin.
  - apply In_update in Hin. destruct Hin as [[-> ->]|Hin].
    + apply assign_distinct. eapply Hdata, get_own_In, Hget.
    + eapply Hdata, Hin.
  - apply In_define in Hin. destruct Hin as [[-> ->]|Hin].
    + apply distinct_define. constructor.
    + eapply Hdata, Hin.
Qed.

Lemma extractNestedKeyValue_groups_distinct (rec : record) (delimiter : jsstring)
  (prefixes : list jsstring) (out : nested) :
  extractNestedKeyValue rec delimiter prefixes = Ok out ->
  forall main group, In (main, group) out -> distinct_keys group.
Proof.
  intros H. apply extractNestedKeyValue_Ok in H. destruct H as [r H].
  apply (group_fold_invariant
           (fun data => forall main group, In (main, group) data -> distinct_keys group)
           delimiter prefixes
           (fun data r entry data' r' =>
              group_entry_groups_distinct _ _ data data' r r' entry)
           rec ([], standard) (out, r)); [intros main group [] | exact H].
Qed.

(** Every group of a footer has distinct keys. *)
Lemma footer_group_distinct (this : SupernoteX) (b : buffer) (f : IFooter)
  (name : jsstring) (group : obj jsstring) :
  footer_filled this b f -> get_own name f = Some group -> distinct_keys group.
Proof.
  intros (address & data & groups & _ & _ & Hgroups & Hmerge) Hget.
  rewrite Hmerge in Hget. destruct (get_own name groups) as [g|] eqn:Hg.
  - injection Hget as <-.
    eapply extractNestedKeyValue_groups_distinct; [exact Hgroups|].
    apply get_own_In, Hg.
  - apply get_own_In in Hget. simpl in Hget.
    repeat (destruct Hget as [E|Hget];
            [injection E as _ <-; repeat constructor; simpl; tauto|]).
    contradiction.
Qed.

(** The loop of [_parseKeywords] and [_parseTitles] over a group. *)
Lemma collect_fold {E : Type} (parse : number -> outcome E) (group : obj jsstring) :
  distinct_keys group ->
  forall acc out,
    (forall k, In k (keys group) -> get_own k acc = None) ->
    foldM (collect parse) group acc = Ok out ->
    forall key,
      match get_own key group with
      | Some v => exists e, parse (parseInt v) = Ok e /\ get_own key out = Some [e]
      | None => get_own key out = get_own key acc
      end.
Proof.
  unfold distinct_keys. induction group as [|[k v] group IH]; intros Hnd acc out Hfresh;
    cbn [foldM].
  - intros H. injection H as <-. intros key. reflexivity.
  - inversion Hnd as [|? ? Hnotin Hnd']; subst.
    intros H. apply bind_Ok in H. destruct H as (acc' & Hstep & Hrest).
    unfold collect in Hstep.
    assert (Hk : get_own k acc = None) by (apply Hfresh; now left).
    unfold js_in, has_own in Hstep. rewrite Hk in Hstep. cbn [orb] in Hstep.
    destruct (inherited k).
    { apply bind_Ok in Hstep. destruct Hstep as (e & _ & Hstep).
      rewrite Hk in Hstep. discriminate Hstep. }
    apply bind_Ok in Hstep. destruct Hstep as (e & He & Hstep).
    rewrite get_own_define, str_eqb_refl in Hstep. injection Hstep as <-.
    assert (Hacc' : forall key,
              get_own key (update k ([] ++ [e]) (define k [] acc))
              = if str_eqb k key then Some [e] else get_own key acc).
    { intros key. rewrite get_own_update, get_own_define.
      unfold has_own. rewrite get_own_define, str_eqb_refl.
      destruct (str_eqb k key); reflexivity. }
    assert (Hfresh' : forall k', In k' (keys group) ->
              get_own k' (update k ([] ++ [e]) (define k [] acc)) = None).
    { intros k' Hin. rewrite Hacc'. destruct (str_eqb k k') eqn:Ek.
      - apply str_eqb_eq in Ek. subst k'. contradiction.
      - apply Hfresh. now right. }
    intros key. specialize (IH Hnd' _ out Hfresh' Hrest key).
    cbn [get_own]. destruct (str_eqb k key) eqn:Ek.
    + apply str_eqb_eq in Ek. subst key.
      apply get_own_None_keys in Hnotin. rewrite Hnotin in IH.
      exists e. split; [exact He|]. rewrite IH, Hacc', str_eqb_refl. reflexivity.
    + destruct (get_own key group); [exact IH|].
      rewrite IH, Hacc', Ek. reflexivity.
Qed.

(** X11: keywords and titles of a document.  Every key of the KEYWORD group
    of the footer has exactly one keyword, parsed at the address the footer
    gives for the key, and there is no other category; the same holds of the
    TITLE group and the titles. *)
Theorem constructor_entries (b : buffer) (d : SupernoteX) :
  constructor b = Ok d ->
  exists f keywordGroup titleGroup ks ts,
    footer d = Some f /\
    get_own (lit "KEYWORD") f = Some keywordGroup /\
    get_own (lit "TITLE") f = Some titleGroup /\
    keywords d = Some ks /\ titles d = Some ts /\
    one_entry_each (_parseKeyword blank b) keywordGroup ks /\
    one_entry_each (_parseTitle blank b) titleGroup ts.
Proof.
  intros Hd. apply constructor_assembled in Hd.
  destruct Hd as (f & h & ps & ks & ts & pageGroup & coverGroup & keywordGroup
                  & titleGroup & _ & _ & Hf & _ & _ & Hks & Hts & Hfooter & _ & _ & _
                  & _ & _ & Hkg & Hkfold & Htg & Htfold).
  exists f, keywordGroup, titleGroup, ks, ts.
  repeat (split; [assumption|]). split.
  - intros key.
    pose proof (collect_fold _ keywordGroup
                  (footer_group_distinct _ _ _ _ _ Hfooter Hkg) [] ks
                  (fun _ _ => eq_refl) Hkfold key) as H.
    destruct (get_own key keywordGroup); exact H.
  - intros key.
    pose proof (collect_fold _ titleGroup
                  (footer_group_distinct _ _ _ _ _ Hfooter Htg) [] ts
                  (fun _ _ => eq_refl) Htfold key) as H.
    destruct (get_own key titleGroup); exact H.
Qed.

Lemma constructor_entries_witness :
  exists kw title,
    _parseKeyword blank keyword_file (Int 28) = Ok kw /\
    _parseTitle blank keyword_file (Int 28) = Ok title.
Proof.
  eassert (Hrun : constructor keyword_file = Ok _) by (vm_compute; reflexivity).
  destruct (constructor_entries keyword_file _ Hrun)
    as (f & kg & tg & ks & ts & Hf & Hkg & Htg & _ & _ & Hk & Ht).
  vm_compute in Hf. injection Hf as <-.
  vm_compute in Hkg. injection Hkg as <-.
  vm_compute in Htg. injection Htg as <-.
  specialize (Hk (lit "k")). specialize (Ht (lit "t")).
  change (get_own (lit "k") [(lit "k", lit "28")]) with (Some (lit "28")) in Hk.
  change (get_own (lit "t") [(lit "t", lit "28")]) with (Some (lit "28")) in Ht.
  destruct Hk as (kw & Hkw & _). destruct Ht as (title & Htitle & _).
  exists kw, title. split; [exact Hkw | exact Htitle].
Defined.

(** ** Layers of a page *)

(** A layer read at address 0 is the placeholder. *)
Lemma parseLayer_absent (this : SupernoteX) (b : buffer) :
  _parseLayer this b (Int 0) = Ok absent_layer.
Proof. reflexivity. Qed.

Lemma address_field_absent (data : record) (key : string) :
  get_own (lit key) data = None -> address_field data key = Int 0.
Proof. intros H. unfold address_field. rewrite H. reflexivity. Qed.

(** X12: placeholder layers.  A page always has its five layer slots; a slot
    whose key is absent from the text of the page block (or whose address
    reads as 0) holds the placeholder layer: the layer defaults and a [null]
    bitmap, whatever the buffer. *)
Theorem parsePage_absent_layers (this : SupernoteX) (b : buffer)
  (group : obj jsstring) (idx : jsstring) (page : IPage) :
  parsePage this b group idx = Ok page ->
  exists data,
    parseKeyValue b (parseInt (or_default (get_own idx group) (lit "undefined")))
      (lengthFieldSize this) = Ok data /\
    forall slot,
      In slot ["MAINLAYER"; "LAYER1"; "LAYER2"; "LAYER3"; "BGLAYER"]%string ->
      (exists layer, get_own (lit slot) page = Some (PLayer layer)) /\
      (address_field data slot = Int 0 ->
       get_own (lit slot) page = Some (PLayer absent_layer)) /\
      (get_own (lit slot) data = None ->
       get_own (lit slot) page = Some (PLayer absent_layer)).
Proof.
  unfold parsePage. intros H.
  apply bind_Ok in H. destruct H as (data & Hdata & H).
  apply bind_Ok in H. destruct H as (main & Hmain & H).
  apply bind_Ok in H. destruct H as (l1 & Hl1 & H).
  apply bind_Ok in H. destruct H as (l2 & Hl2 & H).
  apply bind_Ok in H. destruct H as (l3 & Hl3 & H).
  apply bind_Ok in H. destruct H as (bg & Hbg & H).
  apply bind_Ok in H. destruct H as (infos & _ & H).
  apply bind_Ok in H. destruct H as (seq & _ & H).
  apply bind_Ok in H. destruct H as (path & _ & H).
  injection H as <-.
  exists data. split; [exact Hdata|].
  assert (Hzero : forall slot layer,
            _parseLayer this b (address_field data slot) = Ok layer ->
            address_field data slot = Int 0 -> layer = absent_layer).
  { intros slot layer Hrun Haddr. rewrite Haddr, parseLayer_absent in Hrun.
    congruence. }
  intros slot Hin. simpl in Hin.
  destruct Hin as [<-|[<-|[<-|[<-|[<-|[]]]]]];
    (split; [eexists; lookup_define; reflexivity|]);
    (split; [intros Haddr | intros Habsent; apply address_field_absent in Habsent;
                            rename Habsent into Haddr]);
    lookup_define;
    first [ rewrite (Hzero _ _ Hmain Haddr) | rewrite (Hzero _ _ Hl1 Haddr)
          | rewrite (Hzero _ _ Hl2 Haddr) | rewrite (Hzero _ _ Hl3 Haddr)
          | rewrite (Hzero _ _ Hbg Haddr) ];
    reflexivity.
Qed.

Lemma parsePage_absent_layers_witness :
  exists page,
    parsePage blank page_file [(lit "1", lit "28")] (lit "1") = Ok page /\
    get_own (lit "LAYER2") page = Some (PLayer absent_layer).
Proof.
  eassert (Hrun : parsePage blank page_file [(lit "1", lit "28")] (lit "1") = Ok _)
    by (vm_compute; reflexivity).
  destruct (parsePage_absent_layers _ _ _ _ _ Hrun) as (data & Hdata & Hslots).
  eexists. split; [exact Hrun|].
  destruct (Hslots "LAYER2"%string) as (_ & _ & Habsent);
    [right; right; left; reflexivity|].
  apply Habsent.
  vm_compute in Hdata. injection Hdata as <-. reflexivity.
Defined.

(** ** LAYERINFO and LAYERSEQ of a page *)

Lemma split_nonempty (sep : char) (s : jsstring) : split sep s <> [].
Proof.
  induction s as [|c s IH]; simpl; [discriminate|].
  destruct (c =? sep); [discriminate|].
  destruct (split sep s); [contradiction | discriminate].
Qed.

(** Joining the pieces of a split gives the text back. *)
Lemma join_split (sep : char) (s : jsstring) : join sep (split sep s) = s.
Proof.
  induction s as [|c s IH]; [reflexivity|]. cbn [split].
  pose proof (split_nonempty sep s) as Hne.
  destruct (Z.eqb_spec c sep) as [->|Hc].
  - destruct (split sep s) as [|piece pieces]; [contradiction|].
    cbn [join app] in *. now rewrite IH.
  - destruct (split sep s) as [|piece pieces]; [contradiction|].
    destruct pieces; cbn [join app] in *; now rewrite IH.
Qed.

Lemma split_pieces (sep : char) (s : jsstring) :
  Forall (fun piece => ~ In sep piece) (split sep s).
Proof.
  induction s as [|c s IH]; cbn [split].
  - repeat constructor. intros [].
  - destruct (Z.eqb_spec c sep) as [->|Hc].
    + constructor; [intros [] | exact IH].
    + destruct (split sep s) as [|piece pieces]; [repeat constructor; simpl; tauto|].
      inversion IH; subst. constructor; [|assumption].
      simpl. intros [E|Hin]; [congruence | contradiction].
Qed.

(** X13: LAYERINFO and LAYERSEQ are required.  A page is returned only when
    the record of its block holds LAYERINFO and LAYERSEQ, each as one string
    (an absent key and a repeated key, which is stored as an array, both
    throw); the page then holds the layer records of the LAYERINFO text, and
    the pieces of the LAYERSEQ text between its commas: pieces without a comma
    that, joined by commas, give the text back. *)
Theorem parsePage_layer_fields (this : SupernoteX) (b : buffer)
  (group : obj jsstring) (idx : jsstring) (page : IPage) :
  parsePage this b group idx = Ok page ->
  exists data info seq,
    parseKeyValue b (parseInt (or_default (get_own idx group) (lit "undefined")))
      (lengthFieldSize this) = Ok data /\
    get_own (lit "LAYERINFO") data = Some (VStr info) /\
    get_own (lit "LAYERSEQ") data = Some (VStr seq) /\
    get_own (lit "LAYERINFO") page = Some (PLayerInfo (extractLayerInfo info)) /\
    exists pieces,
      get_own (lit "LAYERSEQ") page = Some (PLayerSeq pieces) /\
      join 44 pieces = seq /\ Forall (fun piece => ~ In 44 piece) pieces.
Proof.
  unfold parsePage. intros H.
  apply bind_Ok in H. destruct H as (data & Hdata & H).
  apply bind_Ok in H. destruct H as (main & _ & H).
  apply bind_Ok in H. destruct H as (l1 & _ & H).
  apply bind_Ok in H. destruct H as (l2 & _ & H).
  apply bind_Ok in H. destruct H as (l3 & _ & H).
  apply bind_Ok in H. destruct H as (bg & _ & H).
  apply bind_Ok in H. destruct H as (infos & Hinfos & H).
  apply bind_Ok in H. destruct H as (seq & Hseq & H).
  apply bind_Ok in H. destruct H as (path & _ & H).
  injection H as <-.
  unfold page_layerInfo in Hinfos. unfold page_layerSeq in Hseq.
  destruct (get_own (lit "LAYERINFO") data) as [[info|]|] eqn:Hinfo;
    try discriminate Hinfos.
  destruct (get_own (lit "LAYERSEQ") data) as [[text|]|] eqn:Htext;
    try discriminate Hseq.
  injection Hinfos as <-. injection Hseq as <-.
  exists data, info, text. split; [exact Hdata|].
  split; [exact Hinfo|]. split; [exact Htext|].
  split; [lookup_define; reflexivity|].
  exists (split 44 text). split; [lookup_define; reflexivity|].
  split; [apply join_split | apply split_pieces].
Qed.

Lemma parsePage_layer_fields_witness :
  exists data,
    parseKeyValue page_file (Int 28) 4 = Ok data /\
    get_own (lit "LAYERSEQ") data = Some (VStr (lit "MAINLAYER,BGLAYER")).
Proof.
  eassert (Hrun : parsePage blank page_file [(lit "1", lit "28")] (lit "1") = Ok _)
    by (vm_compute; reflexivity).
  destruct (parsePage_layer_fields _ _ _ _ _ Hrun)
    as (data & info & seq & Hdata & _ & Hseq & _).
  exists data. split; [exact Hdata|].
  rewrite Hseq. vm_compute in Hdata. injection Hdata as <-.
  vm_compute in Hseq. injection Hseq as <-. reflexivity.
Defined.

(** ** The footer block *)

Lemma footer_address_chunk (prefix : buffer) (n : Z) :
  subarray (prefix ++ uint32 n)
    (Int (buf_length (prefix ++ uint32 n) - 4)) (Int (buf_length (prefix ++ uint32 n)))
  = uint32 n.
Proof.
  set (b := prefix ++ uint32 n).
  assert (Hlen : buf_length b = Z.of_nat (List.length prefix) + 4).
  { unfold b, buf_length. rewrite length_app. simpl. lia. }
  replace (Int (buf_length b)) with (Int (buf_length b - 4 + 4)) by (f_equal; lia).
  rewrite subarray_slice by lia.
  replace (Z.to_nat (buf_length b - 4)) with (List.length prefix) by lia.
  unfold b. rewrite skipn_prefix. reflexivity.
Qed.

(** X14: reading the footer of a laid-out file.  When the last four bytes of
    the file hold, little-endian, the address of a block of ASCII text, the
    footer stage reads exactly that text: it groups the tags of the text on
    the underscore (and on the PAGE prefix) and lays the groups over the
    default footer; it fails exactly when extraction or grouping of that
    text fails. *)
Theorem parseFooter_block (this : SupernoteX) (before middle : buffer)
  (text : jsstring) :
  addressSize this = 4 -> lengthFieldSize this = 4 ->
  (0 < List.length before)%nat ->
  buf_length before < 2 ^ 32 ->
  Z.of_nat (List.length text) < 2 ^ 32 ->
  Forall (fun c => 0 <= c < 128) text ->
  _parseFooter this (before ++ block text ++ middle ++ uint32 (buf_length before))
  = (data <- extractKeyValue text ;;
     nested <- extractNestedKeyValue data (lit "_") [lit "PAGE"] ;;
     Ok (set_footer (spread nested footer_defaults) this)).
Proof.
  intros Ha Hl Hbefore Hn Hlen Htext. unfold _parseFooter, _parseFooter_at.
  rewrite Ha, Hl.
  set (n := buf_length before) in *.
  replace (before ++ block text ++ middle ++ uint32 n)
    with ((before ++ block text ++ middle) ++ uint32 n)
    by (now rewrite <- !app_assoc).
  rewrite footer_address_chunk.
  rewrite readUIntLE_inside; [|lia|lia|unfold buf_length; simpl; lia].
  assert (Hfield : length_field (uint32 n) 0 4 = n).
  { unfold length_field. change (firstn (Z.to_nat 4) (skipn (Z.to_nat 0) (uint32 n)))
      with (uint32 n). apply le_value_uint32. unfold n, buf_length in *. lia. }
  rewrite Hfield. cbn [bind].
  replace ((before ++ block text ++ middle) ++ uint32 n)
    with (before ++ block text ++ middle ++ uint32 n)
    by (now rewrite <- !app_assoc).
  unfold n.
  rewrite (parseKeyValue_of_block before (middle ++ uint32 (buf_length before)) text
             Hbefore Hlen Htext).
  destruct (extractKeyValue text) as [data|e]; [|reflexivity].
  cbn [bind]. unfold extractNestedKeyValue.
  destruct (extractNestedKeyValue_at standard data (lit "_") [lit "PAGE"])
    as [[groups r]|e]; reflexivity.
Qed.

Lemma parseFooter_block_witness :
  exists this,
    _parseFooter blank feature_file = Ok this /\
    footer this = Some feature_footer.
Proof.
  pose proof (parseFooter_block blank (ascii_bytes magic ++ block []) []
                (lit "<FILE_TYPE:NOTE>")) as H.
  eexists. split.
  - change feature_file
      with ((ascii_bytes magic ++ block []) ++ block (lit "<FILE_TYPE:NOTE>") ++ []
            ++ uint32 (buf_length (ascii_bytes magic ++ block []))).
    rewrite H.
    + vm_compute. reflexivity.
    + reflexivity.
    + reflexivity.
    + simpl. lia.
    + vm_compute. reflexivity.
    + vm_compute. reflexivity.
    + apply Forall_forall. intros c Hc. vm_compute in Hc.
      repeat (destruct Hc as [<-|Hc]; [lia|]). contradiction.
  - reflexivity.
Defined.

(** ** The buffers stored in a document *)

Lemma subarray_part (b : buffer) (start stop : number) :
  exists before after, b = before ++ subarray b start stop ++ after.
Proof.
  unfold subarray.
  set (s := Z.to_nat (clamp (buf_length b) start)).
  set (n := Z.to_nat (_ - _)).
  exists (firstn s b), (skipn n (skipn s b)).
  now rewrite !firstn_skipn.
Qed.

Lemma getContentAtAddress_stored (b : buffer) (address : number) (w : Z)
  (stored : option buffer) :
  getContentAtAddress b address w = Ok stored -> stored_at b address w stored.
Proof.
  intros H. split; [exact H|]. split; [split|].
  - intros ->. eapply getContentAtAddress_null, H.
  - intros ->. unfold getContentAtAddress in H. cbn [is_zero] in H. congruence.
  - intros content ->. unfold getContentAtAddress in H.
    destruct (is_zero address); [discriminate|].
    apply bind_Ok in H. destruct H as (len & _ & H). injection H as <-.
    apply subarray_part.
Qed.

(** X15: the buffers of a document come from the file.  The bitmap of a
    layer, of a title and of a keyword, and the path buffer of a page, are
    what [getContentAtAddress] gives at the address that the text of the
    block has in LAYERBITMAP, TITLEBITMAP, KEYWORDSITE and TOTALPATH
    (0 when the key is absent): [null] exactly when that address is 0, and
    otherwise a part of the file. *)
Theorem stored_buffers (this : SupernoteX) (b : buffer) :
  (forall address layer, _parseLayer this b address = Ok layer ->
     exists data bitmap,
       parseKeyValue b address (lengthFieldSize this) = Ok data /\
       get_own (lit "bitmapBuffer") layer = Some (FBuf bitmap) /\
       stored_at b (address_field data "LAYERBITMAP") (lengthFieldSize this) bitmap) /\
  (forall address title, _parseTitle this b address = Ok title ->
     exists data bitmap,
       parseKeyValue b address (lengthFieldSize this) = Ok data /\
       get_own (lit "bitmapBuffer") title = Some (FBuf bitmap) /\
       stored_at b (address_field data "TITLEBITMAP") (lengthFieldSize this) bitmap) /\
  (forall address kw, _parseKeyword this b address = Ok kw ->
     exists data,
       parseKeyValue b address (lengthFieldSize this) = Ok data /\
       stored_at b (address_field data "KEYWORDSITE") (lengthFieldSize this)
         (keyword_bitmapBuffer kw)) /\
  (forall group idx page, parsePage this b group idx = Ok page ->
     exists data path,
       parseKeyValue b (parseInt (or_default (get_own idx group) (lit "undefined")))
         (lengthFieldSize this) = Ok data /\
       get_own (lit "totalPathBuffer") page = Some (PBuf path) /\
       stored_at b (address_field data "TOTALPATH") (lengthFieldSize this) path).
Proof.
  split; [|split; [|split]].
  - intros address layer H. apply parseLayer_filled in H.
    destruct H as (data & bitmap & Hdata & Hget & _ & Hown).
    exists data, bitmap. auto using getContentAtAddress_stored.
  - intros address title H. apply parseTitle_filled in H.
    destruct H as (data & bitmap & Hdata & Hget & _ & Hown).
    exists data, bitmap. auto using getContentAtAddress_stored.
  - intros address kw H. unfold _parseKeyword in H.
    apply bind_Ok in H. destruct H as (data & Hdata & H).
    apply bind_Ok in H. destruct H as (bitmap & Hget & H).
    injection H as <-. exists data. cbn [keyword_bitmapBuffer].
    auto using getContentAtAddress_stored.
  - intros group idx page H. unfold parsePage in H.
    apply bind_Ok in H. destruct H as (data & Hdata & H).
    apply bind_Ok in H. destruct H as (main & _ & H).
    apply bind_Ok in H. destruct H as (l1 & _ & H).
    apply bind_Ok in H. destruct H as (l2 & _ & H).
    apply bind_Ok in H. destruct H as (l3 & _ & H).
    apply bind_Ok in H. destruct H as (bg & _ & H).
    apply bind_Ok in H. destruct H as (infos & _ & H).
    apply bind_Ok in H. destruct H as (seq & _ & H).
    apply bind_Ok in H. destruct H as (path & Hget & H).
    injection H as <-. exists data, path.
    split; [exact Hdata|]. split; [lookup_define; reflexivity|].
    apply getContentAtAddress_stored, Hget.
Qed.

Lemma stored_buffers_witness :
  exists layer kw before after,
    _parseLayer blank bitmap_file (Int 28) = Ok layer /\
    get_own (lit "bitmapBuffer") layer = Some (FBuf (Some (ascii_bytes bitmap_text))) /\
    _parseKeyword blank bitmap_file (Int 28) = Ok kw /\
    keyword_bitmapBuffer kw = Some (ascii_bytes bitmap_text) /\
    bitmap_file = before ++ ascii_bytes bitmap_text ++ after.
Proof.
  destruct (stored_buffers blank bitmap_file) as (Hlayer & _ & Hkw & _).
  eassert (Hl : _parseLayer blank bitmap_file (Int 28) = Ok _)
    by (vm_compute; reflexivity).
  eassert (Hk : _parseKeyword blank bitmap_file (Int 28) = Ok _)
    by (vm_compute; reflexivity).
  destruct (Hlayer _ _ Hl) as (ldata & bitmap & _ & Hown & _ & _ & Hpart).
  destruct (Hkw _ _ Hk) as (kdata & _ & _ & _ & Hkpart).
  destruct (Hkpart (ascii_bytes bitmap_text)) as (before & after & Hfile);
    [vm_compute; reflexivity|].
  do 2 eexists. exists before, after.
  split; [exact Hl|]. split; [vm_compute; reflexivity|].
  split; [exact Hk|]. split; [vm_compute; reflexivity|]. exact Hfile.
Defined.

(** ** The constants of a document *)

(** X16: the constants of a document.  Whatever the file holds, a returned
    document has the page size 1404 by 1872, 4-byte addresses and length
    fields and the five default layer names: no stage of the parser changes
    what the constructor assigned before parsing. *)
Theorem constructor_constants (b : buffer) (d : SupernoteX) :
  constructor b = Ok d ->
  pageWidth d = 1404 /\ pageHeight d = 1872 /\
  addressSize d = 4 /\ lengthFieldSize d = 4 /\
  defaultLayers d
  = [lit "MAINLAYER"; lit "LAYER1"; lit "LAYER2"; lit "LAYER3"; lit "BGLAYER"].
Proof.
  intros Hd. apply constructor_assembled in Hd.
  destruct Hd as (f & h & ps & ks & ts & pageGroup & coverGroup & keywordGroup
                  & titleGroup & _ & Hconst & _).
  injection Hconst as -> -> -> -> ->. repeat split.
Qed.

Lemma constructor_constants_witness :
  exists d, constructor bitmap_file = Ok d /\ pageWidth d = 1404 /\ lengthFieldSize d = 4.
Proof.
  eassert (Hrun : constructor bitmap_file = Ok _) by (vm_compute; reflexivity).
  destruct (constructor_constants _ _ Hrun) as (Hw & _ & _ & Hl & _).
  eexists. split; [exact Hrun|]. split; [exact Hw | exact Hl].
Defined.

(** ** The fields of a layer group *)

Lemma span_whole (p : char -> bool) (run : jsstring) :
  forallb p run = true -> span p run = (run, []).
Proof.
  induction run as [|c run IH]; simpl; intros H; [reflexivity|].
  apply andb_true_iff in H. destruct H as [Hc Hrun].
  now rewrite Hc, IH.
Qed.

Lemma dict_here_no_quote (c : char) (s : jsstring) :
  (c =? 34) = false -> dict_here (c :: s) = None.
Proof. intros H. unfold dict_here. now rewrite H. Qed.

Lemma matchAll_dict_skip (separator s : jsstring) :
  no_quote separator = true ->
  matchAll dict_here (separator ++ s) = matchAll dict_here s.
Proof.
  unfold no_quote. induction separator as [|c separator IH]; simpl; intros H;
    [reflexivity|].
  apply andb_true_iff in H. destruct H as [Hc Hsep].
  apply negb_true_iff in Hc.
  rewrite matchAll_miss by (apply dict_here_no_quote, Hc). apply IH, Hsep.
Qed.

Lemma dict_here_closes (rest : jsstring) :
  closes rest = true -> dict_here (34 :: rest) = None.
Proof.
  unfold closes, dict_here. rewrite Z.eqb_refl.
  destruct (span dict_key_char rest) as [key s2]. cbn [snd].
  destruct key as [|k0 key]; [reflexivity|].
  destruct s2 as [|c2 [|c3 s3]]; try reflexivity.
  intros H. apply negb_true_iff in H. now rewrite H.
Qed.

(** After a separator without a double quote comes a key that does not start
    with a hash, or the end of the text. *)
Lemma closes_separator (separator next : jsstring) :
  no_quote separator = true ->
  match next with
  | [] => True
  | c2 :: more => c2 = 34 /\ match more with [] => True | c3 :: _ => c3 <> 35 end
  end ->
  closes (separator ++ next) = true.
Proof.
  unfold closes, no_quote. intros Hsep Hnext.
  induction separator as [|c separator IH].
  - cbn [app]. destruct next as [|c2 more]; [reflexivity|].
    destruct Hnext as [-> Hmore]. cbn [span dict_key_char].
    change (dict_key_char 34) with false. cbn [snd].
    destruct more as [|c3 more]; [reflexivity|].
    apply negb_true_iff, andb_false_iff. right. now apply Z.eqb_neq.
  - cbn [forallb] in Hsep. apply andb_true_iff in Hsep. destruct Hsep as [Hc Hsep].
    cbn [app span]. destruct (dict_key_char c).
    + specialize (IH Hsep). destruct (span dict_key_char (separator ++ next)).
      exact IH.
    + cbn [snd]. apply negb_true_iff in Hc.
      destruct (separator ++ next); [reflexivity|]. now rewrite Hc.
Qed.

Lemma closes_fields (items : list (jsstring * (bool * (jsstring * jsstring))))
  (tail : jsstring) :
  fields_sequence items tail -> closes (fields_text items tail) = true.
Proof.
  destruct items as [|[separator [quotes [key v]]] items].
  - cbn [fields_sequence fields_text]. intros Htail.
    rewrite <- (app_nil_r tail). now apply closes_separator.
  - cbn [fields_sequence fields_text]. intros (Hsep & Hk & _ & Hhash & _).
    apply closes_separator; [exact Hsep|]. unfold field_text.
    split; [reflexivity|]. destruct key as [|k0 key]; [contradiction|]. exact Hhash.
Qed.

(** The pair pattern on a written field. *)
Lemma dict_here_field (quotes : bool) (key v rest : jsstring) :
  key <> [] -> forallb dict_key_char key = true ->
  v <> [] -> forallb dict_value_char v = true ->
  (quotes = false -> value_ends rest = true) ->
  dict_here (field_text quotes key v ++ rest)
  = Some ((key, v),
          (3 + List.length key + (if quotes then 1 else 0) + List.length v)%nat).
Proof.
  intros Hk Hkey Hv Hvalue Hends. unfold field_text, dict_here.
  rewrite <- app_comm_cons, Z.eqb_refl, <- app_assoc, <- !app_comm_cons.
  rewrite (span_run dict_key_char key 34) by (assumption || reflexivity).
  destruct key as [|k0 key]; [contradiction|].
  rewrite !Z.eqb_refl. cbn [andb].
  assert (Hspan : forall after,
            value_ends after = true -> fst (span dict_value_char (v ++ after)) = v).
  { intros [|c after] Hc.
    - rewrite app_nil_r, span_whole by exact Hvalue. reflexivity.
    - cbn [value_ends] in Hc. apply negb_true_iff in Hc.
      rewrite (span_run dict_value_char v c) by assumption. reflexivity. }
  destruct quotes.
  - rewrite <- app_comm_cons, Z.eqb_refl, <- app_assoc.
    match goal with
    | |- context [fst ?x] =>
        replace (fst x) with v by (symmetry; exact (Hspan (34 :: rest) eq_refl))
    end.
    destruct v as [|v0 v]; [contradiction|]. reflexivity.
  - destruct v as [|v0 v]; [contradiction|].
    cbn [forallb] in Hvalue. apply andb_true_iff in Hvalue.
    destruct Hvalue as [Hv0 Hvalue'].
    assert (Hq : (v0 =? 34) = false).
    { destruct (Z.eqb_spec v0 34) as [->|]; [discriminate Hv0 | reflexivity]. }
    rewrite <- app_comm_cons, Hq.
    match goal with
    | |- context [fst ?x] =>
        replace (fst x) with (v0 :: v)
          by (symmetry; exact (Hspan rest (Hends eq_refl)))
    end.
    reflexivity.
Qed.

Lemma matchAll_field (quotes : bool) (key v rest : jsstring) :
  key <> [] -> forallb dict_key_char key = true ->
  v <> [] -> forallb dict_value_char v = true ->
  (quotes = false -> value_ends rest = true) ->
  matchAll dict_here (field_text quotes key v ++ rest)
  = (key, v) :: matchAll dict_here (if quotes then 34 :: rest else rest).
Proof.
  intros Hk Hkey Hv Hvalue Hends.
  pose proof (dict_here_field quotes key v rest Hk Hkey Hv Hvalue Hends) as Hhere.
  assert (Hshape : field_text quotes key v ++ rest
                   = 34 :: (key ++ 34 :: 35 :: (if quotes then [34] else []) ++ v)
                       ++ (if quotes then 34 :: rest else rest)).
  { unfold field_text. destruct quotes; cbn [app]; rewrite <- !app_assoc; cbn [app];
      rewrite <- ?app_assoc; reflexivity. }
  rewrite Hshape in *. apply matchAll_hit.
  etransitivity; [exact Hhere|]. do 2 f_equal.
  rewrite !length_app. destruct quotes; cbn [List.length app]; lia.
Qed.

(** On the text of a well-formed group the pair pattern matches the fields,
    one after the other. *)
Lemma matchAll_fields_text (items : list (jsstring * (bool * (jsstring * jsstring))))
  (tail : jsstring) :
  fields_sequence items tail ->
  matchAll dict_here (fields_text items tail) = written_fields items.
Proof.
  induction items as [|[separator [quotes [key v]]] items IH].
  - cbn [fields_sequence fields_text]. intros Htail.
    rewrite <- (app_nil_r tail). now rewrite matchAll_dict_skip.
  - intros Hseq. cbn [fields_sequence] in Hseq.
    destruct Hseq as (Hsep & Hk & Hkey & Hhash & Hv & Hvalue & Hends & Hrest).
    cbn [fields_text written_fields map snd].
    rewrite matchAll_dict_skip by exact Hsep.
    rewrite matchAll_field by assumption.
    f_equal. destruct quotes.
    + rewrite matchAll_miss by (apply dict_here_closes, closes_fields, Hrest).
      apply IH, Hrest.
    + apply IH, Hrest.
Qed.

(** The record built for a group reads the pairs that the pair pattern
    finds in it. *)
Lemma layer_of_dict_reads (text : jsstring) (fields : list (jsstring * jsstring)) :
  matchAll dict_here text = fields ->
  layer_reads fields (layer_of_dict (layer_dict text)).
Proof.
  intros Hmatch. unfold layer_reads, written, layer_of_dict.
  cbn [layerId name isBackgroundLayer isAllowAdd isCurrentLayer isVisible
       isDeleted isAllowUp isAllowDown].
  rewrite !is_true_iff.
  rewrite (layer_dict_raw "layerId"), (layer_dict_raw "name"),
    (layer_dict_raw "isBackgroundLayer"), (layer_dict_raw "isAllowAdd"),
    (layer_dict_raw "isCurrentLayer"), (layer_dict_raw "isVisible"),
    (layer_dict_raw "isDeleted"), (layer_dict_raw "isAllowUp"),
    (layer_dict_raw "isAllowDown") by (vm_compute; discriminate).
  unfold raw_field. rewrite Hmatch.
  repeat split; try (intros H; exact H);
    try (intros H; rewrite H; reflexivity);
    try (intros v H; rewrite H; reflexivity).
Qed.

(** ** C6: [extractLayerInfo] *)

(** C6, as amended.  On a text made of brace-delimited groups with an
    interior that is not empty and holds no brace, [extractLayerInfo] gives
    exactly one record per group, in the order of the text; the record of a
    group whose interior is a sequence of well-formed fields reads these
    fields: a name that is not written has its default ([layerId] 0, [name]
    "Main layer", every flag false), and a flag is true exactly when the
    last value written for it is the string "true". *)
Theorem extractLayerInfo_groups (groups : list (jsstring * jsstring))
  (tail : jsstring) :
  layer_sequence groups tail ->
  List.length (extractLayerInfo (layer_text groups tail)) = List.length groups /\
  forall i separator items rest,
    nth_error groups i = Some (separator, fields_text items rest) ->
    fields_sequence items rest ->
    exists info,
      nth_error (extractLayerInfo (layer_text groups tail)) i = Some info /\
      layer_reads (written_fields items) info.
Proof.
  intros Hseq. unfold extractLayerInfo.
  rewrite (matchAll_layer_text groups tail Hseq). split.
  - now rewrite !length_map.
  - intros i separator items rest Hnth Hfields. eexists. split.
    + rewrite !nth_error_map, Hnth. reflexivity.
    + apply layer_of_dict_reads, matchAll_fields_text, Hfields.
Qed.

Lemma extractLayerInfo_groups_witness :
  exists first second,
    extractLayerInfo two_groups = [first; second] /\
    layerId first = Int 1 /\ name first = lit "Background" /\
    isVisible first = true /\ isDeleted first = false /\
    layerId second = Int 3 /\ name second = lit "Layer 3" /\
    isVisible second = true.
Proof.
  assert (Hseq : layer_sequence [([], scenario_group); (lit ",", device_group)] []).
  { split; [reflexivity|]. intros separator interior [E|[E|[]]];
      injection E as <- <-; repeat split; discriminate. }
  destruct (extractLayerInfo_groups _ _ Hseq) as [Hlen Hrecords].
  destruct (Hrecords 0%nat []
              [([], (true, (lit "layerId", lit "1")));
               (lit ",", (true, (lit "name", lit "Background")));
               (lit ",", (true, (lit "isVisible", lit "true")))] [])
    as (first & Hfirst & _ & Hid1 & _ & Hname1 & _ & _ & _ & Hvisible1 & Hdeleted1 & _).
  { reflexivity. }
  { cbn [fields_sequence]. repeat split; try discriminate; try reflexivity. }
  destruct (Hrecords 1%nat (lit ",")
              [([], (false, (lit "layerId", lit "3")));
               (lit ",", (true, (lit "name", lit "Layer 3")));
               (lit ",", (false, (lit "isVisible", lit "true")))] [])
    as (second & Hsecond & _ & Hid2 & _ & Hname2 & _ & _ & _ & Hvisible2 & _).
  { reflexivity. }
  { cbn [fields_sequence]. repeat split; try discriminate; try reflexivity. }
  exists first, second. fold two_groups in Hlen, Hfirst, Hsecond.
  split.
  - destruct (extractLayerInfo two_groups) as [|x [|y [|z l]]]; try discriminate Hlen.
    cbn in Hfirst, Hsecond. congruence.
  - split; [apply (Hid1 (lit "1")); reflexivity|].
    split; [apply Hname1; reflexivity|].
    split; [apply Hvisible1; reflexivity|].
    split.
    { destruct (isDeleted first); [|reflexivity].
      destruct Hdeleted1 as [Hdeleted1 _]. specialize (Hdeleted1 eq_refl).
      vm_compute in Hdeleted1. discriminate Hdeleted1. }
    split; [apply (Hid2 (lit "3")); reflexivity|].
    split; [apply Hname2; reflexivity|].
    apply Hvisible2. reflexivity.
Defined.

(** C6 as stated fails: the text [{}] is one brace-delimited group, and no
    record is returned for it. *)
Lemma extractLayerInfo_empty_group :
  layer_text [([], [])] [] = lit "{}" /\
  extractLayerInfo (lit "{}") = [].
Proof. split; reflexivity. Qed.

(** X17: reading back the fields of a layer group.  On the text of a
    well-formed group (fields written key, hash, value, with or without
    quotes around the value) the pair pattern finds exactly the written
    fields in their order; when moreover the text holds no brace and is not
    empty, the group between braces gives one layer record, whose
    identifier, name and flags are those of the last field written under
    each name. *)
Theorem extractLayerInfo_written_fields
  (items : list (jsstring * (bool * (jsstring * jsstring)))) (tail : jsstring) :
  fields_sequence items tail ->
  forallb brace_free (fields_text items tail) = true ->
  fields_text items tail <> [] ->
  matchAll dict_here (fields_text items tail) = written_fields items /\
  exists info,
    extractLayerInfo (123 :: fields_text items tail ++ [125]) = [info] /\
    layerId info
    = parseInt (or_default (raw_value (lit "layerId") (written_fields items)) (lit "0")) /\
    name info
    = or_default (raw_value (lit "name") (written_fields items)) (lit "Main layer") /\
    (isBackgroundLayer info = true <->
       raw_value (lit "isBackgroundLayer") (written_fields items) = Some (lit "true")) /\
    (isAllowAdd info = true <->
       raw_value (lit "isAllowAdd") (written_fields items) = Some (lit "true")) /\
    (isCurrentLayer info = true <->
       raw_value (lit "isCurrentLayer") (written_fields items) = Some (lit "true")) /\
    (isVisible info = true <->
       raw_value (lit "isVisible") (written_fields items) = Some (lit "true")) /\
    (isDeleted info = true <->
       raw_value (lit "isDeleted") (written_fields items) = Some (lit "true")) /\
    (isAllowUp info = true <->
       raw_value (lit "isAllowUp") (written_fields items) = Some (lit "true")) /\
    (isAllowDown info = true <->
       raw_value (lit "isAllowDown") (written_fields items) = Some (lit "true")).
Proof.
  intros Hseq Hbraces Hne.
  pose proof (matchAll_fields_text items tail Hseq) as Hmatch.
  split; [exact Hmatch|].
  set (text := fields_text items tail) in *.
  assert (Hgroups : matchAll layer_here (123 :: text ++ [125]) = [text]).
  { apply (matchAll_layer_text [([], text)] []).
    split; [reflexivity|]. intros separator interior [E|[]].
    injection E as <- <-. repeat split; assumption. }
  eexists. split.
  - unfold extractLayerInfo. rewrite Hgroups. reflexivity.
  - unfold layer_of_dict. cbn [layerId name isBackgroundLayer isAllowAdd
      isCurrentLayer isVisible isDeleted isAllowUp isAllowDown].
    rewrite !is_true_iff.
    rewrite (layer_dict_raw "layerId"), (layer_dict_raw "name"),
      (layer_dict_raw "isBackgroundLayer"), (layer_dict_raw "isAllowAdd"),
      (layer_dict_raw "isCurrentLayer"), (layer_dict_raw "isVisible"),
      (layer_dict_raw "isDeleted"), (layer_dict_raw "isAllowUp"),
      (layer_dict_raw "isAllowDown") by (vm_compute; discriminate).
    unfold raw_field. rewrite Hmatch. repeat split; intros H; exact H.
Qed.

Lemma extractLayerInfo_written_fields_witness :
  exists info,
    extractLayerInfo (123 :: device_group ++ [125]) = [info] /\
    layerId info = Int 3 /\ name info = lit "Layer 3" /\ isVisible info = true.
Proof.
  destruct (extractLayerInfo_written_fields
              [([], (false, (lit "layerId", lit "3")));
               (lit ",", (true, (lit "name", lit "Layer 3")));
               (lit ",", (false, (lit "isVisible", lit "true")))] [])
    as (_ & info & Hrun & Hid & Hname & _ & _ & _ & Hvisible & _).
  - cbn [fields_sequence]. repeat split; try discriminate; try reflexivity.
  - vm_compute. reflexivity.
  - discriminate.
  - exists info. split; [exact Hrun|]. split; [exact Hid|]. split; [exact Hname|].
    apply Hvisible. reflexivity.
Defined.
